(** * The Aladin metadata plugin for calibre: model and verified properties

    The development follows the two Python sources of the plugin:
    [__init__.py] (class [Aladin]: query construction, search-result
    scraping, worker fan-out, cover download) and [worker.py] (class
    [Worker]: one detail page fetched and scraped into a metadata record).

    Text is modelled as Python 2 [unicode] objects, that is, sequences of
    code points; byte strings are sequences of octets.  HTML documents are
    lxml element trees.  The host application (calibre), the HTTP client,
    the HTML parser, the codecs and the thread scheduler are external to
    the plugin and appear as fields of the records [Host] and [World]. *)

From Stdlib Require Import Ascii.
From stdpp Require Import gmap strings list fin_maps sorting.

Local Open Scope N_scope.

(** ** Python text *)

(** A [unicode] object: a sequence of code points. *)
Abbreviation ustr := (list N).
(** A byte [str]: a sequence of octets. *)
Abbreviation bytes := (list N).

(** A literal of the source; the literals used below are ASCII, except the
    Korean word for "series", which is written out by [series_word]. *)
Fixpoint u (s : string) : ustr :=
  match s with
  | EmptyString => []
  | String a s' => N_of_ascii a :: u s'
  end.

Arguments u : simpl never.

(** U+C2DC U+B9AC U+C988, the literal [u'시리즈'] of [parse_title_series]. *)
Definition series_word : ustr := [49884; 47532; 51592].

Module Py.

(** Truth value of a string or of a list: non-empty. *)
Definition truthy {A} (l : list A) : bool :=
  match l with [] => false | _ :: _ => true end.

(** Truth value of an optional object ([None] is false). *)
Definition truthy_opt {A} (o : option (list A)) : bool :=
  match o with None => false | Some l => truthy l end.

Fixpoint startswith (s p : ustr) : bool :=
  match p, s with
  | [], _ => true
  | _ :: _, [] => false
  | a :: p', b :: s' => (a =? b) && startswith s' p'
  end.

Definition endswith (s suffix : ustr) : bool :=
  startswith (rev s) (rev suffix).

(** [sub in s] *)
Fixpoint contains (sub s : ustr) : bool :=
  startswith s sub ||
  match s with
  | [] => false
  | _ :: s' => contains sub s'
  end.

(** [s.replace(old, new)] for a non-empty [old]: every non-overlapping
    occurrence, from the left.  [skip] counts the characters of the
    occurrence just replaced that are still to be dropped. *)
Fixpoint replace_from (old new : ustr) (skip : nat) (s : ustr) : ustr :=
  match s with
  | [] => []
  | c :: s' =>
      match skip with
      | S k => replace_from old new k s'
      | O =>
          if startswith s old
          then new ++ replace_from old new (pred (length old)) s'
          else c :: replace_from old new O s'
      end
  end.

Definition replace (old new s : ustr) : ustr := replace_from old new O s.

(** [s.split(sep)] for a non-empty [sep].  [cur] is the token being read,
    reversed. *)
Fixpoint split_from (sep : ustr) (skip : nat) (cur : ustr) (s : ustr)
  : list ustr :=
  match s with
  | [] => [rev cur]
  | c :: s' =>
      match skip with
      | S k => split_from sep k cur s'
      | O =>
          if startswith s sep
          then rev cur :: split_from sep (pred (length sep)) [] s'
          else split_from sep O (c :: cur) s'
      end
  end.

Definition split (sep s : ustr) : list ustr := split_from sep O [] s.

(** [s.rfind(sep)]: where the last occurrence of [sep] starts. *)
Fixpoint rfind (sep s : ustr) : option nat :=
  match s with
  | [] => if startswith [] sep then Some O else None
  | _ :: s' =>
      match rfind sep s' with
      | Some i => Some (S i)
      | None => if startswith s sep then Some O else None
      end
  end.

(** [s.rsplit(sep, 1)] *)
Definition rsplit1 (sep s : ustr) : list ustr :=
  match rfind sep s with
  | None => [s]
  | Some i => [take i s; drop (i + length sep)%nat s]
  end.

(** [unicode.isspace] of Python 2.7 for one code point. *)
Definition isspace (c : N) : bool :=
  ((9 <=? c) && (c <=? 13)) || ((28 <=? c) && (c <=? 32))
  || (c =? 133) || (c =? 160) || (c =? 5760) || (c =? 6158)
  || ((8192 <=? c) && (c <=? 8202)) || (c =? 8232) || (c =? 8233)
  || (c =? 8239) || (c =? 8287) || (c =? 12288).

(** [str.isspace] for one octet (the C locale). *)
Definition isspace_byte (c : N) : bool :=
  ((9 <=? c) && (c <=? 13)) || (c =? 32).

Fixpoint lstrip_with (sp : N -> bool) (s : list N) : list N :=
  match s with
  | [] => []
  | c :: s' => if sp c then lstrip_with sp s' else s
  end.

Definition strip_with (sp : N -> bool) (s : list N) : list N :=
  rev (lstrip_with sp (rev (lstrip_with sp s))).

(** [unicode.strip()] *)
Definition strip (s : ustr) : ustr := strip_with isspace s.

(** [str.strip()] *)
Definition strip_bytes (s : bytes) : bytes := strip_with isspace_byte s.

(** [sep.join(l)] *)
Fixpoint join (sep : ustr) (l : list ustr) : ustr :=
  match l with
  | [] => []
  | [x] => x
  | x :: l' => x ++ sep ++ join sep l'
  end.

Definition isdigit (c : N) : bool := (48 <=? c) && (c <=? 57).

(** [int(s)] for a string of ASCII digits. *)
Definition int_of_digits (s : ustr) : N :=
  fold_left (fun acc c => 10 * acc + (c - 48)) s 0.

Definition hexdigit (d : N) : N := if d <? 10 then 48 + d else 55 + d.

(** Octets that [urllib.quote] leaves as they are: letters, digits,
    [_], [.], [-] and the default safe character [/]. *)
Definition quote_safe (c : N) : bool :=
  ((65 <=? c) && (c <=? 90)) || ((97 <=? c) && (c <=? 122)) || isdigit c
  || (c =? 95) || (c =? 46) || (c =? 45) || (c =? 47).

(** [urllib.quote(s)] *)
Definition quote (s : bytes) : ustr :=
  flat_map (fun c => if quote_safe c then [c]
                     else [37; hexdigit (c / 16); hexdigit (c mod 16)]) s.

End Py.

(** ** The two regular expressions of [worker.py] *)

Module Re.

Fixpoint digits_prefix (s : ustr) : ustr :=
  match s with
  | c :: s' => if Py.isdigit c then c :: digits_prefix s' else []
  | [] => []
  end.

(** [re.search('ISBN=(\d+)', s)]: group 1 of the leftmost match. *)
Fixpoint search_isbn (s : ustr) : option ustr :=
  let here :=
    if Py.startswith s (u "ISBN=")
    then match digits_prefix (drop 5 s) with
         | [] => None
         | ds => Some ds
         end
    else None in
  match here with
  | Some ds => Some ds
  | None => match s with
            | [] => None
            | _ :: s' => search_isbn s'
            end
  end.

(** [(\d{4})-(\d{2})-(\d{2})] anchored at the head of [s]. *)
Definition match_date (s : ustr) : option (ustr * ustr * ustr) :=
  match s with
  | y1 :: y2 :: y3 :: y4 :: h1 :: m1 :: m2 :: h2 :: d1 :: d2 :: _ =>
      if forallb Py.isdigit [y1; y2; y3; y4; m1; m2; d1; d2]
         && (h1 =? 45) && (h2 =? 45)
      then Some ([y1; y2; y3; y4], [m1; m2], [d1; d2])
      else None
  | _ => None
  end.

(** [re.search('(\d{4})-(\d{2})-(\d{2})', s)]: groups 1, 2, 3 of the
    leftmost match. *)
Fixpoint search_date (s : ustr) : option (ustr * ustr * ustr) :=
  match match_date s with
  | Some g => Some g
  | None => match s with
            | [] => None
            | _ :: s' => search_date s'
            end
  end.

End Re.

(** ** Python results: a value or a raised exception *)

Inductive pyexn :=
| IndexError | AttributeError | ValueError | UnicodeEncodeError.

Inductive res (A : Type) :=
| Ret (a : A)
| Raise (e : pyexn).
Arguments Ret {A} a.
Arguments Raise {A} e.

Definition bind {A B} (r : res A) (k : A -> res B) : res B :=
  match r with
  | Ret a => k a
  | Raise e => Raise e
  end.

Notation "x <- r ;; k" := (bind r (fun x => k))
  (at level 100, r at next level, right associativity).

(** [l[0]] *)
Definition first {A} (l : list A) : res A :=
  match l with
  | [] => Raise IndexError
  | x :: _ => Ret x
  end.

(** A method call on an attribute that may be [None]. *)
Definition deref {A} (o : option A) : res A :=
  match o with
  | None => Raise AttributeError
  | Some a => Ret a
  end.

(** ** [datetime.datetime(year, month, day)] *)

Record datetime := { dt_year : N; dt_month : N; dt_day : N }.

Definition is_leap (y : N) : bool :=
  ((y mod 4 =? 0) && negb (y mod 100 =? 0)) || (y mod 400 =? 0).

Definition days_in_month (y m : N) : N :=
  if m =? 2 then (if is_leap y then 29 else 28)
  else if (m =? 4) || (m =? 6) || (m =? 9) || (m =? 11) then 30
  else 31.

Definition mk_datetime (y m d : N) : res datetime :=
  if (1 <=? y) && (y <=? 9999) && (1 <=? m) && (m <=? 12)
     && (1 <=? d) && (d <=? days_in_month y m)
  then Ret {| dt_year := y; dt_month := m; dt_day := d |}
  else Raise ValueError.

Local Close Scope N_scope.

(** ** lxml element trees and the XPath queries of the plugin *)

Local Set Warnings "-register-all".

(** An lxml element: tag, attributes, the text before the first child, the
    children, and the text after the closing tag ([tail]). *)
Inductive node :=
| Node (tag : ustr) (attrs : list (ustr * ustr)) (text : option ustr)
       (children : list node) (tail : option ustr).

Definition tag (n : node) : ustr := let 'Node t _ _ _ _ := n in t.
Definition attrs (n : node) : list (ustr * ustr) := let 'Node _ a _ _ _ := n in a.
Definition text (n : node) : option ustr := let 'Node _ _ t _ _ := n in t.
Definition children (n : node) : list node := let 'Node _ _ _ c _ := n in c.
Definition tail (n : node) : option ustr := let 'Node _ _ _ _ t := n in t.

Module XPath.

(** [@name]: the value of an attribute, if the element has it. *)
Fixpoint assoc (name : ustr) (l : list (ustr * ustr)) : option ustr :=
  match l with
  | [] => None
  | (k, v) :: l' => if bool_decide (k = name) then Some v else assoc name l'
  end.

Definition attr (name : string) (n : node) : option ustr :=
  assoc (u name) (attrs n).

Definition is_tag (t : string) (n : node) : bool := bool_decide (tag n = u t).

(** [@name="v"] *)
Definition attr_is (name v : string) (n : node) : bool :=
  bool_decide (attr name n = Some (u v)).

(** [contains(@name, "v")]; the string value of a missing attribute is
    empty. *)
Definition attr_contains (name v : string) (n : node) : bool :=
  match attr name n with
  | Some s => Py.contains (u v) s
  | None => Py.contains (u v) []
  end.

(** Where a node sits: its ancestors, nearest first, and the sibling
    elements before it, in document order. *)
Record ctx := { anc : list node; before : list node }.

(** The nodes XPath sees: elements and non-empty text nodes. *)
Inductive item :=
| IElem (c : ctx) (n : node)
| IText (c : ctx) (s : ustr).

Definition text_item (c : ctx) (t : option ustr) : list item :=
  match t with
  | Some (ch :: s) => [IText c (ch :: s)]
  | _ => []
  end.

(** The children [l] of an element, each followed by its tail; [prev]
    are the children already passed and [up] the ancestors of all. *)
Definition walk_kids (walk : ctx -> node -> list item) (up : list node)
  : list node -> list node -> list item :=
  fix go (prev l : list node) {struct l} : list item :=
    match l with
    | [] => []
    | k :: l' =>
        walk {| anc := up; before := prev |} k ++
        text_item {| anc := up; before := prev ++ [k] |} (tail k) ++
        go (prev ++ [k]) l'
    end.

(** The subtree of [n] in document order.  The tail of [n] belongs to
    the parent of [n] and is listed by the walk of the parent. *)
Fixpoint walk (c : ctx) (n : node) {struct n} : list item :=
  match n with
  | Node _ _ tx kids _ =>
      let up := n :: anc c in
      IElem c n ::
      text_item {| anc := up; before := [] |} tx ++
      walk_kids walk up [] kids
  end.

Definition top : ctx := {| anc := []; before := [] |}.

(** Document order of the elements of a tree, as the XPath data model
    defines it: an element comes before its children, and the children
    come in order, each with all of its subtree. *)
Fixpoint document_order (n : node) : list node :=
  match n with
  | Node _ _ _ kids _ => n :: flat_map document_order kids
  end.

Definition elem_of_item (i : item) : option (ctx * node) :=
  match i with IElem c n => Some (c, n) | IText _ _ => None end.

Definition text_of_item (i : item) : option (ctx * ustr) :=
  match i with IText c s => Some (c, s) | IElem _ _ => None end.

(** [//*]: every element of the document, with its position. *)
Definition elements (root : node) : list (ctx * node) :=
  omap elem_of_item (walk top root).

(** [.//*]: the proper descendants of [n]. *)
Definition descendants (n : node) : list (ctx * node) :=
  drop 1 (elements n).

(** [//t[p]] *)
Definition select (t : string) (p : node -> bool) (root : node) : list node :=
  snd <$> filter (fun cn => is_tag t cn.2 && p cn.2 = true) (elements root).

(** [.//t[p]] *)
Definition select_below (t : string) (p : node -> bool) (n : node)
  : list node :=
  snd <$> filter (fun cn => is_tag t cn.2 && p cn.2 = true) (descendants n).

(** [//t[p][1]]: the elements that are the first child of their parent
    to be a [t] satisfying [p]. *)
Definition select_first_child (t : string) (p : node -> bool) (root : node)
  : list node :=
  snd <$> filter (fun cn => is_tag t cn.2 && p cn.2
                            && negb (existsb (fun b => is_tag t b && p b)
                                       (before cn.1)) = true)
                 (elements root).

(** [//t[@name="v"]/@content] *)
Definition meta_content (name v : string) (root : node) : list ustr :=
  omap (attr "content") (select "meta" (attr_is name v) root).

(** [//div[@class="p_previewbox"]/a/img/@src] *)
Definition preview_srcs (root : node) : list ustr :=
  omap (fun cn : ctx * node =>
          match anc cn.1 with
          | a :: d :: _ =>
              if is_tag "img" cn.2 && is_tag "a" a
                 && is_tag "div" d && attr_is "class" "p_previewbox" d
              then attr "src" cn.2 else None
          | _ => None
          end) (elements root).

(** [.//a[p]/following-sibling::text()]: the text nodes below [n] that
    come, under the same parent, after an [a] satisfying [p]. *)
Definition following_text (p : node -> bool) (n : node) : list ustr :=
  snd <$> filter (fun cs : ctx * ustr =>
                    existsb (fun b => is_tag "a" b && p b) (before cs.1) = true)
                 (omap text_of_item (walk top n)).

End XPath.

(** ** The host's metadata record and the plugin's surroundings *)

Section Plugin.

(** Python's [float] objects. *)
Context {float : Type}.

(** The attributes of calibre's [Metadata] object that the plugin
    assigns.  An attribute that was never assigned reads [None]. *)
Record Metadata := {
  mi_title : ustr;
  mi_authors : list ustr;
  mi_series : option ustr;
  mi_series_index : option float;
  mi_isbn : option ustr;
  mi_comments : option ustr;
  mi_has_cover : bool;
  mi_cover_url : option ustr;
  mi_publisher : option ustr;
  mi_pubdate : option datetime;
  mi_language : option ustr;
  mi_source_relevance : nat
}.

(** [Metadata(title, authors)] *)
Definition new_metadata (title : ustr) (authors : list ustr) : Metadata :=
  {| mi_title := title; mi_authors := authors;
     mi_series := None; mi_series_index := None; mi_isbn := None;
     mi_comments := None; mi_has_cover := false; mi_cover_url := None;
     mi_publisher := None; mi_pubdate := None; mi_language := None;
     mi_source_relevance := O |}.

(** [mi.identifiers]: calibre keeps the isbn attribute in the
    identifiers dict of the record, and drops an empty value. *)
Definition mi_identifiers (mi : Metadata) : gmap string ustr :=
  match mi_isbn mi with
  | Some (c :: i) => {[ "isbn"%string := c :: i ]}
  | _ => ∅
  end.

(** Who sends a request: the plugin's own thread or worker thread [i]. *)
Inductive requester := Caller | Thread (i : nat).

(** What [open_novisit(url, timeout).read()] gives: the body, or an
    exception.  [open_novisit] raises one with [getcode()], one whose
    first argument is a [socket.timeout], or any other; or it returns
    and [read()] raises. *)
Inductive response :=
| Body (raw : bytes)
| HTTPError (code : Z)
| SocketTimeout
| Failure
| ReadError.

(** Library and host functions the plugin calls. *)
Record Host := {
  (** the builtin [float(s)]; [None] stands for [ValueError] *)
  py_float : ustr -> option float;
  (** [t.encode('euc-kr')]; [None] stands for [UnicodeEncodeError] *)
  euc_kr_encode : ustr -> option bytes;
  (** [raw.decode('euc-kr', errors='replace')] *)
  euc_kr_decode : bytes -> ustr;
  (** [calibre.ebooks.metadata.check_isbn] *)
  check_isbn : option ustr -> option ustr;
  (** [calibre.utils.cleantext.clean_ascii_chars] *)
  clean_ascii_chars : ustr -> ustr;
  (** [lxml.html.fromstring]; [None] stands for a parse error *)
  fromstring : ustr -> option node;
  (** [Source.clean_downloaded_metadata], which updates the record *)
  clean_downloaded_metadata : Metadata -> Metadata;
  (** [Source.identify_results_keygen(title, authors, identifiers)] *)
  identify_results_keygen :
    option ustr -> option (list ustr) -> gmap string ustr -> Metadata -> Z;
  (** [calibre.as_unicode(e)] for the exception behind a response *)
  as_unicode : response -> ustr
}.

(** The outside world of one run.  Time is counted in milliseconds. *)
Record World := {
  (** the answer to a request *)
  respond : requester -> ustr -> nat -> response;
  (** how long the requester waits for that answer *)
  latency : requester -> ustr -> nat;
  (** when the host sets the [abort] event, if it ever does; the host
      never clears it *)
  abort_at : option nat
}.

(** ** Log and shared objects *)

Inductive level := Info | Error | Exception | Plain.

Inductive pyval :=
| VNone
| VStr (s : ustr)
| VList (l : list ustr).

Definition vopt (o : option ustr) : pyval :=
  match o with None => VNone | Some s => VStr s end.

Record log_entry := Log { lvl : level; fmt : string; args : list pyval }.

(** The objects shared by the plugin and its workers: the plugin's
    identifier-to-cover-URL cache, the result queue and the log. *)
Record Shared := {
  cache : gmap (option ustr) ustr;
  queue : list Metadata;
  log : list log_entry
}.

Definition add_log (e : log_entry) (sh : Shared) : Shared :=
  {| cache := cache sh; queue := queue sh; log := log sh ++ [e] |}.

(** [result_queue.put(mi)] *)
Definition put (mi : Metadata) (sh : Shared) : Shared :=
  {| cache := cache sh; queue := queue sh ++ [mi]; log := log sh |}.

(** [Source.cache_identifier_to_cover_url(id_, url)] *)
Definition cache_identifier_to_cover_url
  (id_ : option ustr) (url : ustr) (sh : Shared) : Shared :=
  {| cache := <[id_ := url]> (cache sh); queue := queue sh; log := log sh |}.

End Plugin.

Arguments Metadata : clear implicits.
Arguments Host : clear implicits.
Arguments Shared : clear implicits.

(** ** [worker.py]: class [Worker] *)

Module Worker.
Section Methods.

Context {float : Type}.
Variable H : Host float.
Variable W : World.

(** The attributes of a worker that its methods read or assign.  [ident]
  tells the threads apart; the queue, the log and the plugin are the
  shared objects of [Shared]. *)
Record t := {
ident : nat;
url : ustr;
timeout : nat;
relevance : nat;
cover_url : option ustr;
isbn : option ustr
}.

(** [Worker(url, result_queue, browser, log, relevance, plugin)] *)
Definition init (i : nat) (url : ustr) (relevance : nat) : t :=
{| ident := i; url := url; timeout := 20; relevance := relevance;
   cover_url := None; isbn := None |}.

Definition set_isbn (v : option ustr) (w : t) : t :=
{| ident := ident w; url := url w; timeout := timeout w;
   relevance := relevance w; cover_url := cover_url w; isbn := v |}.

Definition set_cover_url (v : option ustr) (w : t) : t :=
{| ident := ident w; url := url w; timeout := timeout w;
   relevance := relevance w; cover_url := v; isbn := isbn w |}.

Definition set_relevance (v : nat) (w : t) : t :=
{| ident := ident w; url := url w; timeout := timeout w;
   relevance := v; cover_url := cover_url w; isbn := isbn w |}.

Definition set_series (s : option ustr) (i : option float)
(mi : Metadata float) : Metadata float :=
{| mi_title := mi_title mi; mi_authors := mi_authors mi;
   mi_series := s; mi_series_index := i; mi_isbn := mi_isbn mi;
   mi_comments := mi_comments mi; mi_has_cover := mi_has_cover mi;
   mi_cover_url := mi_cover_url mi; mi_publisher := mi_publisher mi;
   mi_pubdate := mi_pubdate mi; mi_language := mi_language mi;
   mi_source_relevance := mi_source_relevance mi |}.

Definition set_mi_isbn (v : option ustr) (mi : Metadata float)
: Metadata float :=
{| mi_title := mi_title mi; mi_authors := mi_authors mi;
   mi_series := mi_series mi; mi_series_index := mi_series_index mi;
   mi_isbn := v;
   mi_comments := mi_comments mi; mi_has_cover := mi_has_cover mi;
   mi_cover_url := mi_cover_url mi; mi_publisher := mi_publisher mi;
   mi_pubdate := mi_pubdate mi; mi_language := mi_language mi;
   mi_source_relevance := mi_source_relevance mi |}.

Definition set_comments (v : option ustr) (mi : Metadata float)
: Metadata float :=
{| mi_title := mi_title mi; mi_authors := mi_authors mi;
   mi_series := mi_series mi; mi_series_index := mi_series_index mi;
   mi_isbn := mi_isbn mi;
   mi_comments := v; mi_has_cover := mi_has_cover mi;
   mi_cover_url := mi_cover_url mi; mi_publisher := mi_publisher mi;
   mi_pubdate := mi_pubdate mi; mi_language := mi_language mi;
   mi_source_relevance := mi_source_relevance mi |}.

Definition set_cover (b : bool) (v : option ustr) (mi : Metadata float)
: Metadata float :=
{| mi_title := mi_title mi; mi_authors := mi_authors mi;
   mi_series := mi_series mi; mi_series_index := mi_series_index mi;
   mi_isbn := mi_isbn mi;
   mi_comments := mi_comments mi; mi_has_cover := b;
   mi_cover_url := v; mi_publisher := mi_publisher mi;
   mi_pubdate := mi_pubdate mi; mi_language := mi_language mi;
   mi_source_relevance := mi_source_relevance mi |}.

Definition set_publisher (v : option ustr) (mi : Metadata float)
: Metadata float :=
{| mi_title := mi_title mi; mi_authors := mi_authors mi;
   mi_series := mi_series mi; mi_series_index := mi_series_index mi;
   mi_isbn := mi_isbn mi;
   mi_comments := mi_comments mi; mi_has_cover := mi_has_cover mi;
   mi_cover_url := mi_cover_url mi; mi_publisher := v;
   mi_pubdate := mi_pubdate mi; mi_language := mi_language mi;
   mi_source_relevance := mi_source_relevance mi |}.

Definition set_pubdate (v : option datetime) (mi : Metadata float)
: Metadata float :=
{| mi_title := mi_title mi; mi_authors := mi_authors mi;
   mi_series := mi_series mi; mi_series_index := mi_series_index mi;
   mi_isbn := mi_isbn mi;
   mi_comments := mi_comments mi; mi_has_cover := mi_has_cover mi;
   mi_cover_url := mi_cover_url mi; mi_publisher := mi_publisher mi;
   mi_pubdate := v; mi_language := mi_language mi;
   mi_source_relevance := mi_source_relevance mi |}.

Definition set_language (v : option ustr) (mi : Metadata float)
: Metadata float :=
{| mi_title := mi_title mi; mi_authors := mi_authors mi;
   mi_series := mi_series mi; mi_series_index := mi_series_index mi;
   mi_isbn := mi_isbn mi;
   mi_comments := mi_comments mi; mi_has_cover := mi_has_cover mi;
   mi_cover_url := mi_cover_url mi; mi_publisher := mi_publisher mi;
   mi_pubdate := mi_pubdate mi; mi_language := v;
   mi_source_relevance := mi_source_relevance mi |}.

Definition set_source_relevance (v : nat) (mi : Metadata float)
: Metadata float :=
{| mi_title := mi_title mi; mi_authors := mi_authors mi;
   mi_series := mi_series mi; mi_series_index := mi_series_index mi;
   mi_isbn := mi_isbn mi;
   mi_comments := mi_comments mi; mi_has_cover := mi_has_cover mi;
   mi_cover_url := mi_cover_url mi; mi_publisher := mi_publisher mi;
   mi_pubdate := mi_pubdate mi; mi_language := mi_language mi;
   mi_source_relevance := v |}.

(** *** The extractors *)

(** [re.search('ISBN=(\d+)', url).groups(1)[0]] *)
Definition extract_isbn (url : ustr) : res ustr :=
deref (Re.search_isbn url).

(** [root.xpath('//td[@class="pwrap_bgtit"][1]')[0]] *)
Definition bgtit_node (root : node) : res node :=
first (XPath.select_first_child "td" (XPath.attr_is "class" "pwrap_bgtit") root).

(** [float(series_grp[1]) if len(series_grp)==2 and series_grp[1] else None] *)
Definition series_index_of (series_grp : list ustr) : res (option float) :=
match series_grp with
| [_; c :: i] =>
    match py_float H (c :: i) with
    | Some x => Ret (Some x)
    | None => Raise ValueError
    end
| _ => Ret None
end.

Definition parse_title_series (root : node)
: res (option ustr * option ustr * option float) :=
bgtit_node <- bgtit_node root;;
let title_node :=
  XPath.select_below "a" (XPath.attr_is "class" "p_topt01") bgtit_node in
match title_node with
| [] => Ret (None, None, None)
| t0 :: _ =>
    t <- deref (text t0);;
    let title_text := Py.strip t in
    let series_node :=
      XPath.select_below "a" (XPath.attr_contains "href" "SRID=") bgtit_node in
    match series_node with
    | s0 :: _ =>
        st <- deref (text s0);;
        let series_grp := Py.strip <$> Py.rsplit1 series_word st in
        series_name <- first series_grp;;
        series_index <- series_index_of series_grp;;
        Ret (Some title_text, Some series_name, series_index)
    | [] => Ret (Some title_text, None, None)
    end
end.

(** [[node.text.strip() for node in nodes]] *)
Fixpoint stripped_texts (nodes : list node) : res (list ustr) :=
match nodes with
| [] => Ret []
| n :: nodes' =>
    t <- deref (text n);;
    l <- stripped_texts nodes';;
    Ret (Py.strip t :: l)
end.

Definition np_af (what : string) (n : node) : bool :=
XPath.attr_is "class" "np_af" n && XPath.attr_contains "href" what n.

Definition parse_authors (root : node) : res (list ustr) :=
bgtit_node <- bgtit_node root;;
stripped_texts (XPath.select_below "a" (np_af "AuthorSearch") bgtit_node).

(** [l[1]] *)
Definition second {A} (l : list A) : res A :=
match l with
| _ :: x :: _ => Ret x
| _ => Raise IndexError
end.

Definition parse_isbn (root : node) : res (option ustr) :=
url <- first (XPath.meta_content "property" "og:url" root);;
if Py.contains (u "ISBN=") url
then i <- second (Py.rsplit1 (u "=") url);; Ret (Some i)
else Ret None.

Definition parse_publisher (root : node) : res (option ustr) :=
bgtit_node <- bgtit_node root;;
match XPath.select_below "a" (np_af "PublisherSearch") bgtit_node with
| n0 :: _ => t <- deref (text n0);; Ret (Some (Py.strip t))
| [] => Ret None
end.

Definition _convert_date_text (date_text : ustr) : res datetime :=
g <- deref (Re.search_date date_text);;
let '(year_s, month_s, day_s) := g in
mk_datetime (Py.int_of_digits year_s) (Py.int_of_digits month_s)
            (Py.int_of_digits day_s).

Definition parse_published_date (root : node) : res (option datetime) :=
bgtit_node <- bgtit_node root;;
match XPath.following_text (np_af "PublisherSearch") bgtit_node with
| d0 :: _ => d <- _convert_date_text d0;; Ret (Some d)
| [] => Ret None
end.

Definition parse_comments (root : node) : res ustr :=
first (XPath.meta_content "name" "Description" root).

Definition _is_valid_image (img_url : ustr) : bool :=
if Py.endswith img_url (u "noimg_b.gif") then false else true.

(** [parse_cover] assigns to the plugin's cache and to the worker's
  relevance; it raises only before it assigns anything. *)
Definition parse_cover (root : node) (w : t) (sh : Shared float)
: res (option ustr) * t * Shared float :=
match first (XPath.meta_content "property" "og:image" root) with
| Raise e => (Raise e, w, sh)
| Ret og =>
    let page_url :=
      match XPath.preview_srcs root with
      | u0 :: _ => Py.replace (u "_fs.") (u "_f.") u0
      | [] => og
      end in
    if negb (_is_valid_image page_url)
    then (Ret None, w, add_log (Log Info "Aborting parse_cover" []) sh)
    else
      let sh := cache_identifier_to_cover_url (isbn w) page_url sh in
      let w := set_relevance (relevance w + 5) w in
      (Ret (Some page_url), w, sh)
end.

(** *** [parse_details] and [get_details] *)

(** [try: x = r except: self.log.exception(msg % self.url); x = dflt] *)
Definition attempt {A} (r : res A) (msg : string) (dflt : A)
(w : t) (sh : Shared float) : A * Shared float :=
match r with
| Ret a => (a, sh)
| Raise _ => (dflt, add_log (Log Exception msg [VStr (url w)]) sh)
end.

Definition parse_details (root : node) (w : t) (sh : Shared float)
: t * Shared float :=
let '(isbn, sh) :=
  attempt (i <- extract_isbn (url w);; Ret (Some i))
          "No ISBN in URL: %r" None w sh in
let '(title, series, series_index, sh) :=
  attempt (parse_title_series root)
          "Error parsing title and series for url: %r"
          (None, None, None) w sh in
let '(authors, sh) :=
  attempt (parse_authors root)
          "Error parsing authors for url: %r" [] w sh in
if negb (Py.truthy_opt title) || negb (Py.truthy authors)
   || negb (Py.truthy_opt isbn)
then
  let sh := add_log (Log Error "Could not find title/authors/Aladin id for %r"
                         [VStr (url w)]) sh in
  let sh := add_log (Log Error "Aladin: %r Title: %r Authors: %r"
                         [vopt isbn; vopt title; VList authors]) sh in
  (w, sh)
else
  let mi := new_metadata (default [] title) authors in
  let mi := if Py.truthy_opt series
            then set_series series series_index mi else mi in
  let mi := set_mi_isbn isbn mi in
  let w := set_isbn isbn w in
  (* ISBN-13 *)
  let '(mi, w, sh) :=
    match parse_isbn root with
    | Ret isbn13 =>
        if Py.truthy_opt isbn13
        then (set_mi_isbn isbn13 mi, set_isbn isbn13 w, sh)
        else (mi, w, sh)
    | Raise _ =>
        (mi, w, add_log (Log Exception "Error parsing ISBN for url: %r"
                             [VStr (url w)]) sh)
    end in
  let '(mi, sh) :=
    match parse_comments root with
    | Ret c => (set_comments (Some c) mi, sh)
    | Raise _ =>
        (mi, add_log (Log Exception "Error parsing comments for url: %r"
                          [VStr (url w)]) sh)
    end in
  let '(w, sh) :=
    match parse_cover root w sh with
    | (Ret c, w, sh) => (set_cover_url c w, sh)
    | (Raise _, w, sh) =>
        (w, add_log (Log Exception "Error parsing cover for url: %r"
                         [VStr (url w)]) sh)
    end in
  let mi := set_cover (Py.truthy_opt (cover_url w)) (cover_url w) mi in
  let sh := if mi_has_cover mi
            then add_log (Log Info "Cover URL: %s" [vopt (mi_cover_url mi)]) sh
            else sh in
  let '(mi, sh) :=
    match parse_publisher root with
    | Ret p => (set_publisher p mi, sh)
    | Raise _ =>
        (mi, add_log (Log Exception "Error parsing publisher for url: %r"
                          [VStr (url w)]) sh)
    end in
  let '(mi, sh) :=
    match parse_published_date root with
    | Ret d => (set_pubdate d mi, sh)
    | Raise _ =>
        (mi, add_log (Log Exception "Error parsing published date for url: %r"
                          [VStr (url w)]) sh)
    end in
  let mi := set_language (Some (u "ko")) mi in
  let mi := set_source_relevance (relevance w) mi in
  let mi := clean_downloaded_metadata H mi in
  (w, put mi sh).

Definition get_details (w : t) (sh : Shared float) : t * Shared float :=
let sh := add_log (Log Info "Aladin url: %r" [VStr (url w)]) sh in
match respond W (Thread (ident w)) (url w) (timeout w) with
| HTTPError code =>
    if (code =? 404)%Z
    then (w, add_log (Log Error "URL malformed: %r" [VStr (url w)]) sh)
    else (w, add_log (Log Exception "Failed to make details query: %r"
                          [VStr (url w)]) sh)
| SocketTimeout =>
    (w, add_log (Log Error "Aladin timed out. Try again later." []) sh)
| Failure | ReadError =>
    (w, add_log (Log Exception "Failed to make details query: %r"
                     [VStr (url w)]) sh)
| Body raw =>
    let raw := euc_kr_decode H (Py.strip_bytes raw) in
    if Py.contains (u "HTTP 404.") raw
    then (w, add_log (Log Error "URL malformed: %r" [VStr (url w)]) sh)
    else
      match fromstring H (clean_ascii_chars H raw) with
      | None =>
          (w, add_log (Log Exception "Failed to parse Aladin details page: %r"
                           [VStr (url w)]) sh)
      | Some root => parse_details root w sh
      end
end.

(** [run]: [get_details] handles every exception of its own, and the
  surrounding [try] has nothing left to catch. *)
Definition run (w : t) (sh : Shared float) : t * Shared float :=
get_details w sh.

End Methods.
End Worker.

(** ** Threads and the clock *)

Module Threads.
Section Threads.

Context {float : Type}.
Variable H : Host float.
Variable W : World.

(** What the thread that called the plugin does, in order. *)
Inductive event :=
| ERequest (who : requester) (url : ustr) (timeout : nat)
| EPrint (what : string) (arg : pyval)
| EAbortIsSet (b : bool)
| EStart (w : Worker.t)
| ESleep (ms : nat)
| EJoin (ident : nat) (ms : nat)
| EIsAlive (ident : nat) (b : bool).

(** A started worker thread and the moment its [run] ends. *)
Record thread := { th_worker : Worker.t; th_finish : nat }.

(** The state of one call of the plugin: the clock, the shared objects,
  the worker threads that are still running, by finishing time, and
  what the calling thread has done so far. *)
Record Sys := {
now : nat;
shared : Shared float;
pending : list thread;
trace : list event
}.

(** The state at the moment [t0] the host calls the plugin. *)
Definition boot (t0 : nat) (sh : Shared float) : Sys :=
{| now := t0; shared := sh; pending := []; trace := [] |}.

Definition emit (e : event) (s : Sys) : Sys :=
{| now := now s; shared := shared s; pending := pending s;
   trace := trace s ++ [e] |}.

(** [log.info], [log.error], [log.exception] and [log] itself. *)
Definition tell (e : log_entry) (s : Sys) : Sys :=
{| now := now s; shared := add_log e (shared s); pending := pending s;
   trace := trace s |}.

(** A thread joins the running ones behind those that end no later. *)
Fixpoint enroll (th : thread) (l : list thread) : list thread :=
match l with
| [] => [th]
| x :: l' =>
    if th_finish th <? th_finish x then th :: l
    else x :: enroll th l'
end.

(** The threads that have ended by [t] run to completion on the shared
  objects, in the order they end.  A run is taken as one step, so that
  the log entries of two workers are not interleaved; a run writes to
  the queue once at most, and once at most to the cache. *)
Fixpoint settle (t : nat) (l : list thread) (sh : Shared float)
: list thread * Shared float :=
match l with
| [] => ([], sh)
| x :: l' =>
    if th_finish x <=? t
    then settle t l' (Worker.run H W (th_worker x) sh).2
    else let '(l'', sh') := settle t l' sh in (x :: l'', sh')
end.

(** The clock moves to [t]. *)
Definition advance (t : nat) (s : Sys) : Sys :=
let '(l, sh) := settle t (pending s) (shared s) in
{| now := t; shared := sh; pending := l; trace := trace s |}.

(** [abort.is_set()] *)
Definition abort_now (s : Sys) : bool :=
match abort_at W with
| Some t => t <=? now s
| None => false
end.

Definition abort_is_set (s : Sys) : bool * Sys :=
(abort_now s, emit (EAbortIsSet (abort_now s)) s).

(** The request a worker sends when it starts to run. *)
Definition request_of (w : Worker.t) : requester * ustr * nat :=
(Thread (Worker.ident w), Worker.url w, Worker.timeout w).

(** [w.start()] *)
Definition start (w : Worker.t) (s : Sys) : Sys :=
let '(who, url, timeout) := request_of w in
let th := {| th_worker := w; th_finish := now s + latency W who url |} in
let s := emit (ERequest who url timeout) (emit (EStart w) s) in
advance (now s)
  {| now := now s; shared := shared s; pending := enroll th (pending s);
     trace := trace s |}.

(** [time.sleep(ms / 1000)] *)
Definition sleep (ms : nat) (s : Sys) : Sys :=
advance (now s + ms) (emit (ESleep ms) s).

Definition finish_of (i : nat) (l : list thread) : option nat :=
th_finish <$> List.find (fun th => Worker.ident (th_worker th) =? i) l.

Definition alive_now (i : nat) (s : Sys) : bool :=
bool_decide (is_Some (finish_of i (pending s))).

(** [w.is_alive()] *)
Definition is_alive (w : Worker.t) (s : Sys) : bool * Sys :=
let b := alive_now (Worker.ident w) s in
(b, emit (EIsAlive (Worker.ident w) b) s).

(** [w.join(ms / 1000)]: wait until the thread ends, [ms] at most. *)
Definition join (w : Worker.t) (ms : nat) (s : Sys) : Sys :=
let s := emit (EJoin (Worker.ident w) ms) s in
match finish_of (Worker.ident w) (pending s) with
| Some f => advance (Nat.min f (now s + ms)) s
| None => s
end.

(** *** Reading a state and a trace *)

(** No running thread is past its end. *)
Definition settled (s : Sys) : Prop :=
Forall (fun th => now s < th_finish th) (pending s).

(** The workers started, in order. *)
Definition starts (evs : list event) : list Worker.t :=
omap (fun e => match e with EStart w => Some w | _ => None end) evs.

(** The requests sent, in order. *)
Definition requests (evs : list event) : list (requester * ustr * nat) :=
omap (fun e => match e with
               | ERequest who url timeout => Some (who, url, timeout)
               | _ => None
               end) evs.

(** The joins, in order: the thread joined and the time allowed. *)
Definition joins (evs : list event) : list (nat * nat) :=
omap (fun e => match e with EJoin i ms => Some (i, ms) | _ => None end) evs.

(** The answers [abort.is_set()] gave, in order. *)
Definition polls (evs : list event) : list bool :=
omap (fun e => match e with EAbortIsSet b => Some b | _ => None end) evs.

(** Once [abort] has been seen set, the calling thread does nothing but
  see it set again. *)
Definition quiet_after_abort (evs : list event) : Prop :=
forall pre post,
  evs = pre ++ EAbortIsSet true :: post ->
  Forall (fun e => e = EAbortIsSet true) post.

(** *** How the shared objects change *)

(** The cache has gained only URLs that do not end in [noimg_b.gif]. *)
Definition cache_gain_ok (sh sh' : Shared float) : Prop :=
forall k v,
  cache sh' !! k = Some v ->
  cache sh !! k = Some v \/ Py.endswith v (u "noimg_b.gif") = false.

(** The record [mi] is what one of the workers [P] puts on the queue. *)
Definition produced (P : Worker.t -> Prop) (mi : Metadata float) : Prop :=
exists w sh0,
  P w /\ queue (Worker.run H W w sh0).2 = queue sh0 ++ [mi].

(** The queue has gained only records of the workers [P]. *)
Definition queue_gain_ok (P : Worker.t -> Prop) (sh sh' : Shared float)
: Prop :=
exists l, queue sh' = queue sh ++ l /\ Forall (produced P) l.

Definition evolves (P : Worker.t -> Prop) (sh sh' : Shared float) : Prop :=
cache_gain_ok sh sh' /\ queue_gain_ok P sh sh'.

(** Every running thread is one of the workers [P]. *)
Definition runs_only (P : Worker.t -> Prop) (s : Sys) : Prop :=
Forall (fun th => P (th_worker th)) (pending s).

End Threads.
End Threads.

(** ** [__init__.py]: class [Aladin] *)

Module Aladin.
Section Methods.

Import Threads.

Context {float : Type}.
Variable H : Host float.
Variable W : World.

Abbreviation Sys := (@Sys float).

Definition BASE_URL : ustr := u "http://www.aladin.co.kr".
Definition BROWSE_URL : ustr := u "http://www.aladin.co.kr/shop/wproduct.aspx".
Definition SEARCH_URL : ustr :=
u "http://www.aladin.co.kr/search/wsearchresult.aspx?SearchTarget=Book".

Definition capabilities : gset string := {[ "identify"; "cover" ]}%string.
Definition touched_fields : gset string :=
{[ "title"; "authors"; "identifier:isbn"; "publisher"; "pubdate";
   "series"; "comments"; "language" ]}%string.

(** ["%s?ISBN=%s" % (Aladin.BROWSE_URL, isbn)] *)
Definition isbn_url (isbn : ustr) : ustr := BROWSE_URL ++ u "?ISBN=" ++ isbn.

Definition get_book_url (identifiers : gmap string ustr)
: option (ustr * ustr * ustr) :=
let isbn := identifiers !! "isbn"%string in
if Py.truthy_opt isbn
then Some (u "aladin", default [] isbn, isbn_url (default [] isbn))
else None.

(** [[quote(t.encode('euc-kr')) for t in tokens]] *)
Fixpoint quoted (tokens : list ustr) : res (list ustr) :=
match tokens with
| [] => Ret []
| t :: tokens' =>
    match euc_kr_encode H t with
    | None => Raise UnicodeEncodeError
    | Some b => l <- quoted tokens';; Ret (Py.quote b :: l)
    end
end.

Definition _create_query (title : option ustr) (authors : option (list ustr))
(identifiers : gmap string ustr) : res (option ustr) :=
match check_isbn H (identifiers !! "isbn"%string) with
| Some isbn => Ret (Some (isbn_url isbn))
| None =>
    tokens <- (if Py.truthy_opt title
               then quoted (Py.split (u " ") (default [] title))
               else Ret []);;
    tokens <- (match authors with
               | Some (a0 :: _) =>
                   l <- quoted (Py.split (u " ") a0);; Ret (tokens ++ l)
               | _ => Ret tokens
               end);;
    if length tokens =? 0 then Ret None
    else Ret (Some (SEARCH_URL ++ u "&SearchWord=" ++ Py.join (u "+") tokens))
end.

(** [item.xpath('.//a[@class="bo3"]/@href')] *)
Definition result_url (item : node) : list ustr :=
omap (XPath.attr "href")
     (XPath.select_below "a" (XPath.attr_is "class" "bo3") item).

Definition _parse_search_results (root : node) (matches : list ustr)
: list ustr :=
fold_left (fun matches item =>
             match result_url item with
             | r0 :: _ => matches ++ [r0]
             | [] => matches
             end)
          (XPath.select "div" (XPath.attr_is "class" "ss_book_box") root)
          matches.

Definition get_cached_cover_url (identifiers : gmap string ustr)
(sh : Shared float) : option ustr :=
let isbn := identifiers !! "isbn"%string in
if Py.truthy_opt isbn then cache sh !! isbn else None.

(** *** [identify] *)

(** [[Worker(url, result_queue, br, log, i, self) for i, url in
  enumerate(matches)]]; worker [i] is thread [i]. *)
Definition workers_for (matches : list ustr) : list Worker.t :=
imap (fun i url => Worker.init i url i) matches.

(** [for w in workers: w.start(); time.sleep(0.1)] *)
Definition start_all (workers : list Worker.t) (s : Sys) : Sys :=
fold_left (fun s w => sleep H W 100 (start H W w s)) workers s.

(** One pass of the [for] loop that joins the workers; the result says
  whether a worker was seen alive. *)
Fixpoint join_pass (workers : list Worker.t) (a_worker_is_alive : bool)
(s : Sys) : bool * Sys :=
match workers with
| [] => (a_worker_is_alive, s)
| w :: workers' =>
    let s := join H W w 200 s in
    let '(ab, s) := abort_is_set W s in
    if ab then (a_worker_is_alive, s)
    else
      let '(al, s) := is_alive w s in
      join_pass workers' (a_worker_is_alive || al) s
end.

(** The [while not abort.is_set()] loop, for at most [fuel] passes. *)
Fixpoint join_loop (fuel : nat) (workers : list Worker.t) (s : Sys)
: option Sys :=
match fuel with
| O => None
| S fuel' =>
    let '(ab, s) := abort_is_set W s in
    if ab then Some s
    else
      let '(a_worker_is_alive, s) := join_pass workers false s in
      if negb a_worker_is_alive then Some s
      else join_loop fuel' workers s
end.

(** The last moment at which a running thread ends. *)
Definition horizon (s : Sys) : nat :=
foldr (fun th m => Nat.max (th_finish th) m) 0 (pending s).

(** Lines 96 to 118: the workers are created, started and joined.
  Every pass of the loop that does not leave it lasts 200 ms at least,
  so that [horizon s - now s] passes and one more are enough. *)
Definition run_workers (matches : list ustr) (s : Sys) : option Sys :=
let s := tell (Log Info "  Matches are: " [VList matches]) s in
let s := emit (EPrint "  Matches are: " (VList matches)) s in
let workers := workers_for matches in
let s := start_all workers s in
join_loop (S (horizon s - now s)) workers s.

(** Lines 93 to 118: what [identify] does once the matches are known. *)
Definition dispatch (matches : list ustr) (s : Sys)
: option (res (option ustr) * Sys) :=
let '(ab, s) := abort_is_set W s in
if ab then Some (Ret None, s)
else s' ← run_workers matches s; Some (Ret None, s').

(** [br.open_novisit(url, timeout=timeout).read()] by the calling
  thread. *)
Definition fetch (url : ustr) (timeout : nat) (s : Sys) : response * Sys :=
let s := emit (ERequest Caller url timeout) s in
(respond W Caller url timeout, advance H W (now s + latency W Caller url) s).

(** The result is [None] only if the join loop outlasts its bound, which
  it never does (see [identify_returns]); otherwise it is the value
  returned or the exception raised, and the state reached. *)
Definition identify (title : option ustr) (authors : option (list ustr))
(identifiers : gmap string ustr) (timeout : nat) (s : Sys)
: option (res (option ustr) * Sys) :=
let matches := [] in
let isbn := identifiers !! "isbn"%string in
if Py.truthy_opt isbn
then dispatch (matches ++ [isbn_url (default [] isbn)]) s
else
  match _create_query title authors identifiers with
  | Raise e => Some (Raise e, s)
  | Ret None =>
      Some (Ret None,
            tell (Log Error "Insufficient metadata to construct query" []) s)
  | Ret (Some query) =>
      let s := tell (Log Info "Querying: %s" [VStr query]) s in
      let s := emit (EPrint "Querying " (VStr query)) s in
      let '(r, s) := fetch query timeout s in
      match r with
      | Body raw =>
          let raw := euc_kr_decode H (Py.strip_bytes raw) in
          if negb (Py.truthy raw)
          then Some (Ret None,
                     tell (Log Error "Failed to get raw result for query" []) s)
          else
            match fromstring H (clean_ascii_chars H raw) with
            | None =>
                Some (Ret (Some (u "Failed to parse Aladin page for query")),
                      tell (Log Exception
                              "Failed to parse Aladin page for query" []) s)
            | Some root =>
                dispatch (_parse_search_results root matches) s
            end
      | ReadError =>
          Some (Ret (Some (u "Failed to parse Aladin page for query")),
                tell (Log Exception
                        "Failed to parse Aladin page for query" []) s)
      | e =>
          Some (Ret (Some (as_unicode H e)),
                tell (Log Exception "Failed to make identify query" []) s)
      end
  end.

(** *** [download_cover] *)

(** [results.sort(key=...)]: the sort of Python is stable. *)
Fixpoint insert_by {A} (key : A -> Z) (x : A) (l : list A) : list A :=
match l with
| [] => [x]
| y :: l' =>
    if (key y <? key x)%Z then y :: insert_by key x l' else x :: l
end.

Definition sort_by {A} (key : A -> Z) (l : list A) : list A :=
foldr (insert_by key) [] l.

(** The [for mi in results] loop; [cached_url] is the variable it
  assigns. *)
Fixpoint scan_results (results : list (Metadata float))
(cached_url : option ustr) (sh : Shared float) : option ustr :=
match results with
| [] => cached_url
| mi :: results' =>
    let cached_url := get_cached_cover_url (mi_identifiers mi) sh in
    match cached_url with
    | Some _ => cached_url
    | None => scan_results results' cached_url sh
    end
end.

(** [rq = Queue()], and the queue emptied by the [get_nowait] loop. *)
Definition with_queue (q : list (Metadata float)) (s : Sys) : Sys :=
{| now := now s;
   shared := {| cache := cache (shared s); queue := q;
                log := log (shared s) |};
   pending := pending s; trace := trace s |}.

(** How the first half of [download_cover] ends: with a value for
  [cached_url], or by leaving the method. *)
Inductive lookup :=
| Url (cached_url : option ustr)
| Leave (r : res unit).

(** Lines 146 to 165. *)
Definition find_cover (title : option ustr) (authors : option (list ustr))
(identifiers : gmap string ustr) (s : Sys) : option (lookup * Sys) :=
match get_cached_cover_url identifiers (shared s) with
| Some cached_url => Some (Url (Some cached_url), s)
| None =>
    let s := tell (Log Info "No cached cover found, running identify" []) s in
    let s := with_queue [] s in
    '(r, s) ← identify title authors identifiers 30 s;
    match r with
    | Raise e => Some (Leave (Raise e), s)
    | Ret _ =>
        let '(ab, s) := abort_is_set W s in
        if ab then Some (Leave (Ret ()), s)
        else
          let results := queue (shared s) in
          let s := with_queue [] s in
          let results :=
            sort_by (identify_results_keygen H title authors identifiers)
                    results in
          Some (Url (scan_results results None (shared s)), s)
    end
end.

(** The result is the value returned or the exception raised, the
  contents of [result_queue] (of which the plugin itself, the first
  component of every pair put there, is left out) and the state
  reached. *)
Definition download_cover (title : option ustr) (authors : option (list ustr))
(identifiers : gmap string ustr) (timeout : nat)
(result_queue : list bytes) (s : Sys)
: option (res unit * list bytes * Sys) :=
'(found, s) ← find_cover title authors identifiers s;
match found with
| Leave r => Some (r, result_queue, s)
| Url None =>
    Some (Ret (), result_queue, tell (Log Info "No cover found" []) s)
| Url (Some cached_url) =>
    let '(ab, s) := abort_is_set W s in
    if ab then Some (Ret (), result_queue, s)
    else
      let s := tell (Log Plain "Downloading cover from:" [VStr cached_url]) s in
      let '(r, s) := fetch cached_url timeout s in
      match r with
      | Body cdata => Some (Ret (), result_queue ++ [cdata], s)
      | _ =>
          Some (Ret (), result_queue,
                tell (Log Exception "Failed to download cover from:"
                          [VStr cached_url]) s)
      end
end.

End Methods.
End Aladin.

(** ** Vocabulary of the properties *)

Section Vocabulary.

Import Threads.
Context {float : Type}.
Variable H : Host float.
Variable W : World.

(** The anchors of class [bo3] below [box], in document order. *)
Definition bo3_anchors (box : node) : list node :=
  filter (fun a => XPath.is_tag "a" a && XPath.attr_is "class" "bo3" a = true)
         (drop 1 (XPath.document_order box)).

(** The result boxes of a page, in document order. *)
Definition book_boxes (root : node) : list node :=
  filter (fun d => XPath.is_tag "div" d
                   && XPath.attr_is "class" "ss_book_box" d = true)
         (XPath.document_order root).

(** What [parse_cover] finds on a page: the cover URL, [None] for the
    placeholder image, or an exception when the page has no [og:image]. *)
Definition page_cover (root : node) : res (option ustr) :=
  og <- first (XPath.meta_content "property" "og:image" root);;
  let page_url :=
    match XPath.preview_srcs root with
    | u0 :: _ => Py.replace (u "_fs.") (u "_f.") u0
    | [] => og
    end in
  if Worker._is_valid_image page_url then Ret (Some page_url) else Ret None.

(** The isbn a record ends up with: the one of the page's [og:url] when
    [parse_isbn] gives a non-empty one, the one of the detail-page URL
    otherwise. *)
Definition final_isbn (root : node) (url_isbn : ustr) : ustr :=
  match Worker.parse_isbn root with
  | Ret (Some (c :: i)) => c :: i
  | _ => url_isbn
  end.

(** The record [parse_details] builds, before the host cleans it. *)
Definition built_record (root : node) (w : Worker.t)
  (url_isbn title : ustr) (series : option ustr)
  (series_index : option float) (authors : list ustr) : Metadata float :=
  let cover := match page_cover root with
               | Ret c => c
               | Raise _ => Worker.cover_url w
               end in
  {| mi_title := title;
     mi_authors := authors;
     mi_series := if Py.truthy_opt series then series else None;
     mi_series_index := if Py.truthy_opt series then series_index else None;
     mi_isbn := Some (final_isbn root url_isbn);
     mi_comments := match Worker.parse_comments root with
                    | Ret c => Some c
                    | Raise _ => None
                    end;
     mi_has_cover := Py.truthy_opt cover;
     mi_cover_url := cover;
     mi_publisher := match Worker.parse_publisher root with
                     | Ret p => p
                     | Raise _ => None
                     end;
     mi_pubdate := match Worker.parse_published_date root with
                   | Ret d => d
                   | Raise _ => None
                   end;
     mi_language := Some (u "ko");
     mi_source_relevance :=
       Worker.relevance w + match page_cover root with
                            | Ret (Some _) => 5
                            | _ => 0
                            end |}.

(** The cache after [parse_details] has built a record. *)
Definition cache_after (root : node) (url_isbn : ustr)
  (c : gmap (option ustr) ustr) : gmap (option ustr) ustr :=
  match page_cover root with
  | Ret (Some page_url) => <[Some (final_isbn root url_isbn) := page_url]> c
  | _ => c
  end.

(** The page has what a record needs. *)
Definition found (root : node) (url : ustr) : Prop :=
  exists url_isbn title series series_index authors,
    Worker.extract_isbn url = Ret url_isbn
    /\ Worker.parse_title_series H root = Ret (Some title, series, series_index)
    /\ title <> []
    /\ Worker.parse_authors root = Ret authors
    /\ authors <> [].


(** The cache entry for the isbn of [identifiers], if the identifiers
    have a non-empty isbn and the cache an entry for it. *)
Definition cached_cover (identifiers : gmap string ustr)
  (sh : Shared float) : option ustr :=
  match identifiers !! "isbn"%string with
  | Some (c :: isbn) => cache sh !! Some (c :: isbn)
  | _ => None
  end.

(** The page a worker gets to parse, if it gets one. *)
Definition page_of (w : Worker.t) : option node :=
  match respond W (Thread (Worker.ident w)) (Worker.url w) (Worker.timeout w) with
  | Body raw =>
      let raw := euc_kr_decode H (Py.strip_bytes raw) in
      if Py.contains (u "HTTP 404.") raw then None
      else fromstring H (clean_ascii_chars H raw)
  | _ => None
  end.


(** What starting the workers [ws] adds to the trace. *)
Definition start_events (ws : list Worker.t) : list event :=
  flat_map (fun w => [EStart w;
                      ERequest (Thread (Worker.ident w)) (Worker.url w)
                               (Worker.timeout w);
                      ESleep 100]) ws.

(** The tokens of a query: those of the title, then those of the first
    author. *)
Definition query_tokens (title : option ustr) (authors : option (list ustr))
  : list ustr :=
  (if Py.truthy_opt title then Py.split (u " ") (default [] title) else [])
  ++ match authors with
     | Some (a0 :: _) => Py.split (u " ") a0
     | _ => []
     end.

(** Every record on the queue beyond the first [n] and every running
    thread is accounted for by a worker that was started. *)
Definition accounted (n : nat) (s : @Sys float) : Prop :=
  length (queue (shared s)) + length (pending s)
  <= n + length (starts (trace s)).

(** The moments at which the workers for [matches] end when the first
    of them is started at [t0]: one is started every 100 ms. *)
Definition ends (t0 : nat) (matches : list ustr) : list nat :=
  imap (fun i url => t0 + 100 * i + latency W (Thread i) url) matches.

(** At [s], the clock and the end of every running thread are at [m] at
    most. *)
Definition within (m : nat) (s : @Sys float) : Prop :=
  now s <= m /\ Forall (fun th => th_finish th <= m) (pending s).

(** The worker [w], which ends at [f], is the only one: either it is
    running and the queue and the cache are those of [sh0], or no
    thread is running and they are as one run of [w] on [sh0] leaves
    them. *)
Definition one_worker (w : Worker.t) (f : nat) (sh0 : Shared float)
  (s : @Sys float) : Prop :=
  (pending s = [{| th_worker := w; th_finish := f |}]
   /\ queue (shared s) = queue sh0 /\ cache (shared s) = cache sh0)
  \/ (pending s = []
      /\ queue (shared s) = queue (Worker.run H W w sh0).2
      /\ cache (shared s) = cache (Worker.run H W w sh0).2).

(** The characters of a query: those that [quote] leaves as they are,
    and [%], [&], [+], [:], [=] and [?]. *)
Definition url_char (c : N) : bool :=
  Py.quote_safe c
  || bool_decide (c ∈ [37; 38; 43; 58; 61; 63]%N).

(** A text with no white space at either end. *)
Definition trimmed (t : ustr) : Prop :=
  (forall c, head t = Some c -> Py.isspace c = false)
  /\ (forall c, last t = Some c -> Py.isspace c = false).

End Vocabulary.

(** ** A sample site, for running the model *)

Module Sample.

Definition E (t : string) (a : list (string * string)) (tx : option string)
  (kids : list node) (tl : option string) : node :=
  Node (u t) ((fun kv : string * string => (u kv.1, u kv.2)) <$> a)
       (u <$> tx) kids (u <$> tl).

(** A detail page whose [og:url] has the content [og_url]. *)
Definition detail_page (og_url : string) : node :=
  E "html" [] None [
    E "head" [] None [
      E "meta" [("property", "og:url"); ("content", og_url)] None [] None;
      E "meta" [("property", "og:image");
                ("content", "http://image.aladin.co.kr/cover/8983920688_1.jpg")]
        None [] None;
      E "meta" [("name", "Description"); ("content", "A boy wizard.")]
        None [] None
    ] None;
    E "body" [] None [
      E "table" [] None [
        E "tr" [] None [
          E "td" [("class", "pwrap_bgtit")] None [
            E "a" [("class", "p_topt01")] (Some " Harry Potter 1 ") [] None;
            E "a" [("href", "/shop/wbrowse.aspx?SRID=12")] (Some "Harry Potter") []
              None;
            E "a" [("class", "np_af"); ("href", "/Search/wSearchResult.aspx?AuthorSearch=Rowling")]
              (Some "J. K. Rowling") [] (Some " | ");
            E "a" [("class", "np_af"); ("href", "/search/wsearchresult.aspx?PublisherSearch=Moonhak")]
              (Some "Moonhak") [] (Some " | 1999-11-19")
          ] None
        ] None
      ] None;
      E "div" [("class", "p_previewbox")] None [
        E "a" [] None [
          E "img" [("src", "http://image.aladin.co.kr/product/21/6/letslook/8983920688_fs.jpg")]
            None [] None
        ] None
      ] None
    ] None
  ] None.

(** A results listing with two result boxes, one of them with a link. *)
Definition listing : node :=
  E "html" [] None [
    E "body" [] None [
      E "div" [("class", "ss_book_box")] None [
        E "a" [("class", "bo3");
               ("href", "http://www.aladin.co.kr/shop/wproduct.aspx?ISBN=8983920688")]
          (Some "Harry Potter 1") [] None
      ] None;
      E "div" [("class", "ss_book_box")] None [
        E "a" [("class", "bo4"); ("href", "http://www.aladin.co.kr/elsewhere")]
          (Some "more") [] None
      ] None
    ] None
  ] None.

(** The sample host parses the text [listing] to the results listing and
    the text [detail] to the detail page whose [og:url] is [og_url]; its
    codec handles ASCII only; its floats are the integers written in
    decimal; it leaves records as they are and ranks them by source
    relevance. *)
Definition host (og_url : string) : Host Z := {|
  py_float := fun s =>
    if forallb Py.isdigit s && Py.truthy s
    then Some (Z.of_N (Py.int_of_digits s)) else None;
  euc_kr_encode := fun s => if forallb (fun c => c <? 128)%N s then Some s else None;
  euc_kr_decode := fun b => b;
  check_isbn := fun o =>
    match o with
    | Some i => if forallb Py.isdigit i && Py.truthy i then Some i else None
    | None => None
    end;
  clean_ascii_chars := fun s => s;
  fromstring := fun s =>
    if bool_decide (s = u "listing") then Some listing
    else if bool_decide (s = u "detail") then Some (detail_page og_url)
    else None;
  clean_downloaded_metadata := fun mi => mi;
  identify_results_keygen := fun _ _ _ mi => Z.of_nat (mi_source_relevance mi);
  as_unicode := fun _ => u "error"
|}.

(** The sample site answers a search with the listing, a request for a
    product with the detail page, and any other request with three
    bytes; every answer takes 350 ms, and the host sets [abort] at
    [abort_at], if at all. *)
Definition world (abort_at : option nat) : World := {|
  respond := fun who url timeout =>
    if Py.contains (u "wsearchresult") url then Body (u " listing ")
    else if Py.contains (u "wproduct") url then Body (u "detail ")
    else Body [255; 216; 255]%N;
  latency := fun who url => 350;
  abort_at := abort_at
|}.

Definition product_url : ustr :=
  u "http://www.aladin.co.kr/shop/wproduct.aspx?ISBN=8983920688".

Definition nothing : Shared Z := {| cache := ∅; queue := []; log := [] |}.

(** The [og:url] of the product page, and one that names no isbn. *)
Definition og_isbn13 : string :=
  "http://www.aladin.co.kr/shop/wproduct.aspx?ISBN=9788983920683".

Definition identifiers : gmap string ustr :=
  {[ "isbn"%string := u "8983920688" ]}.


(** The first worker of a call, for the product page. *)
Definition worker : Worker.t := Worker.init 0 product_url 0.

(** What that worker puts on an empty queue. *)
Definition records (og_url : string) : list (Metadata Z) :=
  queue (Worker.run (host og_url) (world None) worker nothing).2.

End Sample.

(** * Properties *)

(** ** Document order *)

Lemma node_tree_ind (P : node -> Prop) :
  (forall t a tx kids tl, Forall P kids -> P (Node t a tx kids tl)) ->
  forall n, P n.
Proof.
  intros step. fix IH 1. intros [t a tx kids tl]. apply step.
  induction kids as [|k kids IHk]; constructor; [apply IH | exact IHk].
Qed.

Lemma omap_text_item c t : omap XPath.elem_of_item (XPath.text_item c t) = [].
Proof. destruct t as [[|ch s]|]; reflexivity. Qed.

Lemma elements_walk_kids (f : XPath.ctx -> node -> list XPath.item) up kids :
  Forall (fun k => forall c, (omap XPath.elem_of_item (f c k)).*2
                             = XPath.document_order k) kids ->
  forall prev,
    (omap XPath.elem_of_item (XPath.walk_kids f up prev kids)).*2
    = flat_map XPath.document_order kids.
Proof.
  induction 1 as [|k kids Hk _ IHkids]; intros prev; [reflexivity|].
  cbn [XPath.walk_kids flat_map].
  rewrite !omap_app, omap_text_item, app_nil_l, fmap_app, Hk.
  f_equal. apply IHkids.
Qed.

Lemma elements_walk n :
  forall c, (omap XPath.elem_of_item (XPath.walk c n)).*2 = XPath.document_order n.
Proof.
  induction n as [t a tx kids tl IH] using node_tree_ind. intros c.
  cbn [XPath.walk XPath.document_order].
  change (omap XPath.elem_of_item (XPath.IElem c (Node t a tx kids tl) :: ?l))
    with ((c, Node t a tx kids tl) :: omap XPath.elem_of_item l).
  rewrite fmap_cons. cbn [snd]. f_equal.
  rewrite omap_app, omap_text_item, app_nil_l.
  by apply elements_walk_kids.
Qed.

Lemma fmap_snd_filter {A B} (p : B -> bool) (l : list (A * B)) :
  (filter (fun ab => p ab.2 = true) l).*2 = filter (fun b => p b = true) (l.*2).
Proof.
  induction l as [|[a b] l IH]; [reflexivity|].
  rewrite fmap_cons, !filter_cons. cbn [snd].
  destruct (decide (p b = true)); [rewrite fmap_cons|]; by rewrite IH.
Qed.

Lemma select_document_order t p root :
  XPath.select t p root
  = filter (fun n => XPath.is_tag t n && p n = true) (XPath.document_order root).
Proof.
  unfold XPath.select, XPath.elements.
  rewrite <- (elements_walk root XPath.top).
  apply (fmap_snd_filter (fun n => XPath.is_tag t n && p n)).
Qed.

Lemma select_below_document_order t p n :
  XPath.select_below t p n
  = filter (fun n => XPath.is_tag t n && p n = true)
           (drop 1 (XPath.document_order n)).
Proof.
  unfold XPath.select_below, XPath.descendants, XPath.elements.
  rewrite <- (elements_walk n XPath.top), <- fmap_drop.
  apply (fmap_snd_filter (fun n => XPath.is_tag t n && p n)).
Qed.

(** ** Search results *)

Section SearchResults.

Lemma fold_matches (boxes : list node) : forall matches,
  fold_left (fun matches item =>
               match Aladin.result_url item with
               | r0 :: _ => matches ++ [r0]
               | [] => matches
               end) boxes matches
  = matches ++ flat_map (fun box => take 1 (Aladin.result_url box)) boxes.
Proof.
  induction boxes as [|b boxes IH]; intros matches; cbn [fold_left flat_map].
  - by rewrite app_nil_r.
  - rewrite IH. destruct (Aladin.result_url b) as [|r0 rs]; cbn [take].
    + by rewrite app_nil_l.
    + by rewrite <- app_assoc.
Qed.

(** C4: the hrefs appended to the match list are, in document order of
    the [div]s of class [ss_book_box], the first href among the anchors
    of class [bo3] below each of them; a box without such an href adds
    nothing, and nothing else on the page adds a match. *)
Theorem parse_search_results_spec (root : node) (matches : list ustr) :
  Aladin._parse_search_results root matches
  = matches ++
    flat_map (fun box => take 1 (omap (XPath.attr "href") (bo3_anchors box)))
             (book_boxes root)
  /\ (forall box, bo3_anchors box = [] ->
                  take 1 (omap (XPath.attr "href") (bo3_anchors box)) = [])
  /\ (forall href,
        href ∈ drop (length matches) (Aladin._parse_search_results root matches) ->
        exists box a,
          box ∈ XPath.document_order root
          /\ XPath.is_tag "div" box = true
          /\ XPath.attr_is "class" "ss_book_box" box = true
          /\ a ∈ drop 1 (XPath.document_order box)
          /\ XPath.is_tag "a" a = true
          /\ XPath.attr_is "class" "bo3" a = true
          /\ XPath.attr "href" a = Some href).
Proof.
  assert (Aladin._parse_search_results root matches
          = matches ++
            flat_map (fun box => take 1 (omap (XPath.attr "href") (bo3_anchors box)))
                     (book_boxes root)) as Heq.
  { unfold Aladin._parse_search_results. rewrite fold_matches.
    rewrite select_document_order. f_equal.
    apply flat_map_ext. intros box. unfold Aladin.result_url.
    by rewrite select_below_document_order. }
  split; [exact Heq|]. split.
  - intros box ->. reflexivity.
  - intros href. rewrite Heq, drop_app_length.
    rewrite list_elem_of_In, in_flat_map.
    intros (box & Hbox & Hhref).
    apply list_elem_of_In in Hbox, Hhref.
    apply list_elem_of_filter in Hbox as [Hp Hbox].
    apply andb_prop in Hp as [Hdiv Hcls].
    apply (subseteq_take 1) in Hhref.
    apply list_elem_of_omap in Hhref as (a & Ha & Hattr).
    apply list_elem_of_filter in Ha as [Hq Ha].
    apply andb_prop in Hq as [Htag Hbo3].
    exists box, a. done.
Qed.

End SearchResults.

(** ** One worker *)

Section WorkerProps.

Context {float : Type}.
Variable H : Host float.
Variable W : World.

Lemma parse_cover_spec root (w : Worker.t) (sh : Shared float) :
  Worker.parse_cover root w sh
  = match page_cover root with
    | Raise e => (Raise e, w, sh)
    | Ret None => (Ret None, w, add_log (Log Info "Aborting parse_cover" []) sh)
    | Ret (Some page_url) =>
        (Ret (Some page_url),
         Worker.set_relevance (Worker.relevance w + 5) w,
         cache_identifier_to_cover_url (Worker.isbn w) page_url sh)
    end.
Proof.
  unfold Worker.parse_cover, page_cover.
  destruct (first (XPath.meta_content "property" "og:image" root)) as [og|e];
    [|reflexivity].
  cbn [bind].
  by destruct (Worker._is_valid_image _).
Qed.

Lemma page_cover_valid root page_url :
  page_cover root = Ret (Some page_url) ->
  Py.endswith page_url (u "noimg_b.gif") = false.
Proof.
  unfold page_cover.
  destruct (first _) as [og|e]; [|done]. cbn [bind].
  unfold Worker._is_valid_image.
  set (p := match XPath.preview_srcs root with _ :: _ => _ | [] => _ end).
  destruct (Py.endswith p _) eqn:Hend; [done|].
  by intros [= <-].
Qed.

Lemma search_isbn_nonempty url ds : Re.search_isbn url = Some ds -> ds <> [].
Proof.
  induction url as [|c url IH]; cbn [Re.search_isbn].
  - by destruct (Py.startswith [] (u "ISBN=")).
  - destruct (Py.startswith (c :: url) (u "ISBN=")); [|exact IH].
    destruct (Re.digits_prefix (drop 5 (c :: url))) as [|d ds'] eqn:E;
      [exact IH|]. by intros [= <-].
Qed.

Lemma extract_isbn_nonempty url i : Worker.extract_isbn url = Ret i -> i <> [].
Proof.
  unfold Worker.extract_isbn.
  destruct (Re.search_isbn url) eqn:E; [|done].
  intros [= <-]. by eapply search_isbn_nonempty.
Qed.

Lemma truthy_nonempty {A} (l : list A) : Py.truthy l = true <-> l <> [].
Proof. by destruct l. Qed.

(** [parse_details] either finds title, authors and isbn and puts one
    record on the queue, or misses one of them and puts none. *)
Lemma parse_details_found root w sh url_isbn title series series_index authors :
  Worker.extract_isbn (Worker.url w) = Ret url_isbn ->
  Worker.parse_title_series H root = Ret (Some title, series, series_index) ->
  title <> [] ->
  Worker.parse_authors root = Ret authors ->
  authors <> [] ->
  let r := Worker.parse_details H root w sh in
  queue r.2 = queue sh ++
    [clean_downloaded_metadata H
       (built_record root w url_isbn title series series_index authors)]
  /\ cache r.2 = cache_after root url_isbn (cache sh).
Proof.
  intros Hisbn Htitle Ht Hauthors Ha r. subst r.
  pose proof (extract_isbn_nonempty _ _ Hisbn) as Hi.
  unfold Worker.parse_details, built_record, cache_after, final_isbn.
  rewrite Hisbn, Htitle, Hauthors. cbn [bind Worker.attempt].
  destruct title as [|tc title]; [done|].
  destruct authors as [|a0 authors]; [done|].
  destruct url_isbn as [|ic url_isbn]; [done|].
  cbn [Py.truthy_opt Py.truthy negb orb default].
  destruct (Worker.parse_isbn root) as [[[|c i]|]|e];
    destruct (Worker.parse_comments root) as [cm|e1];
    cbn [Py.truthy_opt Py.truthy]; rewrite parse_cover_spec;
    destruct (page_cover root) as [[[|pc pu]|]|e2];
    destruct (Worker.parse_publisher root) as [pb|e3];
    destruct (Worker.parse_published_date root) as [pd|e4];
    destruct series as [[|sc s]|];
    cbn; rewrite ?Nat.add_0_r;
    try destruct (Py.truthy_opt (Worker.cover_url w));
    split; reflexivity.
Qed.

Lemma parse_details_missing root w sh :
  ~ found H root (Worker.url w) ->
  let r := Worker.parse_details H root w sh in
  r.1 = w /\ queue r.2 = queue sh /\ cache r.2 = cache sh.
Proof.
  intros Hnot r. subst r. unfold Worker.parse_details.
  destruct (Worker.extract_isbn (Worker.url w)) as [url_isbn|e] eqn:Hisbn;
    destruct (Worker.parse_title_series H root)
      as [[[[[|tc title]|] series] series_index]|e1] eqn:Htitle;
    destruct (Worker.parse_authors root) as [[|a0 authors]|e2] eqn:Hauthors;
    cbn [bind Worker.attempt Py.truthy_opt Py.truthy negb orb];
    try (repeat split; reflexivity).
  exfalso. apply Hnot.
  exists url_isbn, (tc :: title), series, series_index, (a0 :: authors).
  done.
Qed.

Lemma get_details_spec w sh :
  match page_of H W w with
  | Some root =>
      Worker.get_details H W w sh
      = Worker.parse_details H root w
          (add_log (Log Info "Aladin url: %r" [VStr (Worker.url w)]) sh)
  | None =>
      let r := Worker.get_details H W w sh in
      r.1 = w /\ queue r.2 = queue sh /\ cache r.2 = cache sh
  end.
Proof.
  unfold page_of, Worker.get_details.
  destruct (respond W _ _ _) as [raw|code| | |]; cbn zeta.
  - destruct (Py.contains _ _); [done|].
    by destruct (fromstring H _).
  - by destruct (code =? 404)%Z.
  - done.
  - done.
  - done.
Qed.

Lemma found_dec root url : found H root url \/ ~ found H root url.
Proof.
  unfold found.
  destruct (Worker.extract_isbn url) as [url_isbn|e];
    [|right; by intros (? & ? & ? & ? & ? & ? & _)].
  destruct (Worker.parse_title_series H root)
    as [[[[[|tc title]|] series] series_index]|e1];
    try (right; intros (? & ? & ? & ? & ? & _ & ? & ? & _); congruence).
  destruct (Worker.parse_authors root) as [[|a0 authors]|e2];
    try (right; intros (? & ? & ? & ? & ? & _ & _ & _ & ? & ?); congruence).
  left. by exists url_isbn, (tc :: title), series, series_index, (a0 :: authors).
Qed.

(** A worker either leaves the queue and the cache as they are, or finds
    a page with title, authors and isbn and puts the record built from it
    on the queue. *)
Lemma run_cases w sh :
  let r := Worker.run H W w sh in
  (queue r.2 = queue sh /\ cache r.2 = cache sh
   /\ forall root, page_of H W w = Some root -> ~ found H root (Worker.url w))
  \/ (exists root url_isbn title series series_index authors,
        page_of H W w = Some root
        /\ Worker.extract_isbn (Worker.url w) = Ret url_isbn
        /\ Worker.parse_title_series H root = Ret (Some title, series, series_index)
        /\ title <> []
        /\ Worker.parse_authors root = Ret authors
        /\ authors <> []
        /\ queue r.2 = queue sh ++
             [clean_downloaded_metadata H
                (built_record root w url_isbn title series series_index authors)]
        /\ cache r.2 = cache_after root url_isbn (cache sh)).
Proof.
  intros r. subst r. unfold Worker.run.
  pose proof (get_details_spec w sh) as Hg.
  destruct (page_of H W w) as [root|] eqn:Hpage.
  - rewrite Hg.
    destruct (found_dec root (Worker.url w))
      as [(url_isbn & title & series & series_index & authors
           & Hisbn & Htitle & Ht & Hauthors & Ha)|Hnot].
    + right. exists root, url_isbn, title, series, series_index, authors.
      edestruct (parse_details_found root w) as [Hq Hc]; [done..|].
      rewrite Hq, Hc. done.
    + left.
      destruct (parse_details_missing root w
                  (add_log (Log Info "Aladin url: %r" [VStr (Worker.url w)]) sh)
                  Hnot) as (_ & Hq & Hc).
      rewrite Hq, Hc. split; [done|split; [done|]].
      by intros ? [= <-].
  - left. destruct Hg as (_ & Hq & Hc). done.
Qed.

Lemma run_queue_cases w sh :
  let r := Worker.run H W w sh in
  queue r.2 = queue sh \/ exists mi, queue r.2 = queue sh ++ [mi].
Proof.
  intros r. subst r.
  destruct (run_cases w sh)
    as [(Hq & _)|(? & ? & ? & ? & ? & ? & _ & _ & _ & _ & _ & _ & Hq & _)];
    [by left|right; eauto].
Qed.

Lemma run_cache_gain (w : Worker.t) (sh : Shared float) k v :
  cache (Worker.run H W w sh).2 !! k = Some v ->
  cache sh !! k = Some v \/ Py.endswith v (u "noimg_b.gif") = false.
Proof.
  destruct (run_cases w sh)
    as [(_ & Hc & _)|(root & url_isbn & ? & ? & ? & ?
                      & _ & _ & _ & _ & _ & _ & _ & Hc)];
    rewrite Hc; [auto|].
  unfold cache_after.
  destruct (page_cover root) as [[page_url|]|e] eqn:Hpc; auto.
  destruct (decide (Some (final_isbn root url_isbn) = k)) as [<-|Hne].
  - rewrite lookup_insert_eq. intros [= <-]. right.
    by apply (page_cover_valid root).
  - rewrite lookup_insert_ne by done. auto.
Qed.

Lemma app_singleton_neq {A} (l : list A) x : l ++ [x] <> l.
Proof.
  intros Heq. apply (f_equal length) in Heq.
  rewrite length_app in Heq. cbn in Heq. lia.
Qed.

Lemma parse_cover_result root (w : Worker.t) (sh : Shared float) :
  (Worker.parse_cover root w sh).1.1 = page_cover root.
Proof. rewrite parse_cover_spec. by destruct (page_cover root) as [[?|]|?]. Qed.

(** C2: a worker puts one record on the queue or none; it puts one
    exactly when the fetch gives a body without the text [HTTP 404.],
    the body parses, and title, authors and the isbn of the URL are
    found; after an HTTP error (404 or other), a timeout, any other
    failure of the fetch or of the read, a body with [HTTP 404.], a parse
    failure, or a
    page without title, authors or isbn, the queue is as it was. *)
Theorem worker_puts_at_most_one_record (w : Worker.t) (sh : Shared float) :
  let r := Worker.run H W w sh in
  let answer :=
    respond W (Thread (Worker.ident w)) (Worker.url w) (Worker.timeout w) in
  let decoded raw := euc_kr_decode H (Py.strip_bytes raw) in
  (queue r.2 = queue sh \/ exists mi, queue r.2 = queue sh ++ [mi])
  /\ ((exists mi, queue r.2 = queue sh ++ [mi]) <->
      exists raw root,
        answer = Body raw
        /\ Py.contains (u "HTTP 404.") (decoded raw) = false
        /\ fromstring H (clean_ascii_chars H (decoded raw)) = Some root
        /\ found H root (Worker.url w))
  /\ (forall code, answer = HTTPError code -> queue r.2 = queue sh)
  /\ (answer = SocketTimeout -> queue r.2 = queue sh)
  /\ (answer = Failure -> queue r.2 = queue sh)
  /\ (answer = ReadError -> queue r.2 = queue sh)
  /\ (forall raw, answer = Body raw ->
        Py.contains (u "HTTP 404.") (decoded raw) = true ->
        queue r.2 = queue sh)
  /\ (forall raw, answer = Body raw ->
        fromstring H (clean_ascii_chars H (decoded raw)) = None ->
        queue r.2 = queue sh)
  /\ (forall raw root, answer = Body raw ->
        Py.contains (u "HTTP 404.") (decoded raw) = false ->
        fromstring H (clean_ascii_chars H (decoded raw)) = Some root ->
        ~ found H root (Worker.url w) ->
        queue r.2 = queue sh).
Proof.
  intros r answer decoded.
  assert (forall root, page_of H W w = Some root <->
            exists raw, answer = Body raw
              /\ Py.contains (u "HTTP 404.") (decoded raw) = false
              /\ fromstring H (clean_ascii_chars H (decoded raw)) = Some root)
    as Hpage.
  { intros root. unfold page_of. subst answer.
    destruct (respond W _ _ _) as [raw|code| | |].
    - cbn zeta. fold (decoded raw).
      destruct (Py.contains _ (decoded raw)) eqn:Hc.
      + split; [done|]. intros (raw' & [= <-] & Hc' & _). congruence.
      + split; [by exists raw|]. by intros (raw' & [= <-] & _ & Hf).
    - split; [done|]. by intros (? & ? & _).
    - split; [done|]. by intros (? & ? & _).
    - split; [done|]. by intros (? & ? & _).
    - split; [done|]. by intros (? & ? & _). }
  assert (forall root, page_of H W w = Some root -> ~ found H root (Worker.url w) ->
                       queue r.2 = queue sh) as Hmiss.
  { intros root Hp Hnot.
    destruct (run_cases w sh)
      as [(Hq & _)|(root' & ? & ? & ? & ? & ? & Hp' & Hi & Ht & ? & Ha & ? & _)];
      [exact Hq|].
    exfalso. apply Hnot. rewrite Hp in Hp'. injection Hp' as <-.
    unfold found; eauto 10. }
  assert (page_of H W w = None -> queue r.2 = queue sh) as Hnone.
  { intros Hp.
    destruct (run_cases w sh) as [(Hq & _)|(root' & ? & ? & ? & ? & ? & Hp' & _)];
      [exact Hq|congruence]. }
  split; [|split]; [| |repeat split].
  - destruct (run_cases w sh)
      as [(Hq & _)|(? & ? & ? & ? & ? & ? & _ & _ & _ & _ & _ & _ & Hq & _)];
      [by left|right; eauto].
  - split.
    + intros [mi Hmi].
      destruct (run_cases w sh)
        as [(Hq & _)|(root & ? & ? & ? & ? & ? & Hp & Hi & Ht & ? & Ha & ? & _)].
      * fold r in Hq. rewrite Hq in Hmi. symmetry in Hmi.
        by apply app_singleton_neq in Hmi.
      * apply Hpage in Hp as (raw & ? & ? & ?).
        exists raw, root. unfold found. eauto 15.
    + intros (raw & root & Ha & Hc & Hf & Hfound).
      assert (page_of H W w = Some root) as Hp by (apply Hpage; eauto).
      destruct (run_cases w sh)
        as [(_ & _ & Hnot)|(? & ? & ? & ? & ? & ? & _ & _ & _ & _ & _ & _ & Hq & _)];
        [by destruct (Hnot root Hp)|eauto].
  - intros code Ha. apply Hnone. unfold page_of. fold answer. by rewrite Ha.
  - intros Ha. apply Hnone. unfold page_of. fold answer. by rewrite Ha.
  - intros Ha. apply Hnone. unfold page_of. fold answer. by rewrite Ha.
  - intros Ha. apply Hnone. unfold page_of. fold answer. by rewrite Ha.
  - intros raw Ha Hc. apply Hnone. unfold page_of. fold answer.
    rewrite Ha. cbn zeta. fold (decoded raw). by rewrite Hc.
  - intros raw Ha Hf. apply Hnone. unfold page_of. fold answer.
    rewrite Ha. cbn zeta. fold (decoded raw). rewrite Hf.
    by destruct (Py.contains _ _).
  - intros raw root Ha Hc Hf Hnot. apply (Hmiss root); [|done].
    apply Hpage. eauto.
Qed.






(** What [parse_cover], a worker and [get_cached_cover_url] do with the
    cache. *)
Lemma cover_cache_of_worker :
  (forall root (w : Worker.t) (sh : Shared float) k v,
     cache (Worker.parse_cover root w sh).2 !! k = Some v ->
     cache sh !! k = Some v \/ Py.endswith v (u "noimg_b.gif") = false)
  /\ (forall root (w : Worker.t) (sh : Shared float) og,
        first (XPath.meta_content "property" "og:image" root) = Ret og ->
        Py.endswith
          match XPath.preview_srcs root with
          | u0 :: _ => Py.replace (u "_fs.") (u "_f.") u0
          | [] => og
          end (u "noimg_b.gif") = true ->
        (Worker.parse_cover root w sh).1.1 = Ret None
        /\ cache (Worker.parse_cover root w sh).2 = cache sh)
  /\ (forall (w : Worker.t) (sh : Shared float) k v,
        cache (Worker.run H W w sh).2 !! k = Some v ->
        cache sh !! k = Some v \/ Py.endswith v (u "noimg_b.gif") = false)
  /\ (forall (identifiers : gmap string ustr) (sh : Shared float),
        Py.truthy_opt (identifiers !! "isbn"%string) = false
        \/ cache sh !! (identifiers !! "isbn"%string) = None ->
        Aladin.get_cached_cover_url identifiers sh = None).
Proof.
  split; [|split; [|split]].
  - intros root w sh k v. rewrite parse_cover_spec.
    destruct (page_cover root) as [[page_url|]|e] eqn:Hc; cbn; auto.
    destruct (decide (Worker.isbn w = k)) as [->|Hne].
    + rewrite lookup_insert_eq. intros [= <-]. right.
      by apply (page_cover_valid root).
    + rewrite lookup_insert_ne by done. auto.
  - intros root w sh og Hog Hend. split.
    + rewrite parse_cover_result. unfold page_cover. rewrite Hog. cbn [bind].
      unfold Worker._is_valid_image. by rewrite Hend.
    + rewrite parse_cover_spec. unfold page_cover. rewrite Hog. cbn [bind].
      unfold Worker._is_valid_image. by rewrite Hend.
  - intros w sh k v. apply run_cache_gain.
  - intros identifiers sh. unfold Aladin.get_cached_cover_url.
    destruct (Py.truthy_opt (identifiers !! "isbn"%string)); [|done].
    by intros [|].
Qed.

End WorkerProps.

(** ** Threads and the clock *)

Section ThreadProps.

Import Threads.
Context {float : Type}.
Variable H : Host float.
Variable W : World.

Implicit Types (s : @Sys float) (w : Worker.t) (l : list thread).

Lemma settle_spec t l (sh : Shared float) :
  (settle H W t l sh).1 = filter (fun th => t < th_finish th) l.
Proof.
  revert sh. induction l as [|x l IH]; intros sh; [reflexivity|].
  cbn [settle]. rewrite filter_cons.
  destruct (Nat.leb_spec (th_finish x) t) as [Hle|Hlt].
  - rewrite IH. destruct (decide (t < th_finish x)); [lia|done].
  - specialize (IH sh). destruct (settle H W t l sh) as [l'' sh'].
    cbn [fst] in *. destruct (decide (t < th_finish x)); [by rewrite IH|lia].
Qed.

Lemma advance_now t s : now (advance H W t s) = t.
Proof. unfold advance. by destruct (settle _ _ _ _ _). Qed.

Lemma advance_trace t s : trace (advance H W t s) = trace s.
Proof. unfold advance. by destruct (settle _ _ _ _ _). Qed.

Lemma advance_pending t s :
  pending (advance H W t s) = filter (fun th => t < th_finish th) (pending s).
Proof.
  unfold advance. pose proof (settle_spec t (pending s) (shared s)) as Hs.
  by destruct (settle _ _ _ _ _).
Qed.

Lemma advance_settled t s : settled (advance H W t s).
Proof.
  unfold settled. rewrite advance_now, advance_pending.
  apply Forall_forall. intros th Hth.
  by apply list_elem_of_filter in Hth as [? _].
Qed.

Lemma advance_subseteq t s : pending (advance H W t s) ⊆ pending s.
Proof. rewrite advance_pending. apply list_subseteq_filter. Qed.

Lemma abort_now_mono s s' :
  now s <= now s' -> abort_now W s = true -> abort_now W s' = true.
Proof.
  unfold abort_now. destruct (abort_at W) as [t|]; [|done].
  rewrite !Nat.leb_le. lia.
Qed.

Lemma finish_of_elem i l f :
  finish_of i l = Some f ->
  exists th, th ∈ l /\ Worker.ident (th_worker th) = i /\ th_finish th = f.
Proof.
  unfold finish_of. destruct (List.find _ l) as [th|] eqn:Hfind; [|done].
  intros [= <-]. apply find_some in Hfind as [Hin Heq].
  exists th. rewrite list_elem_of_In. by apply Nat.eqb_eq in Heq.
Qed.

Lemma finish_of_none i l :
  finish_of i l = None <->
  forall th, th ∈ l -> Worker.ident (th_worker th) <> i.
Proof.
  unfold finish_of. split.
  - destruct (List.find _ l) as [th|] eqn:Hfind; [done|]. intros _ th Hth.
    apply list_elem_of_In in Hth.
    apply (find_none _ _ Hfind) in Hth. by apply Nat.eqb_neq in Hth.
  - intros Hall. destruct (List.find _ l) as [th|] eqn:Hfind; [|done].
    apply find_some in Hfind as [Hin Heq].
    apply list_elem_of_In in Hin. apply Nat.eqb_eq in Heq.
    by destruct (Hall th Hin).
Qed.

Lemma finish_of_subseteq i l l' :
  l' ⊆ l -> finish_of i l = None -> finish_of i l' = None.
Proof. rewrite !finish_of_none. intros Hsub Hall th Hth. auto. Qed.

Lemma alive_now_false i s :
  alive_now i s = false <-> finish_of i (pending s) = None.
Proof.
  unfold alive_now. rewrite bool_decide_eq_false.
  destruct (finish_of i (pending s)); split; try done.
  intros []. eauto.
Qed.

Lemma horizon_ge s th : th ∈ pending s -> th_finish th <= Aladin.horizon s.
Proof.
  unfold Aladin.horizon. induction 1 as [th l|th x l _ IH]; cbn [foldr]; lia.
Qed.

Lemma horizon_le s b :
  (forall th, th ∈ pending s -> th_finish th <= b) -> Aladin.horizon s <= b.
Proof.
  unfold Aladin.horizon. induction (pending s) as [|x l IH]; cbn [foldr];
    intros Hall; [lia|].
  apply Nat.max_lub; [apply Hall; left|apply IH].
  intros th Hth. apply Hall. by right.
Qed.

Lemma horizon_mono s s' :
  pending s' ⊆ pending s -> Aladin.horizon s' <= Aladin.horizon s.
Proof.
  intros Hsub. apply horizon_le. intros th Hth. apply horizon_ge. auto.
Qed.

(** *** One join *)

Lemma join_spec w ms s :
  settled s -> 0 < ms ->
  let s' := join H W w ms s in
  trace s' = trace s ++ [EJoin (Worker.ident w) ms]
  /\ settled s'
  /\ now s <= now s'
  /\ pending s' ⊆ pending s
  /\ (alive_now (Worker.ident w) s' = true ->
      now s < now s' /\ now s' < Aladin.horizon s').
Proof.
  intros Hs Hms s'. subst s'. unfold join.
  cbn [emit pending now].
  destruct (finish_of (Worker.ident w) (pending s)) as [f|] eqn:Hf.
  - apply finish_of_elem in Hf as (th & Hth & _ & <-).
    pose proof (proj1 (Forall_forall _ _) Hs th Hth) as Hlt. cbn beta in Hlt.
    set (s1 := {| now := now s; shared := shared s; pending := pending s;
                  trace := trace s ++ [EJoin (Worker.ident w) ms] |}).
    rewrite advance_trace, advance_now.
    split; [done|]. split; [apply advance_settled|].
    split; [lia|]. split; [apply (advance_subseteq _ s1)|].
    intros Halive. split; [lia|].
    unfold alive_now in Halive. apply bool_decide_eq_true in Halive as [f' Hf'].
    apply finish_of_elem in Hf' as (th' & Hth' & _ & _).
    pose proof (advance_settled (th_finish th `min` (now s + ms)) s1) as Hs1.
    pose proof (proj1 (Forall_forall _ _) Hs1 th' Hth') as Hlt'. cbn beta in Hlt'.
    rewrite advance_now in Hlt'.
    pose proof (horizon_ge _ _ Hth'). lia.
  - cbn [trace now pending]. split; [done|]. split; [exact Hs|].
    split; [done|]. split; [done|].
    unfold alive_now. cbn [pending emit]. rewrite Hf.
    intros Halive. apply bool_decide_eq_true in Halive as [? [=]].
Qed.

(** *** One pass over the workers *)

Lemma join_pass_spec ws : forall a s a' s',
  settled s ->
  Aladin.join_pass H W ws a s = (a', s') ->
  settled s' /\ now s <= now s' /\ pending s' ⊆ pending s
  /\ (a = true -> a' = true)
  /\ (a' = true -> a = true \/ (now s < now s' /\ now s < Aladin.horizon s))
  /\ exists evs,
       trace s' = trace s ++ evs
       /\ starts evs = [] /\ requests evs = []
       /\ Forall (fun im => im.2 = 200
                            /\ exists w, w ∈ ws /\ Worker.ident w = im.1)
                 (joins evs)
       /\ ((Forall (fun e => e <> EAbortIsSet true) evs
            /\ (a' = false ->
                forall w, w ∈ ws -> alive_now (Worker.ident w) s' = false))
           \/ (exists evs0,
                 evs = evs0 ++ [EAbortIsSet true]
                 /\ Forall (fun e => e <> EAbortIsSet true) evs0
                 /\ abort_now W s' = true)).
Proof.
  induction ws as [|w ws IH]; intros a s a' s' Hs; cbn [Aladin.join_pass].
  - intros [= <- <-]. repeat split; try done; [by left|].
    exists []. rewrite app_nil_r. repeat split; try done.
    left. split; [done|]. intros _ w Hw. by apply elem_of_nil in Hw.
  - destruct (join_spec w 200 s Hs ltac:(lia))
      as (Htr1 & Hs1 & Hnow1 & Hsub1 & Halive1).
    set (s1 := join H W w 200 s) in *.
    unfold abort_is_set.
    destruct (abort_now W s1) eqn:Hab.
    + intros [= <- <-]. cbn [emit now pending trace].
      repeat split; try done; [by left|].
      exists [EJoin (Worker.ident w) 200; EAbortIsSet true].
      rewrite Htr1, <- app_assoc. repeat split; try done.
      * cbn. constructor; [|done]. split; [done|]. exists w.
        split; [left|done].
      * right. exists [EJoin (Worker.ident w) 200]. repeat split; try done.
        by constructor.
    + unfold is_alive.
      set (s2 := emit (EAbortIsSet false) s1).
      set (al := alive_now (Worker.ident w) s2).
      set (s3 := emit (EIsAlive (Worker.ident w) al) s2).
      intros Hpass.
      destruct (IH (a || al) s3 a' s' Hs1 Hpass)
        as (Hs' & Hnow & Hsub & Hmono & Hprog & evs & Htr & Hst & Hrq & Hj & Hout).
      change (now s3) with (now s1) in *.
      change (pending s3) with (pending s1) in *.
      change (Aladin.horizon s3) with (Aladin.horizon s1) in *.
      split; [done|]. split; [lia|].
      split; [by (etrans; [exact Hsub|exact Hsub1])|].
      split; [intros ->; by apply Hmono|].
      split.
      { intros Ha'. destruct (Hprog Ha') as [Hor|[Hlt Hhor]].
        - apply orb_prop in Hor as [->|Hal]; [by left|right].
          destruct (Halive1 Hal) as [Hlt1 Hhor1].
          pose proof (horizon_mono s s1 Hsub1). lia.
        - right. pose proof (horizon_mono s s1 Hsub1). lia. }
      exists ([EJoin (Worker.ident w) 200; EAbortIsSet false;
               EIsAlive (Worker.ident w) al] ++ evs).
      split.
      { rewrite Htr. cbn [s3 s2 emit trace]. rewrite Htr1.
        by rewrite <- !app_assoc. }
      split; [done|]. split; [done|]. split.
      { cbn. constructor.
        - split; [done|]. exists w. split; [left|done].
        - eapply Forall_impl; [exact Hj|]. intros [i ms] (? & w' & ? & ?).
          split; [done|]. exists w'. split; [by right|done]. }
      destruct Hout as [[Hno Hdead]|(evs0 & -> & Hno & Habort)].
      * left. split; [by repeat constructor|].
        intros Ha' w' Hw'. apply elem_of_cons in Hw' as [->|Hw'];
          [|by apply Hdead].
        destruct (a || al) eqn:Hacc; [by rewrite Hmono in Ha'|].
        apply orb_false_elim in Hacc as [_ Hal].
        apply alive_now_false. apply alive_now_false in Hal.
        by apply (finish_of_subseteq _ (pending s1)).
      * right.
        exists ([EJoin (Worker.ident w) 200; EAbortIsSet false;
                 EIsAlive (Worker.ident w) al] ++ evs0).
        split; [by rewrite <- app_assoc|]. split; [by repeat constructor|done].
Qed.

(** *** The join loop *)

Lemma quiet_nil : quiet_after_abort [].
Proof. intros pre post Heq. by destruct pre. Qed.

Lemma quiet_cons_other e evs :
  e <> EAbortIsSet true -> quiet_after_abort evs -> quiet_after_abort (e :: evs).
Proof.
  intros Hne Hq pre post Heq.
  destruct pre as [|e' pre]; cbn in Heq; injection Heq as ? ?; subst; [done|].
  by eapply Hq.
Qed.

Lemma quiet_cons_abort evs :
  Forall (fun e => e = EAbortIsSet true) evs ->
  quiet_after_abort (EAbortIsSet true :: evs).
Proof.
  intros Hall pre post Heq.
  destruct pre as [|e' pre]; simplify_eq/=; [done|].
  apply Forall_app in Hall as [_ Hall]. by apply Forall_cons in Hall as [_ ?].
Qed.

Lemma quiet_app evs1 evs2 :
  Forall (fun e => e <> EAbortIsSet true) evs1 ->
  quiet_after_abort evs2 -> quiet_after_abort (evs1 ++ evs2).
Proof.
  induction 1 as [|e evs1 Hne _ IH]; intros Hq; [done|].
  cbn. apply quiet_cons_other; auto.
Qed.

Lemma join_loop_abort fuel ws s :
  abort_now W s = true ->
  Aladin.join_loop H W (S fuel) ws s = Some (emit (EAbortIsSet true) s).
Proof. intros Hab. cbn [Aladin.join_loop]. unfold abort_is_set. by rewrite Hab. Qed.

(** The loop ends within the passes it is given. *)
Lemma join_loop_returns fuel : forall ws s,
  settled s -> Aladin.horizon s - now s < fuel ->
  is_Some (Aladin.join_loop H W fuel ws s).
Proof.
  induction fuel as [|fuel IH]; intros ws s Hs Hfuel; [lia|].
  cbn [Aladin.join_loop]. unfold abort_is_set.
  destruct (abort_now W s) eqn:Hab; [done|].
  set (s0 := emit (EAbortIsSet false) s).
  destruct (Aladin.join_pass H W ws false s0) as [a' s1] eqn:Hpass.
  destruct (join_pass_spec ws false s0 a' s1 Hs Hpass)
    as (Hs1 & Hnow & Hsub & _ & Hprog & _).
  destruct a'; cbn [negb]; [|done].
  destruct (Hprog eq_refl) as [[=]|[Hlt Hhor]].
  change (now s0) with (now s) in *.
  change (Aladin.horizon s0) with (Aladin.horizon s) in *.
  apply IH; [done|].
  pose proof (horizon_mono s0 s1 Hsub) as Hh.
  change (Aladin.horizon s0) with (Aladin.horizon s) in Hh. lia.
Qed.

Lemma join_loop_spec fuel : forall ws s s',
  settled s ->
  Aladin.join_loop H W fuel ws s = Some s' ->
  settled s' /\ now s <= now s' /\ pending s' ⊆ pending s
  /\ (abort_now W s' = true
      \/ forall w, w ∈ ws -> alive_now (Worker.ident w) s' = false)
  /\ exists evs,
       trace s' = trace s ++ evs
       /\ starts evs = [] /\ requests evs = []
       /\ Forall (fun im => im.2 = 200
                            /\ exists w, w ∈ ws /\ Worker.ident w = im.1)
                 (joins evs)
       /\ quiet_after_abort evs.
Proof.
  induction fuel as [|fuel IH]; intros ws s s' Hs; [done|].
  cbn [Aladin.join_loop]. unfold abort_is_set.
  destruct (abort_now W s) eqn:Hab.
  { intros [= <-]. cbn [emit now pending trace].
    repeat split; try done; [by left|].
    exists [EAbortIsSet true]. repeat split; try done.
    by apply quiet_cons_abort. }
  set (s0 := emit (EAbortIsSet false) s).
  destruct (Aladin.join_pass H W ws false s0) as [a' s1] eqn:Hpass.
  destruct (join_pass_spec ws false s0 a' s1 Hs Hpass)
    as (Hs1 & Hnow & Hsub & _ & _ & evs & Htr & Hst & Hrq & Hj & Hout).
  change (now s0) with (now s) in *.
  change (pending s0) with (pending s) in *.
  change (trace s0) with (trace s ++ [EAbortIsSet false]) in Htr.
  destruct a'; cbn [negb].
  - (* a worker was seen alive: the loop goes on *)
    intros Hloop.
    destruct Hout as [[Hno _]|(evs0 & -> & Hno & Habort)].
    + destruct (IH ws s1 s' Hs1 Hloop)
        as (Hs' & Hnow' & Hsub' & Hend & evs' & Htr' & Hst' & Hrq' & Hj' & Hq').
      split; [done|]. split; [lia|].
      split; [by (etrans; [exact Hsub'|exact Hsub])|]. split; [done|].
      exists ([EAbortIsSet false] ++ evs ++ evs').
      split; [by rewrite Htr', Htr, <- !app_assoc|].
      unfold starts, requests, joins in *.
      rewrite !omap_app, Hst, Hst', Hrq, Hrq'.
      repeat split; try done.
      * cbn. by apply Forall_app.
      * apply quiet_cons_other; [done|]. by apply quiet_app.
    + destruct fuel as [|fuel]; [done|].
      rewrite (join_loop_abort _ _ _ Habort) in Hloop. injection Hloop as <-.
      cbn [emit now pending trace].
      split; [done|]. split; [done|]. split; [done|]. split; [by left|].
      exists ([EAbortIsSet false] ++ (evs0 ++ [EAbortIsSet true])
              ++ [EAbortIsSet true]).
      split; [by rewrite Htr, <- !app_assoc|].
      unfold starts, requests, joins in *.
      rewrite !omap_app in *. cbn in Hst, Hrq, Hj |- *.
      rewrite !app_nil_r in *. rewrite Hst, Hrq.
      repeat split; try done.
      apply quiet_cons_other; [done|].
      rewrite <- app_assoc. apply quiet_app; [done|].
      apply quiet_cons_abort. by repeat constructor.
  - (* no worker was seen alive: the loop ends *)
    intros [= <-].
    split; [done|]. split; [done|]. split; [done|].
    split.
    { destruct Hout as [[_ Hdead]|(_ & _ & _ & Habort)]; [right|by left].
      by apply Hdead. }
    exists ([EAbortIsSet false] ++ evs).
    split; [by rewrite Htr, <- app_assoc|].
    repeat split; try done.
    apply quiet_cons_other; [done|].
    destruct Hout as [[Hno _]|(evs0 & -> & Hno & _)].
    + rewrite <- (app_nil_r evs). apply quiet_app; [done|apply quiet_nil].
    + apply quiet_app; [done|]. by apply quiet_cons_abort.
Qed.

(** *** Starting the workers *)

Lemma elem_of_enroll th th' l : th' ∈ enroll th l <-> th' = th \/ th' ∈ l.
Proof.
  induction l as [|x l IH]; cbn [enroll].
  - rewrite list_elem_of_singleton, elem_of_nil. tauto.
  - destruct (th_finish th <? th_finish x).
    + by rewrite elem_of_cons.
    + rewrite !elem_of_cons, IH. tauto.
Qed.

Lemma start_spec w s :
  let s' := start H W w s in
  trace s' = trace s ++ [EStart w;
                         ERequest (Thread (Worker.ident w)) (Worker.url w)
                                  (Worker.timeout w)]
  /\ settled s'
  /\ now s' = now s
  /\ (forall th, th ∈ pending s' -> th ∈ pending s \/ th_worker th = w).
Proof.
  intros s'. subst s'. unfold start, request_of. cbn [emit now shared pending trace].
  rewrite advance_trace, advance_now. cbn [trace].
  split; [by rewrite <- app_assoc|]. split; [apply advance_settled|].
  split; [done|]. intros th Hth.
  apply advance_subseteq in Hth. cbn [pending] in Hth.
  apply elem_of_enroll in Hth as [->|Hth]; [by right|by left].
Qed.

Lemma sleep_spec ms s :
  let s' := sleep H W ms s in
  trace s' = trace s ++ [ESleep ms]
  /\ settled s'
  /\ now s' = now s + ms
  /\ pending s' ⊆ pending s.
Proof.
  intros s'. subst s'. unfold sleep.
  rewrite advance_trace, advance_now. cbn [emit trace now].
  split; [done|]. split; [apply advance_settled|]. split; [done|].
  apply (advance_subseteq _ (emit (ESleep ms) s)).
Qed.

Lemma start_all_spec ws : forall s,
  settled s ->
  let s' := Aladin.start_all H W ws s in
  trace s' = trace s ++ start_events ws
  /\ settled s'
  /\ now s <= now s'
  /\ (forall th, th ∈ pending s' -> th ∈ pending s \/ th_worker th ∈ ws).
Proof.
  induction ws as [|w ws IH]; intros s Hs; cbn [Aladin.start_all fold_left].
  - rewrite app_nil_r. repeat split; try done. by left.
  - destruct (start_spec w s) as (Htr1 & Hs1 & Hnow1 & Hp1).
    destruct (sleep_spec 100 (start H W w s)) as (Htr2 & Hs2 & Hnow2 & Hp2).
    destruct (IH _ Hs2) as (Htr & Hs' & Hnow & Hp).
    fold (Aladin.start_all H W ws (sleep H W 100 (start H W w s))).
    split.
    { rewrite Htr, Htr2, Htr1. cbn [start_events flat_map].
      by rewrite <- !app_assoc. }
    split; [done|]. split; [lia|].
    intros th Hth. destruct (Hp th Hth) as [Hin|Hin].
    + apply Hp2 in Hin. destruct (Hp1 th Hin) as [?|<-]; [by left|].
      right. left.
    + right. by right.
Qed.

Lemma start_events_starts ws : starts (start_events ws) = ws.
Proof. induction ws as [|w ws IH]; [done|]. cbn. by f_equal. Qed.

Lemma start_events_requests ws : requests (start_events ws) = request_of <$> ws.
Proof. induction ws as [|w ws IH]; [done|]. cbn. by f_equal. Qed.

Lemma start_events_joins ws : joins (start_events ws) = [].
Proof. induction ws as [|w ws IH]; [done|]. by cbn. Qed.

Lemma start_events_no_abort ws :
  Forall (fun e => e <> EAbortIsSet true) (start_events ws).
Proof. induction ws as [|w ws IH]; [done|]. cbn. by repeat constructor. Qed.

(** *** Lines 96 to 118 *)

Lemma run_workers_spec matches s :
  settled s ->
  exists s',
    Aladin.run_workers H W matches s = Some s'
    /\ settled s' /\ now s <= now s'
    /\ (forall th, th ∈ pending s' ->
          th ∈ pending s \/ th_worker th ∈ Aladin.workers_for matches)
    /\ (abort_now W s' = true
        \/ forall w, w ∈ Aladin.workers_for matches ->
                     alive_now (Worker.ident w) s' = false)
    /\ exists evs,
         trace s' = trace s ++ EPrint "  Matches are: " (VList matches) :: evs
         /\ starts evs = Aladin.workers_for matches
         /\ requests evs = request_of <$> Aladin.workers_for matches
         /\ Forall (fun im => im.2 = 200
                              /\ exists w, w ∈ Aladin.workers_for matches
                                           /\ Worker.ident w = im.1)
                   (joins evs)
         /\ quiet_after_abort evs.
Proof.
  intros Hs. unfold Aladin.run_workers.
  set (s0 := emit _ (tell _ s)).
  set (ws := Aladin.workers_for matches).
  destruct (start_all_spec ws s0 Hs) as (Htr1 & Hs1 & Hnow1 & Hp1).
  set (s1 := Aladin.start_all H W ws s0) in *.
  destruct (join_loop_returns (S (Aladin.horizon s1 - now s1)) ws s1 Hs1
              ltac:(lia)) as [s' Hloop].
  destruct (join_loop_spec _ ws s1 s' Hs1 Hloop)
    as (Hs' & Hnow & Hsub & Hend & evs & Htr & Hst & Hrq & Hj & Hq).
  exists s'. split; [done|]. split; [done|].
  change (now s0) with (now s) in *. split; [lia|].
  split; [intros th Hth; by apply Hp1, Hsub|]. split; [done|].
  exists (start_events ws ++ evs).
  split.
  { rewrite Htr, Htr1. cbn [s0 emit tell trace]. by rewrite <- !app_assoc. }
  unfold starts, requests, joins in *. rewrite !omap_app.
  fold (starts (start_events ws)) (requests (start_events ws))
       (joins (start_events ws)).
  rewrite start_events_starts, start_events_requests, start_events_joins.
  rewrite Hst, Hrq, !app_nil_r.
  repeat split; try done.
  apply quiet_app; [apply start_events_no_abort|done].
Qed.

Lemma workers_for_lookup matches i w :
  Aladin.workers_for matches !! i = Some w <->
  exists url, matches !! i = Some url /\ w = Worker.init i url i.
Proof.
  unfold Aladin.workers_for. rewrite list_lookup_imap.
  destruct (matches !! i) as [url|]; cbn.
  - split; [intros [= <-]; eauto|]. by intros (? & [= <-] & ->).
  - split; [done|]. by intros (? & ? & _).
Qed.

Lemma workers_for_elem matches w :
  w ∈ Aladin.workers_for matches ->
  exists i url, matches !! i = Some url /\ w = Worker.init i url i.
Proof.
  intros Hw. apply list_elem_of_lookup in Hw as [i Hi].
  apply workers_for_lookup in Hi as (url & ? & ?). eauto.
Qed.

(** C6: from a state with no running thread and for every list of
    matches, lines 96 to 118 of [identify] come to an end; they start one
    worker for each URL of the list, in order, worker [i] with the
    relevance [i] and the URL at index [i]; every join is one of these
    workers joined for 200 ms; when they end, [abort] is set or no worker
    thread is running any more; and once [abort] has been seen set,
    nothing follows in the trace but seeing it set again. *)
Theorem workers_started_and_joined (matches : list ustr) (t0 : nat)
  (sh : Shared float) (tr : list event) :
  let s := {| now := t0; shared := sh; pending := []; trace := tr |} in
  exists s' evs,
    Aladin.run_workers H W matches s = Some s'
    /\ trace s' = tr ++ EPrint "  Matches are: " (VList matches) :: evs
    /\ starts evs = imap (fun i url => Worker.init i url i) matches
    /\ (forall i w, starts evs !! i = Some w ->
          Worker.relevance w = i /\ matches !! i = Some (Worker.url w))
    /\ (forall i ms, (i, ms) ∈ joins evs -> ms = 200 /\ i < length matches)
    /\ (abort_now W s' = true
        \/ (pending s' = []
            /\ forall i, i < length matches -> alive_now i s' = false))
    /\ quiet_after_abort evs.
Proof.
  intros s.
  destruct (run_workers_spec matches s) as
    (s' & Hrun & Hs' & Hnow & Hp & Hend & evs & Htr & Hst & Hrq & Hj & Hq);
    [by constructor|].
  exists s', evs. split; [done|]. split; [done|]. split; [done|].
  split.
  { intros i w. rewrite Hst. intros Hw.
    apply workers_for_lookup in Hw as (url & Hurl & ->). done. }
  split.
  { intros i ms Him.
    apply (proj1 (Forall_forall _ _) Hj) in Him. cbn [fst snd] in Him.
    destruct Him as (-> & w & Hw & <-).
    split; [done|].
    apply workers_for_elem in Hw as (i & url & Hurl & ->).
    by apply lookup_lt_Some in Hurl. }
  split; [|done].
  destruct Hend as [?|Hdead]; [by left|right].
  assert (forall i, i < length matches -> alive_now i s' = false) as Hall.
  { intros i Hi. apply lookup_lt_is_Some_2 in Hi as [url Hurl].
    apply (Hdead (Worker.init i url i)).
    apply list_elem_of_lookup. exists i. apply workers_for_lookup. eauto. }
  split; [|done].
  destruct (pending s') as [|th l] eqn:Hpend; [done|]. exfalso.
  rewrite <- Hpend in *.
  assert (th ∈ pending s') as Hth by (rewrite Hpend; left).
  clear Hpend. destruct (Hp th Hth) as [Hin|Hin].
  - by apply elem_of_nil in Hin.
  - apply workers_for_elem in Hin as (i & url & Hurl & Hw).
    apply lookup_lt_Some in Hurl. specialize (Hall i Hurl).
    apply alive_now_false in Hall.
    apply (proj1 (finish_of_none _ _) Hall th Hth).
    by rewrite Hw.
Qed.

(** *** Lines 93 to 118 and [identify] as a whole *)

Lemma dispatch_spec matches s :
  settled s ->
  exists s',
    Aladin.dispatch H W matches s = Some (Ret None, s')
    /\ (abort_now W s = true -> s' = emit (EAbortIsSet true) s)
    /\ (abort_now W s = false ->
        Aladin.run_workers H W matches (emit (EAbortIsSet false) s) = Some s').
Proof.
  intros Hs. unfold Aladin.dispatch, abort_is_set.
  destruct (abort_now W s) eqn:Hab.
  - exists (emit (EAbortIsSet true) s). done.
  - destruct (run_workers_spec matches (emit (EAbortIsSet false) s) Hs)
      as (s' & Hrun & _).
    exists s'. rewrite Hrun. done.
Qed.

Lemma fetch_settled url timeout s : settled (Aladin.fetch H W url timeout s).2.
Proof. unfold Aladin.fetch. cbn [snd]. apply advance_settled. Qed.

Lemma tell_settled e s : settled s -> settled (tell e s).
Proof. done. Qed.

(** [identify] always comes to an end. *)
Lemma identify_returns title authors identifiers timeout s :
  settled s ->
  is_Some (Aladin.identify H W title authors identifiers timeout s).
Proof.
  intros Hs. unfold Aladin.identify.
  destruct (Py.truthy_opt (identifiers !! "isbn"%string)).
  { destruct (dispatch_spec ([] ++ [Aladin.isbn_url (default [] (identifiers !! "isbn"%string))]) s Hs)
      as (s' & -> & _). done. }
  destruct (Aladin._create_query H title authors identifiers) as [[query|]|e];
    [|done|done].
  set (s0 := emit _ (tell _ s)).
  pose proof (fetch_settled query timeout s0) as Hs1.
  destruct (Aladin.fetch H W query timeout s0) as [r s1]. cbn [snd] in Hs1.
  destruct r as [raw|code| | |]; try done.
  destruct (negb (Py.truthy _)); [done|].
  destruct (fromstring H _) as [root|]; [|done].
  destruct (dispatch_spec (Aladin._parse_search_results root []) s1 Hs1)
    as (s' & -> & _). done.
Qed.

End ThreadProps.

(** ** [identify] *)

Section IdentifyProps.

Import Threads.
Context {float : Type}.
Variable H : Host float.
Variable W : World.

Lemma boot_settled t0 (sh : Shared float) : settled (boot t0 sh).
Proof. by constructor. Qed.

Lemma isbn_url_literal isbn :
  Aladin.isbn_url isbn
  = u "http://www.aladin.co.kr/shop/wproduct.aspx?ISBN=" ++ isbn.
Proof. unfold Aladin.isbn_url. by rewrite app_assoc. Qed.

(** What [identify] does when the identifiers hold a non-empty isbn. *)
Lemma identify_with_isbn title authors identifiers timeout t0
  (sh : Shared float) isbn :
  identifiers !! "isbn"%string = Some isbn ->
  isbn <> [] ->
  let url := Aladin.isbn_url isbn in
  let s := boot t0 sh in
  Aladin.identify H W title authors identifiers timeout s
  = Aladin.dispatch H W [url] s
  /\ exists s',
       Aladin.dispatch H W [url] s = Some (Ret None, s')
       /\ (abort_now W s = true -> trace s' = [EAbortIsSet true])
       /\ (abort_now W s = false ->
           exists evs,
             trace s' = EAbortIsSet false
                        :: EPrint "  Matches are: " (VList [url]) :: evs
             /\ starts evs = [Worker.init 0 url 0]
             /\ requests evs = [(Thread 0, url, 20)]).
Proof.
  intros Hisbn Hne url s.
  split.
  { unfold Aladin.identify. rewrite Hisbn. cbn [Py.truthy_opt default].
    by destruct isbn. }
  destruct (dispatch_spec H W [url] s (boot_settled t0 sh))
    as (s' & Hd & Hab & Hrun).
  exists s'. split; [done|]. split.
  { intros Ha. by rewrite (Hab Ha). }
  intros Ha. specialize (Hrun Ha).
  destruct (run_workers_spec H W [url] (emit (EAbortIsSet false) s))
    as (s'' & Hrun' & _ & _ & _ & _ & evs & Htr & Hst & Hrq & _);
    [by constructor|].
  rewrite Hrun in Hrun'. injection Hrun' as <-.
  exists evs. done.
Qed.

(** C1: when the identifiers hold a non-empty isbn, [get_book_url]
    returns the triple of [aladin], the isbn and the direct-lookup URL,
    and [identify] goes on at line 93 with that URL as its only match: it
    sends no request of its own, and unless [abort] is set by then it
    starts one worker, for that URL. *)
Theorem isbn_lookup_skips_search (title : option ustr)
  (authors : option (list ustr)) (identifiers : gmap string ustr)
  (timeout t0 : nat) (sh : Shared float) (isbn : ustr) :
  identifiers !! "isbn"%string = Some isbn ->
  isbn <> [] ->
  let url := u "http://www.aladin.co.kr/shop/wproduct.aspx?ISBN=" ++ isbn in
  let s := boot t0 sh in
  Aladin.get_book_url identifiers = Some (u "aladin", isbn, url)
  /\ Aladin.identify H W title authors identifiers timeout s
     = Aladin.dispatch H W [url] s
  /\ exists s',
       Aladin.identify H W title authors identifiers timeout s
       = Some (Ret None, s')
       /\ (forall q t, (Caller, q, t) ∉ requests (trace s'))
       /\ (abort_now W s = true -> starts (trace s') = [])
       /\ (abort_now W s = false ->
           EPrint "  Matches are: " (VList [url]) ∈ trace s'
           /\ starts (trace s') = [Worker.init 0 url 0]).
Proof.
  intros Hisbn Hne url s. subst url. rewrite <- isbn_url_literal.
  destruct (identify_with_isbn title authors identifiers timeout t0 sh isbn
              Hisbn Hne) as (Hid & s' & Hd & Hab & Hrun).
  split.
  { unfold Aladin.get_book_url. rewrite Hisbn. cbn [Py.truthy_opt default].
    by destruct isbn. }
  split; [done|]. subst s. rewrite Hid.
  exists s'. split; [done|].
  destruct (abort_now W (boot t0 sh)) eqn:Ha.
  - rewrite (Hab eq_refl). split; [|done].
    intros q t Hin. cbn in Hin. by apply elem_of_nil in Hin.
  - destruct (Hrun eq_refl) as (evs & -> & Hst & Hrq).
    split; [|split; [done|]].
    + intros q t. cbn. fold (requests evs). rewrite Hrq.
      intros Hin. by apply list_elem_of_singleton in Hin.
    + intros _. split; [right; left|]. cbn. by fold (starts evs).
Qed.

(** C8: with a non-empty isbn among the identifiers, [identify] returns
    [None] after one round: the only request of the whole call is the one
    of the worker for the direct-lookup URL (none when [abort] is set at
    line 93), whatever comes of it and whatever title and authors were
    given. *)
Theorem identify_single_lookup_round (title : option ustr)
  (authors : option (list ustr)) (identifiers : gmap string ustr)
  (timeout t0 : nat) (sh : Shared float) (isbn : ustr) :
  identifiers !! "isbn"%string = Some isbn ->
  isbn <> [] ->
  let s := boot t0 sh in
  exists s',
    Aladin.identify H W title authors identifiers timeout s
    = Some (Ret None, s')
    /\ requests (trace s')
       = (if abort_now W s then []
          else [(Thread 0, Aladin.isbn_url isbn, 20)])
    /\ Aladin.identify H W title authors identifiers timeout s
       = Aladin.identify H W None None identifiers timeout s.
Proof.
  intros Hisbn Hne s.
  destruct (identify_with_isbn title authors identifiers timeout t0 sh isbn
              Hisbn Hne) as (Hid & s' & Hd & Hab & Hrun).
  destruct (identify_with_isbn None None identifiers timeout t0 sh isbn
              Hisbn Hne) as (Hid' & _).
  subst s.
  exists s'. split; [by rewrite Hid|]. split; [|by rewrite Hid, Hid'].
  destruct (abort_now W (boot t0 sh)) eqn:Ha.
  - by rewrite (Hab eq_refl).
  - destruct (Hrun eq_refl) as (evs & -> & _ & Hrq). cbn.
    by fold (requests evs).
Qed.

(** *** The query *)



Lemma quoted_spec tokens :
  Aladin.quoted H tokens
  = match mapM (euc_kr_encode H) tokens with
    | Some encoded => Ret (Py.quote <$> encoded)
    | None => Raise UnicodeEncodeError
    end.
Proof.
  induction tokens as [|t tokens IH]; [done|].
  cbn [Aladin.quoted mapM]. destruct (euc_kr_encode H t) as [b|]; [|done].
  rewrite IH. cbn. by destruct (mapM _ tokens).
Qed.


Lemma create_query_tokens title authors identifiers :
  check_isbn H (identifiers !! "isbn"%string) = None ->
  Aladin._create_query H title authors identifiers
  = match mapM (euc_kr_encode H) (query_tokens title authors) with
    | Some [] => Ret None
    | Some encoded =>
        Ret (Some (Aladin.SEARCH_URL ++ u "&SearchWord="
                   ++ Py.join (u "+") (Py.quote <$> encoded)))
    | None => Raise UnicodeEncodeError
    end.
Proof.
  intros Hck. unfold Aladin._create_query, query_tokens. rewrite Hck.
  set (tt := if Py.truthy_opt title then _ else []).
  set (ta := match authors with Some (a0 :: _) => _ | _ => [] end).
  assert ((if Py.truthy_opt title
           then Aladin.quoted H (Py.split (u " ") (default [] title))
           else Ret []) = Aladin.quoted H tt) as ->.
  { subst tt. by destruct (Py.truthy_opt title). }
  rewrite quoted_spec.
  destruct (mapM (euc_kr_encode H) tt) as [et|] eqn:Het.
  2: { assert (mapM (euc_kr_encode H) (tt ++ ta) = None) as ->; [|done].
       apply eq_None_not_Some. intros [l Hl].
       apply mapM_Some in Hl. apply Forall2_app_inv_l in Hl
         as (l1 & l2 & Hl1 & _ & _).
       apply mapM_Some in Hl1. congruence. }
  cbn [bind].
  assert (match authors with
          | Some (a0 :: _) =>
              l <- Aladin.quoted H (Py.split (u " ") a0);;
              Ret ((Py.quote <$> et) ++ l)
          | _ => Ret (Py.quote <$> et)
          end = (l <- Aladin.quoted H ta;; Ret ((Py.quote <$> et) ++ l))) as ->.
  { subst ta. destruct authors as [[|a0 rest]|]; cbn; by rewrite ?app_nil_r. }
  rewrite quoted_spec.
  destruct (mapM (euc_kr_encode H) ta) as [ea|] eqn:Hea.
  2: { assert (mapM (euc_kr_encode H) (tt ++ ta) = None) as ->; [|done].
       apply eq_None_not_Some. intros [l Hl].
       apply mapM_Some in Hl. apply Forall2_app_inv_l in Hl
         as (l1 & l2 & _ & Hl2 & _).
       apply mapM_Some in Hl2. congruence. }
  assert (mapM (euc_kr_encode H) (tt ++ ta) = Some (et ++ ea)) as ->.
  { apply mapM_Some. apply Forall2_app; by apply mapM_Some. }
  cbn [bind]. rewrite <- fmap_app.
  by destruct (et ++ ea).
Qed.


End IdentifyProps.

(** ** [download_cover] *)

Section CoverProps.

Import Threads.
Context {float : Type}.
Variable H : Host float.
Variable W : World.

Lemma insert_by_perm {A} (key : A -> Z) x l :
  Aladin.insert_by key x l ≡ₚ x :: l.
Proof.
  induction l as [|y l IH]; cbn [Aladin.insert_by]; [done|].
  destruct (key y <? key x)%Z; [|done].
  rewrite IH. apply Permutation_swap.
Qed.

Lemma sort_by_perm {A} (key : A -> Z) l : Aladin.sort_by key l ≡ₚ l.
Proof.
  induction l as [|x l IH]; [done|].
  cbn [Aladin.sort_by foldr]. fold (Aladin.sort_by key l).
  by rewrite insert_by_perm, IH.
Qed.

Lemma insert_by_sorted {A} (key : A -> Z) x l :
  StronglySorted (fun a b => (key a <= key b)%Z) l ->
  StronglySorted (fun a b => (key a <= key b)%Z) (Aladin.insert_by key x l).
Proof.
  induction 1 as [|y l Hl IH Hy]; cbn [Aladin.insert_by].
  - by repeat constructor.
  - destruct (Z.ltb_spec (key y) (key x)) as [Hlt|Hge].
    + constructor; [done|].
      rewrite insert_by_perm. constructor; [lia|done].
    + constructor; [by constructor|].
      constructor; [done|]. eapply Forall_impl; [exact Hy|].
      cbn. intros. lia.
Qed.

Lemma sort_by_sorted {A} (key : A -> Z) l :
  StronglySorted (fun a b => (key a <= key b)%Z) (Aladin.sort_by key l).
Proof.
  induction l as [|x l IH]; [constructor|].
  cbn [Aladin.sort_by foldr]. by apply insert_by_sorted.
Qed.

(** The loop over the results stops at the first record with a cached
    cover URL. *)
Lemma scan_results_first results (sh : Shared float) :
  Aladin.scan_results results None sh
  = head (omap (fun mi => Aladin.get_cached_cover_url (mi_identifiers mi) sh)
               results).
Proof.
  induction results as [|mi results IH]; [done|].
  cbn [Aladin.scan_results omap list_omap].
  destruct (Aladin.get_cached_cover_url (mi_identifiers mi) sh); [done|].
  cbn [Aladin.scan_results] in IH.
  destruct results as [|mi' results]; [done|]. exact IH.
Qed.

(** [get_cached_cover_url] reads the cache at the isbn of the
    identifiers. *)
Lemma get_cached_cover_url_spec (identifiers : gmap string ustr)
  (sh : Shared float) :
  Aladin.get_cached_cover_url identifiers sh = cached_cover identifiers sh.
Proof.
  unfold Aladin.get_cached_cover_url, cached_cover.
  by destruct (identifiers !! "isbn"%string) as [[|c isbn]|].
Qed.

Lemma omap_pointwise {A B} (f g : A -> option B) (l : list A) :
  (forall x, f x = g x) -> omap f l = omap g l.
Proof.
  intros Hfg. induction l as [|x l IH]; [done|]. cbn. by rewrite Hfg, IH.
Qed.

Lemma requests_app evs evs' :
  requests (evs ++ evs') = requests evs ++ requests evs'.
Proof. apply omap_app. Qed.

(** C7: [download_cover] comes to an end and puts at most one image on
    [result_queue].  [get_cached_cover_url] gives the cache entry for
    the isbn of the identifiers it is given, if that isbn is not empty.
    With a cached URL for the isbn of the identifiers [download_cover]
    does not run [identify]; without one it runs [identify] with a fresh
    queue, returns if [abort] is set by then, and otherwise empties the
    queue, sorts the records by the host's keys and takes the cached URL
    of the first record that has one.  Without a URL, or with [abort]
    set, [result_queue] stays as it was and no request follows;
    otherwise the URL is requested with the time limit of the call, and
    the image is put on [result_queue], or the failure is logged. *)
Theorem download_cover_spec (title : option ustr)
  (authors : option (list ustr)) (identifiers : gmap string ustr)
  (timeout : nat) (result_queue : list bytes) (t0 : nat) (sh : Shared float) :
  let s := boot t0 sh in
  let key := identify_results_keygen H title authors identifiers in
  let hit (sh' : Shared float) (mi : Metadata float) :=
    match mi_identifiers mi !! "isbn"%string with
    | Some (c :: isbn) => cache sh' !! Some (c :: isbn)
    | _ => None
    end in
  exists r q s' found s1,
    Aladin.download_cover H W title authors identifiers timeout result_queue s
    = Some (r, q, s')
    /\ Aladin.find_cover H W title authors identifiers s = Some (found, s1)
    /\ (forall (ids : gmap string ustr) (sh0 : Shared float),
          Aladin.get_cached_cover_url ids sh0
          = match ids !! "isbn"%string with
            | Some (c :: isbn) => cache sh0 !! Some (c :: isbn)
            | _ => None
            end)
    /\ (forall isbn url,
          identifiers !! "isbn"%string = Some isbn -> isbn <> [] ->
          cache sh !! Some isbn = Some url ->
          found = Aladin.Url (Some url) /\ s1 = s)
    /\ (identifiers !! "isbn"%string = None
        \/ identifiers !! "isbn"%string = Some []
        \/ cache sh !! (identifiers !! "isbn"%string) = None ->
        exists ri si,
          Aladin.identify H W title authors identifiers 30
            (Aladin.with_queue []
               (tell (Log Info "No cached cover found, running identify" []) s))
          = Some (ri, si)
          /\ match ri with
             | Raise e => found = Aladin.Leave (Raise e)
             | Ret _ =>
                 if abort_now W si then found = Aladin.Leave (Ret ())
                 else
                   let results := Aladin.sort_by key (queue (shared si)) in
                   results ≡ₚ queue (shared si)
                   /\ StronglySorted (fun a b => (key a <= key b)%Z) results
                   /\ found = Aladin.Url (head (omap (hit (shared s1)) results))
                   /\ cache (shared s1) = cache (shared si)
                   /\ queue (shared s1) = []
             end)
    /\ match found with
       | Aladin.Url (Some url) =>
           if abort_now W s1
           then q = result_queue /\ requests (trace s') = requests (trace s1)
           else
             requests (trace s')
             = requests (trace s1) ++ [(Caller, url, timeout)]
             /\ match respond W Caller url timeout with
                | Body cdata => q = result_queue ++ [cdata]
                | _ =>
                    q = result_queue
                    /\ last (log (shared s'))
                       = Some (Log Exception "Failed to download cover from:"
                                   [VStr url])
                end
       | Aladin.Url None =>
           q = result_queue
           /\ requests (trace s') = requests (trace s1)
           /\ last (log (shared s')) = Some (Log Info "No cover found" [])
       | Aladin.Leave r' =>
           q = result_queue /\ r = r'
           /\ requests (trace s') = requests (trace s1)
       end.
Proof.
  intros s key hit.
  assert (forall (ids : gmap string ustr) (sh0 : Shared float),
            Aladin.get_cached_cover_url ids sh0
            = match ids !! "isbn"%string with
              | Some (c :: isbn) => cache sh0 !! Some (c :: isbn)
              | _ => None
              end) as Hget by apply get_cached_cover_url_spec.
  assert (exists found s1,
            Aladin.find_cover H W title authors identifiers s = Some (found, s1)
            /\ (forall url,
                  Aladin.get_cached_cover_url identifiers sh = Some url ->
                  found = Aladin.Url (Some url) /\ s1 = s)
            /\ (Aladin.get_cached_cover_url identifiers sh = None ->
                exists ri si,
                  Aladin.identify H W title authors identifiers 30
                    (Aladin.with_queue []
                       (tell (Log Info "No cached cover found, running identify" [])
                             s))
                  = Some (ri, si)
                  /\ match ri with
                     | Raise e => found = Aladin.Leave (Raise e)
                     | Ret _ =>
                         if abort_now W si then found = Aladin.Leave (Ret ())
                         else
                           let results :=
                             Aladin.sort_by key (queue (shared si)) in
                           results ≡ₚ queue (shared si)
                           /\ StronglySorted
                                (fun a b => (key a <= key b)%Z) results
                           /\ found
                              = Aladin.Url (head (omap (hit (shared s1)) results))
                           /\ cache (shared s1) = cache (shared si)
                           /\ queue (shared s1) = []
                     end)) as (found & s1 & Hfind & Hhit & Hmiss).
  { unfold Aladin.find_cover. change (shared s) with sh.
    destruct (Aladin.get_cached_cover_url identifiers sh) as [url|] eqn:Hc.
    { exists (Aladin.Url (Some url)), s. split; [done|].
      split; [by intros ? [= <-]|done]. }
    set (s0 := Aladin.with_queue [] _).
    destruct (identify_returns H W title authors identifiers 30 s0)
      as [[ri si] Hid]; [by constructor|].
    rewrite Hid. cbn [mbind option_bind].
    destruct ri as [v|e].
    2: { exists (Aladin.Leave (Raise e)), si. split; [done|].
         split; [done|]. intros _. exists (Raise e), si. done. }
    unfold abort_is_set. destruct (abort_now W si) eqn:Hab.
    { eexists _, _. split; [done|]. split; [done|]. intros _.
      exists (Ret v), si. by rewrite Hab. }
    eexists _, _. split; [done|]. split; [done|]. intros _.
    exists (Ret v), si. rewrite Hab. split; [done|].
    cbn [emit shared queue Aladin.with_queue cache].
    split; [apply sort_by_perm|]. split; [apply sort_by_sorted|].
    split; [|done]. f_equal. rewrite scan_results_first.
    f_equal. apply omap_pointwise. intros mi. apply Hget. }
  assert (forall isbn url,
            identifiers !! "isbn"%string = Some isbn -> isbn <> [] ->
            cache sh !! Some isbn = Some url ->
            found = Aladin.Url (Some url) /\ s1 = s) as Hhit'.
  { intros isbn url Hi Hne Hc. apply Hhit. rewrite Hget, Hi.
    by destruct isbn. }
  assert (identifiers !! "isbn"%string = None
          \/ identifiers !! "isbn"%string = Some []
          \/ cache sh !! (identifiers !! "isbn"%string) = None ->
          Aladin.get_cached_cover_url identifiers sh = None) as Hnone.
  { rewrite Hget. intros [->|[->|Hc]]; [done|done|].
    by destruct (identifiers !! "isbn"%string) as [[|c isbn]|]. }
  unfold Aladin.download_cover. rewrite Hfind. cbn [mbind option_bind].
  destruct found as [[url|]|r'].
  - unfold abort_is_set. destruct (abort_now W s1) eqn:Hab.
    { eexists _, _, _, _, _. do 3 (split; [done|]). split; [exact Hhit'|].
      split; [intros Hc; by apply Hmiss, Hnone|].
      rewrite Hab. split; [done|]. cbn [emit trace].
      by rewrite requests_app, app_nil_r. }
    unfold Aladin.fetch.
    assert (forall t (s2 : @Sys float),
              trace s2 = trace s1 ++ [EAbortIsSet false] ->
              requests (trace (advance H W t
                                 (emit (ERequest Caller url timeout) s2)))
              = requests (trace s1) ++ [(Caller, url, timeout)]) as Hreq.
    { intros t s2 Hs2. rewrite advance_trace. cbn [emit trace].
      rewrite Hs2, !requests_app. cbn. by rewrite app_nil_r. }
    destruct (respond W Caller url timeout) as [cdata|code| | |] eqn:Hr;
      eexists _, _, _, _, _; do 3 (split; [done|]);
      (split; [exact Hhit'|]);
      (split; [intros Hc; by apply Hmiss, Hnone|]);
      rewrite ?Hab, ?Hr;
      (split; [cbn [tell trace]; by apply Hreq|]); try done;
      (split; [done|]); cbn [tell shared log add_log];
      by rewrite last_snoc.
  - eexists _, _, _, _, _. do 3 (split; [done|]). split; [exact Hhit'|].
    split; [intros Hc; by apply Hmiss, Hnone|].
    split; [done|]. split; [done|].
    cbn [tell shared log add_log]. by rewrite last_snoc.
  - eexists _, _, _, _, _. do 3 (split; [done|]). split; [exact Hhit'|].
    split; [intros Hc; by apply Hmiss, Hnone|]. done.
Qed.

End CoverProps.

(** ** The shared objects over a whole call *)

Section SharedProps.

Import Threads.
Context {float : Type}.
Variable H : Host float.
Variable W : World.
Variable P : Worker.t -> Prop.

Implicit Types (s : @Sys float) (sh : Shared float).

Lemma evolves_refl sh : evolves H W P sh sh.
Proof.
  split; [by left|]. exists []. by rewrite app_nil_r.
Qed.

Lemma evolves_trans sh1 sh2 sh3 :
  evolves H W P sh1 sh2 -> evolves H W P sh2 sh3 -> evolves H W P sh1 sh3.
Proof.
  intros [Hc1 (l1 & Hq1 & Hl1)] [Hc2 (l2 & Hq2 & Hl2)]. split.
  - intros k v Hkv. destruct (Hc2 k v Hkv) as [Hk|?]; [by apply Hc1|by right].
  - exists (l1 ++ l2). rewrite Hq2, Hq1, app_assoc.
    split; [done|]. by apply Forall_app.
Qed.

Lemma evolves_log e sh : evolves H W P sh (add_log e sh).
Proof.
  split; [by left|]. exists []. cbn [add_log queue]. by rewrite app_nil_r.
Qed.

Lemma evolves_run w sh : P w -> evolves H W P sh (Worker.run H W w sh).2.
Proof.
  intros Hw. split.
  - intros k v. apply run_cache_gain.
  - destruct (run_queue_cases H W w sh) as [Hq|[mi Hq]].
    + exists []. by rewrite app_nil_r.
    + exists [mi]. split; [done|]. constructor; [|done]. by exists w, sh.
Qed.

Lemma evolves_settle t l : forall sh,
  Forall (fun th => P (th_worker th)) l ->
  evolves H W P sh (settle H W t l sh).2.
Proof.
  induction l as [|x l IH]; intros sh Hall; [apply evolves_refl|].
  apply Forall_cons in Hall as [Hx Hl]. cbn [settle].
  destruct (th_finish x <=? t).
  - eapply evolves_trans; [by apply (evolves_run (th_worker x))|by apply IH].
  - specialize (IH sh Hl). by destruct (settle H W t l sh).
Qed.

Lemma evolves_advance t s :
  runs_only P s -> evolves H W P (shared s) (shared (advance H W t s)).
Proof.
  intros Hall. unfold advance.
  pose proof (evolves_settle t (pending s) (shared s) Hall) as He.
  by destruct (settle H W t (pending s) (shared s)).
Qed.

Lemma runs_only_subseteq s s' :
  pending s' ⊆ pending s -> runs_only P s -> runs_only P s'.
Proof.
  unfold runs_only. rewrite !Forall_forall. intros Hsub Hall th Hth. auto.
Qed.

Lemma runs_only_advance t s : runs_only P s -> runs_only P (advance H W t s).
Proof. apply runs_only_subseteq, advance_subseteq. Qed.

Lemma evolves_join w ms s :
  runs_only P s ->
  evolves H W P (shared s) (shared (join H W w ms s))
  /\ runs_only P (join H W w ms s).
Proof.
  intros Hall. unfold join. cbn [emit pending now].
  destruct (finish_of _ _); [|split; [apply evolves_refl|done]].
  split; [by apply (evolves_advance _ (emit _ s))|].
  by apply (runs_only_advance _ (emit _ s)).
Qed.

Lemma evolves_start w s :
  P w -> runs_only P s ->
  evolves H W P (shared s) (shared (start H W w s))
  /\ runs_only P (start H W w s).
Proof.
  intros Hw Hall. unfold start, request_of. cbn [emit now shared pending trace].
  set (s1 := {| now := now s; shared := shared s;
                pending := enroll _ (pending s); trace := _ |}).
  assert (runs_only P s1) as H1.
  { unfold runs_only. cbn [s1 pending]. apply Forall_forall. intros th Hth.
    apply elem_of_enroll in Hth as [->|Hth]; [done|].
    by apply (proj1 (Forall_forall _ _) Hall). }
  split; [by apply (evolves_advance _ s1)|by apply runs_only_advance].
Qed.

Lemma evolves_sleep ms s :
  runs_only P s ->
  evolves H W P (shared s) (shared (sleep H W ms s))
  /\ runs_only P (sleep H W ms s).
Proof.
  intros Hall. unfold sleep.
  split; [by apply (evolves_advance _ (emit _ s))|].
  by apply (runs_only_advance _ (emit _ s)).
Qed.

Lemma evolves_start_all ws : forall s,
  Forall P ws -> runs_only P s ->
  evolves H W P (shared s) (shared (Aladin.start_all H W ws s))
  /\ runs_only P (Aladin.start_all H W ws s).
Proof.
  induction ws as [|w ws IH]; intros s Hws Hall;
    cbn [Aladin.start_all fold_left].
  - split; [apply evolves_refl|done].
  - apply Forall_cons in Hws as [Hw Hws].
    destruct (evolves_start w s Hw Hall) as [He1 Hr1].
    destruct (evolves_sleep 100 _ Hr1) as [He2 Hr2].
    destruct (IH _ Hws Hr2) as [He3 Hr3].
    split; [|done]. eauto using evolves_trans.
Qed.

Lemma evolves_join_pass ws : forall a s a' s',
  runs_only P s ->
  Aladin.join_pass H W ws a s = (a', s') ->
  evolves H W P (shared s) (shared s') /\ runs_only P s'.
Proof.
  induction ws as [|w ws IH]; intros a s a' s' Hall; cbn [Aladin.join_pass].
  - intros [= <- <-]. split; [apply evolves_refl|done].
  - destruct (evolves_join w 200 s Hall) as [He1 Hr1].
    unfold abort_is_set, is_alive.
    destruct (abort_now W _).
    + by intros [= <- <-].
    + intros Hpass. apply IH in Hpass as [He2 Hr2]; [|done].
      split; [|done]. eapply evolves_trans; [exact He1|exact He2].
Qed.

Lemma evolves_join_loop fuel : forall ws s s',
  runs_only P s ->
  Aladin.join_loop H W fuel ws s = Some s' ->
  evolves H W P (shared s) (shared s') /\ runs_only P s'.
Proof.
  induction fuel as [|fuel IH]; intros ws s s' Hall; [done|].
  cbn [Aladin.join_loop]. unfold abort_is_set.
  destruct (abort_now W s).
  { intros [= <-]. split; [apply evolves_refl|done]. }
  destruct (Aladin.join_pass H W ws false _) as [a' s1] eqn:Hpass.
  apply evolves_join_pass in Hpass as [He1 Hr1]; [|done].
  destruct a'; cbn [negb].
  - intros Hloop. apply IH in Hloop as [He2 Hr2]; [|done].
    split; [|done]. eapply evolves_trans; [exact He1|exact He2].
  - by intros [= <-].
Qed.

Lemma evolves_tell e s : evolves H W P (shared s) (shared (tell e s)).
Proof. apply evolves_log. Qed.

Lemma evolves_run_workers matches s s' :
  Forall P (Aladin.workers_for matches) ->
  runs_only P s ->
  Aladin.run_workers H W matches s = Some s' ->
  evolves H W P (shared s) (shared s') /\ runs_only P s'.
Proof.
  intros Hws Hall. unfold Aladin.run_workers.
  set (s0 := emit _ (tell _ s)).
  destruct (evolves_start_all (Aladin.workers_for matches) s0 Hws Hall)
    as [He1 Hr1].
  intros Hloop. apply evolves_join_loop in Hloop as [He2 Hr2]; [|done].
  split; [|done].
  apply (evolves_trans _ (shared s0)); [apply evolves_log|].
  eapply evolves_trans; [exact He1|exact He2].
Qed.

Lemma evolves_dispatch matches s r s' :
  Forall P (Aladin.workers_for matches) ->
  runs_only P s ->
  Aladin.dispatch H W matches s = Some (r, s') ->
  evolves H W P (shared s) (shared s') /\ runs_only P s'.
Proof.
  intros Hws Hall. unfold Aladin.dispatch, abort_is_set.
  destruct (abort_now W s).
  { intros [= <- <-]. split; [apply evolves_refl|done]. }
  destruct (Aladin.run_workers H W matches _) as [s1|] eqn:Hrun; [|done].
  intros [= <- <-]. by apply evolves_run_workers in Hrun.
Qed.

Lemma evolves_fetch url timeout s :
  runs_only P s ->
  evolves H W P (shared s) (shared (Aladin.fetch H W url timeout s).2)
  /\ runs_only P (Aladin.fetch H W url timeout s).2.
Proof.
  intros Hall. unfold Aladin.fetch. cbn [snd].
  split; [by apply (evolves_advance _ (emit _ s))|].
  by apply (runs_only_advance _ (emit _ s)).
Qed.

Lemma evolves_identify title authors identifiers timeout s r s' :
  (forall w, P w) ->
  runs_only P s ->
  Aladin.identify H W title authors identifiers timeout s = Some (r, s') ->
  evolves H W P (shared s) (shared s') /\ runs_only P s'.
Proof.
  intros HP Hall. unfold Aladin.identify.
  assert (forall ws, Forall P ws) as Hws
    by (intros ws; apply Forall_forall; auto).
  destruct (Py.truthy_opt _).
  { intros Hd. by apply evolves_dispatch in Hd. }
  destruct (Aladin._create_query H title authors identifiers) as [[query|]|e].
  - set (s0 := emit _ (tell _ s)).
    destruct (evolves_fetch query timeout s0 Hall) as [He1 Hr1].
    destruct (Aladin.fetch H W query timeout s0) as [rr s1]. cbn [snd] in *.
    assert (evolves H W P (shared s) (shared s1)) as He
      by (apply (evolves_trans _ (shared s0)); [apply evolves_log|exact He1]).
    destruct rr as [raw|code| | |];
      try (intros [= <- <-]; split; [|done];
           eapply evolves_trans; [exact He|apply evolves_tell]).
    destruct (negb _).
    { intros [= <- <-]. split; [|done].
      eapply evolves_trans; [exact He|apply evolves_tell]. }
    destruct (fromstring H _) as [root|].
    + intros Hd. apply evolves_dispatch in Hd as [He2 Hr2]; [|done..].
      split; [|done]. eapply evolves_trans; [exact He|exact He2].
    + intros [= <- <-]. split; [|done].
      eapply evolves_trans; [exact He|apply evolves_tell].
  - intros [= <- <-]. split; [apply evolves_tell|done].
  - intros [= <- <-]. split; [apply evolves_refl|done].
Qed.

End SharedProps.

(** ** Records and cache over a whole call *)

Section CallProps.

Import Threads.
Context {float : Type}.
Variable H : Host float.
Variable W : World.

Lemma cache_gain_download_cover title authors identifiers timeout
  result_queue (s : @Sys float) r q s' :
  Aladin.download_cover H W title authors identifiers timeout result_queue s
  = Some (r, q, s') ->
  cache_gain_ok (shared s) (shared s').
Proof.
  assert (forall found s1,
            Aladin.find_cover H W title authors identifiers s
            = Some (found, s1) ->
            cache_gain_ok (shared s) (shared s1)
            /\ runs_only (fun _ => True) s1) as Hfind.
  { intros found s1. unfold Aladin.find_cover.
    destruct (Aladin.get_cached_cover_url _ _).
    { intros [= <- <-]. split; [by left|]. by apply Forall_forall. }
    set (s0 := Aladin.with_queue [] _).
    destruct (Aladin.identify H W title authors identifiers 30 s0)
      as [[ri si]|] eqn:Hid; [|done]. cbn [mbind option_bind].
    apply (evolves_identify H W (fun _ => True)) in Hid
      as [[Hc _] Hr]; [|done|by apply Forall_forall].
    destruct ri as [v|e]; [|by intros [= <- <-]].
    unfold abort_is_set. destruct (abort_now W si); by intros [= <- <-]. }
  unfold Aladin.download_cover.
  destruct (Aladin.find_cover H W title authors identifiers s)
    as [[found s1]|] eqn:Hf; [|done]. cbn [mbind option_bind].
  destruct (Hfind _ _ eq_refl) as [Hc Hr].
  destruct found as [[url|]|r']; try by intros [= <- <- <-].
  unfold abort_is_set. destruct (abort_now W s1); [by intros [= <- <- <-]|].
  set (s2 := tell _ _).
  destruct (evolves_fetch H W (fun _ => True) url timeout s2 Hr)
    as [[Hc2 _] _].
  destruct (Aladin.fetch H W url timeout s2) as [rr s3]. cbn [snd] in Hc2.
  assert (cache_gain_ok (shared s) (shared s3)) as Hc3.
  { intros k v Hkv. destruct (Hc2 k v Hkv) as [Hk|?]; [|by right].
    by apply Hc. }
  destruct rr; by intros [= <- <- <-].
Qed.


(** C10: [parse_cover] adds to the cache only a URL that does not end in
    [noimg_b.gif]; for a page whose image is the placeholder it returns
    [None] and leaves the cache as it is; a worker, [identify] and
    [download_cover] add nothing else; and [get_cached_cover_url] returns
    [None] when the identifiers have no non-empty isbn or the cache has
    nothing for it. *)
Theorem cover_cache_gains_valid_urls_only :
  (forall root (w : Worker.t) (sh : Shared float) k v,
     cache (Worker.parse_cover root w sh).2 !! k = Some v ->
     cache sh !! k = Some v \/ Py.endswith v (u "noimg_b.gif") = false)
  /\ (forall root (w : Worker.t) (sh : Shared float) og,
        first (XPath.meta_content "property" "og:image" root) = Ret og ->
        Py.endswith
          match XPath.preview_srcs root with
          | u0 :: _ => Py.replace (u "_fs.") (u "_f.") u0
          | [] => og
          end (u "noimg_b.gif") = true ->
        (Worker.parse_cover root w sh).1.1 = Ret None
        /\ cache (Worker.parse_cover root w sh).2 = cache sh)
  /\ (forall (w : Worker.t) (sh : Shared float),
        cache_gain_ok sh (Worker.run H W w sh).2)
  /\ (forall title authors identifiers timeout (s : @Sys float) r s',
        Aladin.identify H W title authors identifiers timeout s = Some (r, s') ->
        cache_gain_ok (shared s) (shared s'))
  /\ (forall title authors identifiers timeout result_queue
             (s : @Sys float) r q s',
        Aladin.download_cover H W title authors identifiers timeout
          result_queue s = Some (r, q, s') ->
        cache_gain_ok (shared s) (shared s'))
  /\ (forall (identifiers : gmap string ustr) (sh : Shared float),
        Py.truthy_opt (identifiers !! "isbn"%string) = false
        \/ cache sh !! (identifiers !! "isbn"%string) = None ->
        Aladin.get_cached_cover_url identifiers sh = None).
Proof.
  destruct (cover_cache_of_worker H W) as (Hcover & Hplace & Hrun & Hget).
  split; [exact Hcover|]. split; [exact Hplace|].
  split; [intros w sh k v; apply Hrun|].
  split; [|split; [|exact Hget]].
  - intros title authors identifiers timeout s r s' Hid.
    apply (evolves_identify H W (fun _ => True)) in Hid as [[Hc _] _];
      [done|done|].
    unfold runs_only. apply Forall_forall. done.
  - intros title authors identifiers timeout result_queue s r q s'.
    apply cache_gain_download_cover.
Qed.

End CallProps.

(** ** Runs on the sample site *)

Section SampleRuns.

Import Threads.

Example rsplit1_last_equals :
  Py.rsplit1 (u "=") (u "a=b=c") = [u "a=b"; u "c"].
Proof. reflexivity. Qed.

Example split_keeps_empty_tokens :
  Py.split (u " ") (u "a  b") = [u "a"; []; u "b"].
Proof. reflexivity. Qed.

Example quote_escapes_space : Py.quote (u "a b/c") = u "a%20b/c".
Proof. reflexivity. Qed.

Example extract_isbn_of_product_url :
  Worker.extract_isbn Sample.product_url = Ret (u "8983920688").
Proof. reflexivity. Qed.

Example listing_matches :
  Aladin._parse_search_results Sample.listing [] = [Sample.product_url].
Proof. vm_compute. reflexivity. Qed.

Example sample_record_relevance :
  mi_source_relevance <$> Sample.records Sample.og_isbn13 = [5]
  /\ mi_isbn <$> Sample.records Sample.og_isbn13 = [Some (u "9788983920683")].
Proof. split; vm_compute; reflexivity. Qed.

Lemma isbn_lookup_skips_search_witness :
  Sample.identifiers !! "isbn"%string = Some (u "8983920688")
  /\ u "8983920688" <> []
  /\ Aladin.get_book_url Sample.identifiers
     = Some (u "aladin", u "8983920688", Sample.product_url)
  /\ Aladin.identify (Sample.host Sample.og_isbn13) (Sample.world None)
       None None Sample.identifiers 30 (boot 0 Sample.nothing)
     = Aladin.dispatch (Sample.host Sample.og_isbn13) (Sample.world None)
         [Sample.product_url] (boot 0 Sample.nothing).
Proof.
  assert (Sample.identifiers !! "isbn"%string = Some (u "8983920688")) as Hi
    by (vm_compute; reflexivity).
  assert (u "8983920688" <> []) as Hne by discriminate.
  destruct (isbn_lookup_skips_search (Sample.host Sample.og_isbn13)
              (Sample.world None) None None Sample.identifiers 30 0
              Sample.nothing (u "8983920688") Hi Hne) as (Hurl & Hid & _).
  split; [exact Hi|]. split; [exact Hne|]. split; [exact Hurl|exact Hid].
Defined.

Lemma identify_single_lookup_round_witness :
  Sample.identifiers !! "isbn"%string = Some (u "8983920688")
  /\ u "8983920688" <> []
  /\ exists s',
       Aladin.identify (Sample.host Sample.og_isbn13) (Sample.world None)
         (Some (u "Harry Potter")) None Sample.identifiers 30
         (boot 0 Sample.nothing) = Some (Ret None, s')
       /\ requests (trace s') = [(Thread 0, Sample.product_url, 20)].
Proof.
  assert (Sample.identifiers !! "isbn"%string = Some (u "8983920688")) as Hi
    by (vm_compute; reflexivity).
  assert (u "8983920688" <> []) as Hne by discriminate.
  destruct (identify_single_lookup_round (Sample.host Sample.og_isbn13)
              (Sample.world None) (Some (u "Harry Potter")) None
              Sample.identifiers 30 0 Sample.nothing (u "8983920688") Hi Hne)
    as (s' & Hid & Hreq & _).
  split; [exact Hi|]. split; [exact Hne|]. exists s'.
  split; [exact Hid|exact Hreq].
Defined.





End SampleRuns.

(** * Further properties *)

(** ** The isbn of a URL and the date of a text *)

Section TextProps.

Context {float : Type}.
Variable H : Host float.

Lemma startswith_app s p : Py.startswith s p = true -> s = p ++ drop (length p) s.
Proof.
  revert s. induction p as [|a p IH]; intros s; [done|].
  destruct s as [|b s]; [done|]. cbn [Py.startswith].
  intros Hs. apply andb_prop in Hs as [Hab Hs].
  apply N.eqb_eq in Hab as ->. cbn. f_equal. by apply IH.
Qed.

Lemma startswith_prefix p rest : Py.startswith (p ++ rest) p = true.
Proof.
  induction p as [|a p IH]; [by destruct rest|].
  cbn. by rewrite N.eqb_refl.
Qed.

Lemma digits_prefix_spec s :
  Forall (fun c => Py.isdigit c = true) (Re.digits_prefix s)
  /\ exists rest,
       s = Re.digits_prefix s ++ rest
       /\ forall c, head rest = Some c -> Py.isdigit c = false.
Proof.
  induction s as [|c s (IHd & rest & IHs & IHr)]; cbn [Re.digits_prefix].
  - split; [done|]. by exists [].
  - destruct (Py.isdigit c) eqn:Hc.
    + split; [by constructor|]. exists rest. split; [|done].
      cbn. by f_equal.
    + split; [done|]. exists (c :: s). split; [done|].
      by intros ? [= <-].
Qed.

Lemma search_isbn_skip c s :
  Py.startswith (c :: s) (u "ISBN=") = false ->
  Re.search_isbn (c :: s) = Re.search_isbn s.
Proof. intros Hs. cbn [Re.search_isbn]. by rewrite Hs. Qed.

Lemma search_isbn_here c s :
  Py.startswith (c :: s) (u "ISBN=") = true ->
  Re.search_isbn (c :: s)
  = match Re.digits_prefix (drop 5 (c :: s)) with
    | [] => Re.search_isbn s
    | ds => Some ds
    end.
Proof.
  intros Hs. cbn [Re.search_isbn]. rewrite Hs.
  by destruct (Re.digits_prefix _).
Qed.

(** X1: The URL that [identify] and [get_book_url] build for an isbn, read
    back by [extract_isbn]: the digits the isbn starts with.  An isbn of
    digits only comes back whole; one with a hyphen or a final [X] comes
    back cut short; one that starts with no digit is searched on its
    own. *)
Theorem extract_isbn_of_isbn_url (isbn : ustr) :
  Worker.extract_isbn (Aladin.isbn_url isbn)
  = match Re.digits_prefix isbn with
    | [] => Worker.extract_isbn isbn
    | ds => Ret ds
    end
  /\ (isbn <> [] -> forallb Py.isdigit isbn = true ->
      Worker.extract_isbn (Aladin.isbn_url isbn) = Ret isbn).
Proof.
  assert (Re.search_isbn (Aladin.isbn_url isbn)
          = match Re.digits_prefix isbn with
            | [] => Re.search_isbn isbn
            | ds => Some ds
            end) as Hsearch.
  { unfold Aladin.isbn_url.
    set (p := Aladin.BROWSE_URL). vm_compute in (value of p). subst p.
    set (q := u "?ISBN="). vm_compute in (value of q). subst q.
    cbn [app].
    repeat (rewrite search_isbn_skip by reflexivity).
    rewrite search_isbn_here by apply (startswith_prefix (u "ISBN=") isbn).
    cbn [drop]. rewrite drop_0.
    destruct (Re.digits_prefix isbn); [|done].
    by repeat (rewrite search_isbn_skip by reflexivity). }
  assert (Worker.extract_isbn (Aladin.isbn_url isbn)
          = match Re.digits_prefix isbn with
            | [] => Worker.extract_isbn isbn
            | ds => Ret ds
            end) as Hex.
  { unfold Worker.extract_isbn. rewrite Hsearch.
    by destruct (Re.digits_prefix isbn). }
  split; [exact Hex|].
  intros Hne Hdigits. rewrite Hex.
  assert (Re.digits_prefix isbn = isbn) as ->.
  { clear -Hdigits. induction isbn as [|c isbn IH]; [done|].
    cbn in Hdigits. apply andb_prop in Hdigits as [Hc Hd].
    cbn [Re.digits_prefix]. rewrite Hc. f_equal. by apply IH. }
  by destruct isbn.
Qed.

(** X2: What [extract_isbn] returns is a non-empty run of digits that stands
    in the URL right after [ISBN=] and is followed by no further digit. *)
Theorem extract_isbn_sound (url i : ustr) :
  Worker.extract_isbn url = Ret i ->
  i <> []
  /\ Forall (fun c => Py.isdigit c = true) i
  /\ exists pre post,
       url = pre ++ u "ISBN=" ++ i ++ post
       /\ forall c, head post = Some c -> Py.isdigit c = false.
Proof.
  unfold Worker.extract_isbn.
  destruct (Re.search_isbn url) as [ds|] eqn:Hs; [|done]. intros [= <-].
  induction url as [|c url IH].
  { cbn [Re.search_isbn] in Hs.
    by destruct (Py.startswith [] (u "ISBN=")). }
  destruct (Py.startswith (c :: url) (u "ISBN=")) eqn:Hst.
  - rewrite (search_isbn_here _ _ Hst) in Hs.
    destruct (digits_prefix_spec (drop 5 (c :: url)))
      as (Hd & rest & Hrest & Hnext).
    destruct (Re.digits_prefix (drop 5 (c :: url))) as [|d dl] eqn:Hdp.
    + destruct (IH Hs) as (? & ? & pre & post & -> & ?).
      split; [done|]. split; [done|]. by exists (c :: pre), post.
    + injection Hs as <-. split; [done|]. split; [done|].
      exists [], rest. split; [|done].
      rewrite (startswith_app _ _ Hst) at 1.
      change (length (u "ISBN=")) with 5. by rewrite Hrest at 1.
  - rewrite (search_isbn_skip _ _ Hst) in Hs.
    destruct (IH Hs) as (? & ? & pre & post & -> & ?).
    split; [done|]. split; [done|]. by exists (c :: pre), post.
Qed.

Lemma match_date_spec s y m d :
  Re.match_date s = Some (y, m, d) ->
  exists post,
    s = y ++ u "-" ++ m ++ u "-" ++ d ++ post
    /\ length y = 4 /\ length m = 2 /\ length d = 2
    /\ Forall (fun c => Py.isdigit c = true) (y ++ m ++ d).
Proof.
  unfold Re.match_date.
  destruct s as [|y1 [|y2 [|y3 [|y4 [|h1 [|m1 [|m2 [|h2 [|d1 [|d2 post]]]]]]]]]];
    try done.
  destruct (forallb Py.isdigit _ && (h1 =? 45)%N && (h2 =? 45)%N) eqn:Hok;
    [|done].
  intros [= <- <- <-].
  apply andb_prop in Hok as [Hok Hh2]. apply andb_prop in Hok as [Hdig Hh1].
  apply N.eqb_eq in Hh1 as ->. apply N.eqb_eq in Hh2 as ->.
  exists post. split; [done|]. split; [done|]. split; [done|]. split; [done|].
  apply Forall_forall. intros c Hc. apply list_elem_of_In in Hc.
  by apply (proj1 (forallb_forall _ _) Hdig).
Qed.

Lemma search_date_spec s y m d :
  Re.search_date s = Some (y, m, d) ->
  exists pre post,
    s = pre ++ y ++ u "-" ++ m ++ u "-" ++ d ++ post
    /\ length y = 4 /\ length m = 2 /\ length d = 2
    /\ Forall (fun c => Py.isdigit c = true) (y ++ m ++ d).
Proof.
  induction s as [|c s IH]; cbn [Re.search_date].
  - destruct (Re.match_date []) eqn:Hm; [|done]. intros [= ->].
    apply match_date_spec in Hm as (post & ? & ?). by exists [], post.
  - destruct (Re.match_date (c :: s)) as [g|] eqn:Hm.
    + intros [= ->]. apply match_date_spec in Hm as (post & ? & ?).
      by exists [], post.
    + intros Hs. destruct (IH Hs) as (pre & post & -> & ?).
      by exists (c :: pre), post.
Qed.

(** X3: [_convert_date_text] returns a date only for a text that holds four
    digits, a hyphen, two digits, a hyphen and two digits; the date is
    the one these digits write, and it is a day of the calendar.  A text
    without such a run raises [AttributeError]. *)
Theorem convert_date_text_sound (date_text : ustr) (dt : datetime) :
  Worker._convert_date_text date_text = Ret dt ->
  exists pre y m d post,
    date_text = pre ++ y ++ u "-" ++ m ++ u "-" ++ d ++ post
    /\ length y = 4 /\ length m = 2 /\ length d = 2
    /\ Forall (fun c => Py.isdigit c = true) (y ++ m ++ d)
    /\ dt = {| dt_year := Py.int_of_digits y;
               dt_month := Py.int_of_digits m;
               dt_day := Py.int_of_digits d |}
    /\ (1 <= dt_year dt <= 9999)%N
    /\ (1 <= dt_month dt <= 12)%N
    /\ (1 <= dt_day dt <= days_in_month (dt_year dt) (dt_month dt))%N
    /\ (days_in_month (dt_year dt) (dt_month dt) <= 31)%N.
Proof.
  unfold Worker._convert_date_text.
  destruct (Re.search_date date_text) as [[[y m] d]|] eqn:Hs; [|done].
  cbn [deref bind]. unfold mk_datetime.
  destruct (_ && _) eqn:Hok; [|done]. intros [= <-].
  apply search_date_spec in Hs as (pre & post & Htext & Hy & Hm & Hd & Hdig).
  exists pre, y, m, d, post. cbn [dt_year dt_month dt_day].
  repeat (apply andb_prop in Hok as [Hok ?]).
  repeat match goal with
         | Hle : (_ <=? _)%N = true |- _ => apply N.leb_le in Hle
         end.
  do 6 (split; [done|]). split; [lia|]. split; [lia|]. split; [lia|].
  unfold days_in_month.
  repeat match goal with |- context [if ?b then _ else _] => destruct b end;
    lia.
Qed.

Lemma convert_date_text_no_date date_text :
  Re.search_date date_text = None ->
  Worker._convert_date_text date_text = Raise AttributeError.
Proof. unfold Worker._convert_date_text. by intros ->. Qed.

(** *** White space at the ends *)

Lemma lstrip_head sp s c :
  head (Py.lstrip_with sp s) = Some c -> sp c = false.
Proof.
  induction s as [|a s IH]; [done|]. cbn [Py.lstrip_with].
  destruct (sp a) eqn:Ha; [exact IH|]. by intros [= <-].
Qed.

Lemma lstrip_suffix sp s : exists pre, s = pre ++ Py.lstrip_with sp s.
Proof.
  induction s as [|a s [pre IH]]; [by exists []|]. cbn [Py.lstrip_with].
  destruct (sp a); [|by exists []].
  exists (a :: pre). cbn. by f_equal.
Qed.

Lemma head_rev {A} (l : list A) : head (rev l) = last l.
Proof.
  induction l as [|a l IH] using rev_ind; [done|].
  by rewrite rev_unit, last_snoc.
Qed.

Lemma last_rev {A} (l : list A) : last (rev l) = head l.
Proof. by rewrite <- head_rev, rev_involutive. Qed.

Lemma strip_with_trimmed sp s c :
  (head (Py.strip_with sp s) = Some c -> sp c = false)
  /\ (last (Py.strip_with sp s) = Some c -> sp c = false).
Proof.
  unfold Py.strip_with. rewrite head_rev, last_rev. split.
  - set (l := rev (Py.lstrip_with sp s)).
    destruct (lstrip_suffix sp l) as [pre Hl].
    destruct (Py.lstrip_with sp l) as [|a k] eqn:Hk; [done|].
    intros Hlast.
    assert (last l = Some c) as Hc.
    { rewrite Hl. rewrite last_app. by rewrite Hlast. }
    subst l. rewrite last_rev in Hc. by apply lstrip_head in Hc.
  - apply lstrip_head.
Qed.

Lemma strip_trimmed s : trimmed (Py.strip s).
Proof.
  split; intros c Hc;
    [apply (proj1 (strip_with_trimmed Py.isspace s c))
    |apply (proj2 (strip_with_trimmed Py.isspace s c))]; exact Hc.
Qed.

Lemma stripped_texts_trimmed nodes l :
  Worker.stripped_texts nodes = Ret l -> Forall trimmed l.
Proof.
  revert l. induction nodes as [|n nodes IH]; intros l; cbn [Worker.stripped_texts].
  - by intros [= <-].
  - destruct (deref (text n)) as [t|e]; [|done]. cbn [bind].
    destruct (Worker.stripped_texts nodes) as [l'|e]; [|done]. cbn [bind].
    intros [= <-]. constructor; [apply strip_trimmed|by apply IH].
Qed.

(** X4: The title, the series name, the authors and the publisher that the
    extractors return have no white space at either end. *)
Theorem extracted_names_trimmed (root : node) :
  (forall title series series_index,
     Worker.parse_title_series H root = Ret (title, series, series_index) ->
     (forall t, title = Some t -> trimmed t)
     /\ (forall s, series = Some s -> trimmed s))
  /\ (forall authors,
        Worker.parse_authors root = Ret authors -> Forall trimmed authors)
  /\ (forall publisher,
        Worker.parse_publisher root = Ret (Some publisher) ->
        trimmed publisher).
Proof.
  split; [|split].
  - intros title series series_index. unfold Worker.parse_title_series.
    destruct (Worker.bgtit_node root) as [bgtit|e]; [|done]. cbn [bind].
    destruct (XPath.select_below "a" (XPath.attr_is "class" "p_topt01") bgtit)
      as [|t0 ts].
    { by intros [= <- <- <-]. }
    destruct (deref (text t0)) as [t|e]; [|done]. cbn [bind].
    destruct (XPath.select_below "a" (XPath.attr_contains "href" "SRID=") bgtit)
      as [|s0 ss]; cbv zeta.
    { intros [= <- <- <-]. split; [|done]. intros ? [= <-]. apply strip_trimmed. }
    destruct (deref (text s0)) as [st|e]; [|done]. cbn [bind].
    destruct (Py.strip <$> Py.rsplit1 series_word st) as [|g0 gs] eqn:Hg;
      [done|]. cbn [first bind].
    destruct (Worker.series_index_of H (g0 :: gs)) as [idx|e]; [|done].
    cbn [bind]. intros [= <- <- <-].
    split; intros ? [= <-]; [apply strip_trimmed|].
    destruct (Py.rsplit1 series_word st) as [|r0 rs]; [done|].
    injection Hg as <- _. apply strip_trimmed.
  - intros authors. unfold Worker.parse_authors.
    destruct (Worker.bgtit_node root) as [bgtit|e]; [|done]. cbn [bind].
    apply stripped_texts_trimmed.
  - intros publisher. unfold Worker.parse_publisher.
    destruct (Worker.bgtit_node root) as [bgtit|e]; [|done]. cbn [bind].
    destruct (XPath.select_below _ _ bgtit) as [|n0 ns]; [done|].
    destruct (deref (text n0)) as [t|e]; [|done]. cbn [bind].
    intros [= <-]. apply strip_trimmed.
Qed.

(** *** The isbn of the page *)

Lemma rfind_none s : Py.rfind [61%N] s = None -> 61%N ∉ s.
Proof.
  induction s as [|c s IH]; cbn [Py.rfind]; [intros _; apply not_elem_of_nil|].
  destruct (Py.rfind [61%N] s) as [k|]; [done|].
  cbn [Py.startswith]. destruct (N.eqb_spec 61 c) as [<-|Hne]; cbn [andb].
  - by destruct s.
  - intros _. apply not_elem_of_cons. split; [done|by apply IH].
Qed.

Lemma rfind_some s k :
  Py.rfind [61%N] s = Some k ->
  s = take k s ++ [61%N] ++ drop (k + 1) s /\ 61%N ∉ drop (k + 1) s.
Proof.
  revert k. induction s as [|c s IH]; intros k; cbn [Py.rfind]; [done|].
  destruct (Py.rfind [61%N] s) as [k'|] eqn:Hr.
  - intros [= <-]. destruct (IH k' eq_refl) as [Hs Hno].
    cbn [take drop Nat.add]. split; [|done]. cbn. by f_equal.
  - cbn [Py.startswith]. destruct (N.eqb_spec 61 c) as [<-|Hne]; cbn [andb].
    + destruct s as [|c' s']; intros [= <-]; cbn.
      * split; [done|apply not_elem_of_nil].
      * split; [done|]. by apply rfind_none.
    + done.
Qed.

Lemma contains_isbn_equals s : Py.contains (u "ISBN=") s = true -> 61%N ∈ s.
Proof.
  induction s as [|c s IH]; cbn [Py.contains].
  - by rewrite orb_false_r.
  - intros Hc. apply orb_true_iff in Hc as [Hc|Hc].
    + apply startswith_app in Hc. rewrite Hc.
      change (u "ISBN=") with [73; 83; 66; 78; 61]%N. set_solver.
    + right. by apply IH.
Qed.

(** X5: [parse_isbn] raises only for a page without [og:url].  What it
    returns for an [og:url] with [ISBN=] in it is the text after the
    last [=] of that URL, whatever comes before: for a URL with a
    further parameter after the isbn, the value of the last one. *)
Theorem parse_isbn_after_last_equals (root : node) :
  match first (XPath.meta_content "property" "og:url" root) with
  | Raise e => Worker.parse_isbn root = Raise e
  | Ret og =>
      if Py.contains (u "ISBN=") og
      then exists pre i,
             Worker.parse_isbn root = Ret (Some i)
             /\ og = pre ++ u "=" ++ i
             /\ 61%N ∉ i
      else Worker.parse_isbn root = Ret None
  end.
Proof.
  unfold Worker.parse_isbn.
  destruct (first _) as [og|e]; [|done]. cbn [bind].
  destruct (Py.contains (u "ISBN=") og) eqn:Hc; [|done].
  apply contains_isbn_equals in Hc.
  unfold Py.rsplit1. change (u "=") with [61%N].
  destruct (Py.rfind [61%N] og) as [k|] eqn:Hr.
  - apply rfind_some in Hr as [Hog Hno].
    exists (take k og), (drop (k + 1) og). cbn [Worker.second bind length].
    done.
  - by apply rfind_none in Hr.
Qed.

End TextProps.

(** ** What a worker leaves behind *)

Section WorkerTraces.

Context {float : Type}.
Variable H : Host float.
Variable W : World.



Lemma last_add_log e (sh : Shared float) : last (log (add_log e sh)) = Some e.
Proof. cbn. apply last_snoc. Qed.

Lemma log_put mi (sh : Shared float) : log (put mi sh) = log sh.
Proof. done. Qed.

(** [parse_details] keeps the log it finds and adds to it. *)
Lemma parse_details_log root w (sh : Shared float) :
  exists l, log (Worker.parse_details H root w sh).2 = log sh ++ l.
Proof.
  unfold Worker.parse_details.
  destruct (Worker.extract_isbn (Worker.url w)) as [[|ic url_isbn]|e];
    destruct (Worker.parse_title_series H root)
      as [[[[[|tc title]|] series] series_index]|e1];
    destruct (Worker.parse_authors root) as [[|a0 authors]|e2];
    cbn [bind Worker.attempt Py.truthy_opt Py.truthy negb orb];
    try (cbn [log add_log snd]; rewrite <- ?app_assoc; by eexists).
  all: destruct (Worker.parse_isbn root) as [[[|c i]|]|e];
    destruct (Worker.parse_comments root) as [cm|e1];
    cbn [Py.truthy_opt Py.truthy]; rewrite parse_cover_spec;
    destruct (page_cover root) as [[[|pc pu]|]|e2];
    destruct (Worker.parse_publisher root) as [pb|e3];
    destruct (Worker.parse_published_date root) as [pd|e4];
    cbn; try destruct (Py.truthy_opt (Worker.cover_url w));
    cbn; rewrite <- ?app_assoc; try (by eexists);
    exists []; by rewrite app_nil_r.
Qed.

Lemma parse_details_missing_log root w (sh : Shared float) :
  queue (Worker.parse_details H root w sh).2 = queue sh ->
  exists e, last (log (Worker.parse_details H root w sh).2) = Some e
            /\ lvl e = Error.
Proof.
  destruct (found_dec H root (Worker.url w))
    as [(url_isbn & title & series & series_index & authors
         & Hisbn & Htitle & Ht & Hauthors & Ha)|Hnot].
  { edestruct (parse_details_found H root w sh) as [Hq _]; [done..|].
    rewrite Hq. intros Heq. by apply app_singleton_neq in Heq. }
  intros _. unfold Worker.parse_details.
  destruct (Worker.extract_isbn (Worker.url w)) as [[|ic url_isbn]|e] eqn:Hisbn;
    destruct (Worker.parse_title_series H root)
      as [[[[[|tc title]|] series] series_index]|e1] eqn:Htitle;
    destruct (Worker.parse_authors root) as [[|a0 authors]|e2] eqn:Hauthors;
    cbn [bind Worker.attempt Py.truthy_opt Py.truthy negb orb];
    try (eexists; split; [apply last_add_log|reflexivity]).
  exfalso. apply Hnot.
  exists (ic :: url_isbn), (tc :: title), series, series_index, (a0 :: authors).
  done.
Qed.

(** X7: A worker never fails in silence.  Over one run, taken on its
    own, the log keeps what it had, the first entry the worker adds
    names the URL it is about to fetch, and when the worker puts no
    record on the queue, the last entry of the log is an error or an
    exception entry. *)
Theorem worker_failure_is_logged (w : Worker.t) (sh : Shared float) :
  let r := Worker.run H W w sh in
  (exists l, log r.2
             = log sh ++ Log Info "Aladin url: %r" [VStr (Worker.url w)] :: l)
  /\ (queue r.2 = queue sh ->
      exists e, last (log r.2) = Some e
                /\ (lvl e = Error \/ lvl e = Exception)).
Proof.
  intros r. subst r. unfold Worker.run, Worker.get_details.
  set (sh0 := add_log (Log Info "Aladin url: %r" [VStr (Worker.url w)]) sh).
  assert (forall e, exists l,
            log (add_log e sh0)
            = log sh ++ Log Info "Aladin url: %r" [VStr (Worker.url w)] :: l)
    as Hone.
  { intros e. exists [e]. cbn. by rewrite <- app_assoc. }
  assert (forall e, lvl e = Error \/ lvl e = Exception ->
            exists e', last (log (add_log e sh0)) = Some e'
                       /\ (lvl e' = Error \/ lvl e' = Exception)) as Hlast.
  { intros e He. exists e. split; [apply last_add_log|done]. }
  destruct (respond W _ _ _) as [raw|code| | |]; cbn zeta.
  - destruct (Py.contains _ _).
    { split; [apply Hone|]. intros _. apply Hlast. by left. }
    destruct (fromstring H _) as [root|].
    + split.
      * destruct (parse_details_log root w sh0) as [l ->].
        exists l. cbn. by rewrite <- app_assoc.
      * intros Hq.
        destruct (parse_details_missing_log root w sh0 Hq) as (e & He & Hl).
        exists e. split; [done|by left].
    + split; [apply Hone|]. intros _. apply Hlast. by right.
  - destruct (code =? 404)%Z.
    + split; [apply Hone|]. intros _. apply Hlast. by left.
    + split; [apply Hone|]. intros _. apply Hlast. by right.
  - split; [apply Hone|]. intros _. apply Hlast. by left.
  - split; [apply Hone|]. intros _. apply Hlast. by right.
  - split; [apply Hone|]. intros _. apply Hlast. by right.
Qed.

End WorkerTraces.

(** ** The search of [identify] *)

Section SearchPath.

Import Threads.
Context {float : Type}.
Variable H : Host float.
Variable W : World.

Lemma request_of_workers_for matches :
  Forall (fun q : requester * ustr * nat =>
            exists i url, matches !! i = Some url /\ q = (Thread i, url, 20))
         (request_of <$> Aladin.workers_for matches).
Proof.
  apply Forall_forall. intros q Hq.
  apply list_elem_of_fmap in Hq as (w & -> & Hw).
  apply workers_for_elem in Hw as (i & url & Hurl & ->).
  by exists i, url.
Qed.

Lemma workers_for_nil matches : Aladin.workers_for matches = [] -> matches = [].
Proof. by destruct matches. Qed.

(** With no worker to start, lines 96 to 118 add to the log only. *)
Lemma run_workers_nil (s s' : @Sys float) :
  pending s = [] ->
  Aladin.run_workers H W [] s = Some s' ->
  queue (shared s') = queue (shared s) /\ cache (shared s') = cache (shared s).
Proof.
  intros Hp. unfold Aladin.run_workers. cbn [Aladin.workers_for imap
    Aladin.start_all fold_left Aladin.join_loop Aladin.join_pass].
  unfold abort_is_set. destruct (abort_now W _); cbn [negb]; by intros [= <-].
Qed.

Lemma fetch_boot url timeout t0 (sh : Shared float) tr :
  Aladin.fetch H W url timeout
    {| now := t0; shared := sh; pending := []; trace := tr |}
  = (respond W Caller url timeout,
     {| now := t0 + latency W Caller url; shared := sh; pending := [];
        trace := tr ++ [ERequest Caller url timeout] |}).
Proof. reflexivity. Qed.

(** What lines 93 to 118 make of a list of matches, from a state without
    running threads. *)
Lemma dispatch_boot matches t1 (sh : Shared float) tr :
  let s := {| now := t1; shared := sh; pending := []; trace := tr |} in
  exists s' evs,
    Aladin.dispatch H W matches s = Some (Ret None, s')
    /\ trace s' = tr ++ evs
    /\ requests evs = (if abort_now W s then []
                       else request_of <$> Aladin.workers_for matches)
    /\ starts evs = (if abort_now W s then [] else Aladin.workers_for matches)
    /\ (starts evs = [] ->
        queue (shared s') = queue sh /\ cache (shared s') = cache sh).
Proof.
  intros s.
  assert (settled s) as Hs by constructor.
  destruct (dispatch_spec H W matches s Hs) as (s' & Hd & Hab & Hrun).
  destruct (abort_now W s) eqn:Habort.
  - pose proof (Hab eq_refl) as ->.
    exists (emit (EAbortIsSet true) s), [EAbortIsSet true].
    split; [exact Hd|]. done.
  - specialize (Hrun eq_refl).
    destruct (run_workers_spec H W matches (emit (EAbortIsSet false) s) Hs)
      as (s'' & Hrun' & _ & _ & _ & _ & evs & Htr & Hst & Hrq & _).
    rewrite Hrun in Hrun'. injection Hrun' as <-.
    exists s', (EAbortIsSet false :: EPrint "  Matches are: " (VList matches)
                  :: evs).
    split; [done|]. split.
    { rewrite Htr. cbn [emit trace s]. by rewrite <- app_assoc. }
    split; [exact Hrq|]. split; [exact Hst|].
    cbn [starts omap list_omap]. fold (starts evs). rewrite Hst.
    intros Hnil. apply workers_for_nil in Hnil. subst matches.
    by apply run_workers_nil in Hrun.
Qed.

(** X8: A call without an isbn that gets as far as a query sends that query
    once, from the calling thread and with the time limit of the call;
    every later request is a worker's, for one of the matches and with
    a limit of 20 seconds.  When [open_novisit] raises, the call returns
    the text of the exception; when [read()] raises or the page does not
    parse, it returns a message; and in every other case it returns
    [None]:
    after an empty page, when [abort] is set once the answer is there,
    and after the workers have run, whatever they found.  Workers are
    started only for the matches of a page that parsed, and without a
    worker the queue and the cache stay as they were. *)
Theorem identify_search_outcomes (title : option ustr)
  (authors : option (list ustr)) (identifiers : gmap string ustr)
  (timeout t0 : nat) (sh : Shared float) (query : ustr) :
  Py.truthy_opt (identifiers !! "isbn"%string) = false ->
  Aladin._create_query H title authors identifiers = Ret (Some query) ->
  let answer := respond W Caller query timeout in
  let t1 := t0 + latency W Caller query in
  exists r s' evs,
    Aladin.identify H W title authors identifiers timeout (boot t0 sh)
    = Some (r, s')
    /\ trace s' = EPrint "Querying " (VStr query)
                  :: ERequest Caller query timeout :: evs
    /\ Forall (fun q => exists i url, q = (Thread i, url, 20)) (requests evs)
    /\ match answer with
       | Body raw =>
           let page := euc_kr_decode H (Py.strip_bytes raw) in
           if Py.truthy page
           then match fromstring H (clean_ascii_chars H page) with
                | Some root =>
                    r = Ret None
                    /\ starts evs
                       = if abort_now W (boot t1 sh) then []
                         else Aladin.workers_for
                                (Aladin._parse_search_results root [])
                | None =>
                    r = Ret (Some (u "Failed to parse Aladin page for query"))
                    /\ evs = []
                end
           else r = Ret None /\ evs = []
       | ReadError =>
           r = Ret (Some (u "Failed to parse Aladin page for query"))
           /\ evs = []
       | e => r = Ret (Some (as_unicode H e)) /\ evs = []
       end
    /\ (starts evs = [] ->
        queue (shared s') = queue sh /\ cache (shared s') = cache sh).
Proof.
  intros Hisbn Hquery answer t1. unfold Aladin.identify.
  rewrite Hisbn, Hquery. unfold boot, tell, emit. cbn [now shared pending trace].
  rewrite fetch_boot. fold answer. cbn [app].
  destruct answer as [raw|code| | |] eqn:Hanswer;
    try (eexists _, _, []; repeat split; done).
  cbv zeta. destruct (Py.truthy _) eqn:Hpage; cbn [negb];
    [|eexists _, _, []; repeat split; done].
  destruct (fromstring H _) as [root|];
    [|eexists _, _, []; repeat split; done].
  edestruct (dispatch_boot (Aladin._parse_search_results root []) t1)
    as (s' & evs & Hd & Htr & Hrq & Hst & Hsame).
  rewrite Hd. exists (Ret None), s', evs.
  split; [done|]. split; [exact Htr|]. split.
  { rewrite Hrq. destruct (abort_now W _); [constructor|].
    eapply Forall_impl; [apply request_of_workers_for|].
    intros q (i & url & _ & ->). eauto. }
  split; [|exact Hsame]. split; [done|]. exact Hst.
Qed.

(** X9: When [abort] is set before the call, [identify] starts no worker and
    leaves the queue and the cache as they are; but a call without an
    isbn still sends its search request, for [abort] is looked at only
    after the search. *)
Theorem abort_before_call (title : option ustr)
  (authors : option (list ustr)) (identifiers : gmap string ustr)
  (timeout t0 : nat) (sh : Shared float) (ta : nat) :
  abort_at W = Some ta -> ta <= t0 ->
  exists r s',
    Aladin.identify H W title authors identifiers timeout (boot t0 sh)
    = Some (r, s')
    /\ starts (trace s') = []
    /\ queue (shared s') = queue sh
    /\ cache (shared s') = cache sh
    /\ requests (trace s')
       = if Py.truthy_opt (identifiers !! "isbn"%string) then []
         else match Aladin._create_query H title authors identifiers with
              | Ret (Some query) => [(Caller, query, timeout)]
              | _ => []
              end.
Proof.
  intros Hta Hle.
  assert (forall t (sh' : Shared float) tr, t0 <= t ->
            abort_now W {| now := t; shared := sh'; pending := [];
                           trace := tr |} = true) as Hab.
  { intros t sh' tr Ht. unfold abort_now. rewrite Hta. cbn [now].
    apply Nat.leb_le. lia. }
  unfold Aladin.identify.
  destruct (Py.truthy_opt (identifiers !! "isbn"%string)).
  { unfold Aladin.dispatch, abort_is_set, boot. rewrite Hab by lia.
    eexists _, _. split; [reflexivity|]. done. }
  destruct (Aladin._create_query H title authors identifiers)
    as [[query|]|e]; [|by eexists _, _..].
  unfold boot, tell, emit. cbn [now shared pending trace].
  rewrite fetch_boot.
  destruct (respond W Caller query timeout) as [raw|code| | |];
    try (eexists _, _; split; [reflexivity|]; done).
  cbv zeta. destruct (negb (Py.truthy _));
    [eexists _, _; split; [reflexivity|]; done|].
  destruct (fromstring H _) as [root|];
    [|eexists _, _; split; [reflexivity|]; done].
  unfold Aladin.dispatch, abort_is_set. rewrite Hab by lia.
  eexists _, _. split; [reflexivity|]. done.
Qed.

End SearchPath.

(** ** Counting records and workers *)

Section Counting.

Import Threads.
Context {float : Type}.
Variable H : Host float.
Variable W : World.
Variable n : nat.

Implicit Types (s : @Sys float) (sh : Shared float).

Lemma settle_count t l : forall sh,
  length (queue (settle H W t l sh).2) + length (settle H W t l sh).1
  <= length (queue sh) + length l.
Proof.
  induction l as [|x l IH]; intros sh; [done|]. cbn [settle].
  destruct (th_finish x <=? t).
  - etrans; [apply IH|]. cbn [length].
    destruct (run_queue_cases H W (th_worker x) sh) as [->|[mi ->]];
      rewrite ?length_app; cbn [length]; lia.
  - specialize (IH sh). destruct (settle H W t l sh) as [l' sh'].
    cbn [fst snd length] in *. lia.
Qed.

Lemma starts_app evs evs' : starts (evs ++ evs') = starts evs ++ starts evs'.
Proof. apply omap_app. Qed.

Lemma accounted_advance t s : accounted n s -> accounted n (advance H W t s).
Proof.
  unfold accounted, advance. intros Hs.
  pose proof (settle_count t (pending s) (shared s)) as Hc.
  destruct (settle H W t (pending s) (shared s)) as [l sh].
  cbn [shared pending trace fst snd] in *. lia.
Qed.

Lemma accounted_emit e s : accounted n s -> accounted n (emit e s).
Proof.
  unfold accounted. cbn [emit shared pending trace].
  rewrite starts_app, length_app. lia.
Qed.

Lemma accounted_tell e s : accounted n s -> accounted n (tell e s).
Proof. done. Qed.

Lemma length_enroll th l : length (enroll th l) = S (length l).
Proof.
  induction l as [|x l IH]; [done|]. cbn [enroll].
  destruct (th_finish th <? th_finish x); cbn [length]; by rewrite ?IH.
Qed.

Lemma accounted_start w s : accounted n s -> accounted n (start H W w s).
Proof.
  intros Hs. unfold start, request_of. cbn [emit now shared pending trace].
  apply accounted_advance. unfold accounted in *.
  cbn [shared pending trace]. rewrite length_enroll, !starts_app, !length_app.
  cbn. lia.
Qed.

Lemma accounted_sleep ms s : accounted n s -> accounted n (sleep H W ms s).
Proof. intros Hs. by apply accounted_advance, accounted_emit. Qed.

Lemma accounted_join w ms s : accounted n s -> accounted n (join H W w ms s).
Proof.
  intros Hs. unfold join. cbn [emit pending now].
  destruct (finish_of _ _).
  - by apply (accounted_advance _ (emit _ s)), accounted_emit.
  - by apply accounted_emit.
Qed.

Lemma accounted_start_all ws : forall s,
  accounted n s -> accounted n (Aladin.start_all H W ws s).
Proof.
  induction ws as [|w ws IH]; intros s Hs; [done|].
  cbn [Aladin.start_all fold_left]. by apply IH, accounted_sleep, accounted_start.
Qed.

Lemma accounted_join_pass ws : forall a s a' s',
  accounted n s ->
  Aladin.join_pass H W ws a s = (a', s') -> accounted n s'.
Proof.
  induction ws as [|w ws IH]; intros a s a' s' Hs; cbn [Aladin.join_pass].
  - by intros [= <- <-].
  - unfold abort_is_set, is_alive. destruct (abort_now W _).
    + intros [= <- <-]. by apply accounted_emit, accounted_join.
    + apply IH. by do 2 apply accounted_emit; apply accounted_join.
Qed.

Lemma accounted_join_loop fuel : forall ws s s',
  accounted n s ->
  Aladin.join_loop H W fuel ws s = Some s' -> accounted n s'.
Proof.
  induction fuel as [|fuel IH]; intros ws s s' Hs; [done|].
  cbn [Aladin.join_loop]. unfold abort_is_set.
  destruct (abort_now W s).
  { intros [= <-]. by apply accounted_emit. }
  destruct (Aladin.join_pass H W ws false _) as [a' s1] eqn:Hpass.
  apply accounted_join_pass in Hpass; [|by apply accounted_emit].
  destruct a'; cbn [negb]; [by apply IH|by intros [= <-]].
Qed.

Lemma accounted_dispatch matches s r s' :
  accounted n s ->
  Aladin.dispatch H W matches s = Some (r, s') -> accounted n s'.
Proof.
  intros Hs. unfold Aladin.dispatch, abort_is_set.
  destruct (abort_now W s).
  { intros [= <- <-]. by apply accounted_emit. }
  destruct (Aladin.run_workers H W matches _) as [s1|] eqn:Hrun; [|done].
  intros [= <- <-]. unfold Aladin.run_workers in Hrun.
  apply accounted_join_loop in Hrun; [done|].
  by apply accounted_start_all, accounted_emit, accounted_tell, accounted_emit.
Qed.

Lemma accounted_identify title authors identifiers timeout s r s' :
  accounted n s ->
  Aladin.identify H W title authors identifiers timeout s = Some (r, s') ->
  accounted n s'.
Proof.
  intros Hs. unfold Aladin.identify.
  destruct (Py.truthy_opt _); [by apply accounted_dispatch|].
  destruct (Aladin._create_query H title authors identifiers) as [[query|]|e];
    [|by intros [= <- <-]..].
  set (s0 := emit _ (tell _ s)).
  assert (accounted n (Aladin.fetch H W query timeout s0).2) as H1.
  { unfold Aladin.fetch. cbn [snd].
    by apply (accounted_advance _ (emit _ s0)), accounted_emit, accounted_emit. }
  destruct (Aladin.fetch H W query timeout s0) as [rr s1]. cbn [snd] in H1.
  destruct rr as [raw|code| | |]; try by intros [= <- <-].
  destruct (negb _); [by intros [= <- <-]|].
  destruct (fromstring H _) as [root|]; [|by intros [= <- <-]].
  by apply accounted_dispatch.
Qed.

End Counting.

Section CountingCalls.

Import Threads.
Context {float : Type}.
Variable H : Host float.
Variable W : World.

(** X10: [identify] only adds to the queue, and it adds one record at most
    for each worker it has started, none for a worker that is still
    running when the call returns; a call with an isbn adds one record
    at most. *)
Theorem records_at_most_workers (title : option ustr)
  (authors : option (list ustr)) (identifiers : gmap string ustr)
  (timeout t0 : nat) (sh : Shared float) :
  exists r s' l,
    Aladin.identify H W title authors identifiers timeout (boot t0 sh)
    = Some (r, s')
    /\ queue (shared s') = queue sh ++ l
    /\ length l + length (pending s') <= length (starts (trace s'))
    /\ (Py.truthy_opt (identifiers !! "isbn"%string) = true -> length l <= 1).
Proof.
  destruct (identify_returns H W title authors identifiers timeout (boot t0 sh))
    as [[r s'] Hid]; [apply boot_settled|].
  destruct (evolves_identify H W (fun _ => True) title authors identifiers
              timeout (boot t0 sh) r s') as [[_ (l & Hq & _)] _];
    [done|by constructor|done|].
  assert (accounted (length (queue sh)) s') as Hacc.
  { eapply accounted_identify; [|exact Hid]. unfold accounted. cbn. lia. }
  unfold accounted in Hacc. rewrite Hq, length_app in Hacc.
  exists r, s', l. split; [done|]. split; [done|]. split; [cbn in *; lia|].
  intros Hisbn. unfold Aladin.identify in Hid. rewrite Hisbn in Hid.
  edestruct (dispatch_boot H W
               ([] ++ [Aladin.isbn_url (default [] (identifiers !! "isbn"%string))])
               t0 sh []) as (s'' & evs & Hd & Htr & _ & Hst & _).
  unfold boot in Hid. rewrite Hd in Hid. injection Hid as <- <-.
  rewrite Htr in Hacc. cbn [app] in Hacc. rewrite Hst in Hacc.
  destruct (abort_now W _); cbn in Hacc; lia.
Qed.

End CountingCalls.

(** ** How long the workers are waited for *)

Section Timing.

Import Threads.
Context {float : Type}.
Variable H : Host float.
Variable W : World.

Implicit Types (s : @Sys float) (sh : Shared float).

Lemma start_all_now ws : forall s,
  now (Aladin.start_all H W ws s) = now s + 100 * length ws.
Proof.
  induction ws as [|w ws IH]; intros s; cbn [Aladin.start_all fold_left length].
  - lia.
  - fold (Aladin.start_all H W ws (sleep H W 100 (start H W w s))).
    rewrite IH.
    destruct (sleep_spec H W 100 (start H W w s)) as (_ & _ & -> & _).
    destruct (start_spec H W w s) as (_ & _ & -> & _). lia.
Qed.

Lemma start_pending w s th :
  th ∈ pending (start H W w s) ->
  th ∈ pending s
  \/ th_finish th = now s + latency W (Thread (Worker.ident w)) (Worker.url w).
Proof.
  unfold start, request_of. cbn [emit now shared pending trace].
  intros Hth. apply advance_subseteq in Hth. cbn [pending] in Hth.
  apply elem_of_enroll in Hth as [->|Hth]; [by right|by left].
Qed.

Lemma start_all_pending ws : forall s th,
  th ∈ pending (Aladin.start_all H W ws s) ->
  th ∈ pending s
  \/ exists i w,
       ws !! i = Some w
       /\ th_finish th
          = now s + 100 * i + latency W (Thread (Worker.ident w)) (Worker.url w).
Proof.
  induction ws as [|w ws IH]; intros s th; cbn [Aladin.start_all fold_left].
  - by left.
  - fold (Aladin.start_all H W ws (sleep H W 100 (start H W w s))).
    intros Hth. apply IH in Hth as [Hth|(i & w' & Hi & Hf)].
    + destruct (sleep_spec H W 100 (start H W w s)) as (_ & _ & _ & Hsub).
      apply Hsub, start_pending in Hth as [Hth|Hf]; [by left|].
      right. exists 0, w. split; [done|]. lia.
    + right. exists (S i), w'. split; [done|]. rewrite Hf.
      destruct (sleep_spec H W 100 (start H W w s)) as (_ & _ & -> & _).
      destruct (start_spec H W w s) as (_ & _ & -> & _). lia.
Qed.

Lemma join_pending w ms s : pending (join H W w ms s) ⊆ pending s.
Proof.
  unfold join. cbn [emit pending now].
  destruct (finish_of _ _); [|done]. apply (advance_subseteq _ _ _ (emit _ s)).
Qed.

Lemma join_now_le w ms s : now (join H W w ms s) <= now s + ms.
Proof.
  unfold join. cbn [emit pending now].
  destruct (finish_of _ _); [|cbn; lia]. rewrite advance_now. cbn. lia.
Qed.

Lemma within_join m w ms s : within m s -> within m (join H W w ms s).
Proof.
  intros [Hnow Hall]. split.
  - unfold join. cbn [emit pending now].
    destruct (finish_of _ _) as [f|] eqn:Hf; [|done].
    rewrite advance_now.
    apply finish_of_elem in Hf as (th & Hth & _ & <-).
    pose proof (proj1 (Forall_forall _ _) Hall th Hth) as Hle.
    cbn beta in Hle. lia.
  - apply Forall_forall. intros th Hth. apply join_pending in Hth.
    by apply (proj1 (Forall_forall _ _) Hall).
Qed.

Lemma within_join_pass m ws : forall a s a' s',
  within m s -> Aladin.join_pass H W ws a s = (a', s') -> within m s'.
Proof.
  induction ws as [|w ws IH]; intros a s a' s' Hs; cbn [Aladin.join_pass].
  - by intros [= <- <-].
  - unfold abort_is_set, is_alive. pose proof (within_join m w 200 s Hs) as H1.
    destruct (abort_now W _).
    + by intros [= <- <-].
    + by apply IH.
Qed.

Lemma within_join_loop m fuel : forall ws s s',
  within m s -> Aladin.join_loop H W fuel ws s = Some s' -> within m s'.
Proof.
  induction fuel as [|fuel IH]; intros ws s s' Hs; [done|].
  cbn [Aladin.join_loop]. unfold abort_is_set.
  destruct (abort_now W s); [by intros [= <-]|].
  destruct (Aladin.join_pass H W ws false _) as [a' s1] eqn:Hpass.
  apply (within_join_pass m) in Hpass; [|done].
  destruct a'; cbn [negb]; [by apply IH|by intros [= <-]].
Qed.

(** Once [abort] is set, the loop is left at the next look at it, and a
    join lasts 200 ms at most. *)
Lemma join_pass_abort ta ws : forall a s a' s',
  abort_at W = Some ta ->
  now s < ta ->
  Aladin.join_pass H W ws a s = (a', s') ->
  now s' <= ta + 200 /\ (abort_now W s' = false -> now s' < ta).
Proof.
  intros a s a' s' Hta. revert a s a' s'.
  assert (forall s, abort_now W s = false -> now s < ta) as Hnot.
  { intros s. unfold abort_now. rewrite Hta.
    destruct (Nat.leb_spec ta (now s)); [done|lia]. }
  induction ws as [|w ws IH]; intros a s a' s' Hnow; cbn [Aladin.join_pass].
  - intros [= <- <-]. split; [lia|done].
  - unfold abort_is_set, is_alive.
    pose proof (join_now_le w 200 s) as Hle.
    destruct (abort_now W (join H W w 200 s)) eqn:Hab.
    + intros [= <- <-]. cbn [emit now]. split; [lia|].
      change (abort_now W (emit (EAbortIsSet true) (join H W w 200 s)))
        with (abort_now W (join H W w 200 s)). by rewrite Hab.
    + apply IH. cbn [emit now]. by apply Hnot.
Qed.

Lemma join_loop_abort_bound ta fuel : forall ws s s',
  abort_at W = Some ta ->
  Aladin.join_loop H W fuel ws s = Some s' ->
  now s' <= Nat.max (now s) (ta + 200).
Proof.
  intros ws s s' Hta. revert ws s s'.
  induction fuel as [|fuel IH]; intros ws s s'; [done|].
  cbn [Aladin.join_loop]. unfold abort_is_set.
  destruct (abort_now W s) eqn:Hab.
  { intros [= <-]. cbn [emit now]. lia. }
  destruct (Aladin.join_pass H W ws false _) as [a' s1] eqn:Hpass.
  apply (join_pass_abort ta) in Hpass as [Hle _]; [|done|].
  2:{ cbn [emit now]. unfold abort_now in Hab. rewrite Hta in Hab.
      by apply Nat.leb_gt in Hab. }
  destruct a'; cbn [negb].
  - intros Hloop. apply IH in Hloop. lia.
  - intros [= <-]. lia.
Qed.

(** X11: Lines 96 to 118, from a state without running threads at [t0].  A
    worker is started every 100 ms, so that the stage lasts for 100 ms
    for each match at least, also when [abort] is set meanwhile.  It
    ends when the last worker has ended at the latest; and when [abort]
    is set at [ta], it ends 200 ms later at the latest, unless the
    workers are still being started. *)
Theorem worker_stage_timing (matches : list ustr) (t0 : nat)
  (sh : Shared float) (tr : list event) :
  let s := {| now := t0; shared := sh; pending := []; trace := tr |} in
  let started := t0 + 100 * length matches in
  exists s',
    Aladin.run_workers H W matches s = Some s'
    /\ started <= now s'
    /\ (forall m,
          started <= m -> Forall (fun f => f <= m) (ends W t0 matches) ->
          now s' <= m)
    /\ (forall ta, abort_at W = Some ta ->
          now s' <= Nat.max started (ta + 200)).
Proof.
  intros s started. unfold Aladin.run_workers.
  set (s0 := emit _ (tell _ s)).
  set (ws := Aladin.workers_for matches).
  assert (settled s0) as Hs0 by constructor.
  destruct (start_all_spec H W ws s0 Hs0) as (_ & Hs1 & _ & _).
  pose proof (start_all_now ws s0) as Hnow1.
  pose proof (start_all_pending ws s0) as Hp1.
  set (s1 := Aladin.start_all H W ws s0) in *.
  assert (now s1 = started) as Hstarted.
  { rewrite Hnow1. unfold started, ws, Aladin.workers_for.
    by rewrite length_imap. }
  destruct (join_loop_returns H W (S (Aladin.horizon s1 - now s1)) ws s1 Hs1
              ltac:(lia)) as [s' Hloop].
  exists s'. split; [done|].
  destruct (join_loop_spec H W _ ws s1 s' Hs1 Hloop) as (_ & Hnow & _).
  split; [lia|]. split.
  - intros m Hm Hends.
    apply (within_join_loop m) in Hloop; [by destruct Hloop|].
    split; [lia|]. apply Forall_forall. intros th Hth.
    apply Hp1 in Hth as [Hth|(i & w & Hi & ->)].
    { by apply elem_of_nil in Hth. }
    apply workers_for_lookup in Hi as (url & Hurl & ->).
    apply (proj1 (Forall_forall _ _) Hends).
    apply list_elem_of_lookup. exists i. unfold ends.
    rewrite list_lookup_imap, Hurl. done.
  - intros ta Hta. apply (join_loop_abort_bound ta) in Hloop; [|done]. lia.
Qed.

End Timing.


(** ** The characters of a query *)

Section QueryText.

Context {float : Type}.
Variable H : Host float.

Lemma quote_safe_url_char c : Py.quote_safe c = true -> url_char c = true.
Proof. unfold url_char. by intros ->. Qed.

Lemma url_char_ascii c :
  url_char c = true -> Py.isspace c = false /\ (c < 128)%N.
Proof.
  unfold url_char, Py.quote_safe, Py.isdigit. intros Hc.
  apply orb_true_iff in Hc as [Hc|Hc].
  - assert (45 <= c <= 122)%N as Hr.
    { repeat (apply orb_true_iff in Hc as [Hc|Hc]);
        try (apply andb_true_iff in Hc as [?%N.leb_le ?%N.leb_le]; lia);
        apply N.eqb_eq in Hc; lia. }
    split; [|lia]. unfold Py.isspace.
    repeat (apply orb_false_iff; split);
      try (apply andb_false_iff; right; apply N.leb_gt; lia);
      try (apply andb_false_iff; left; apply N.leb_gt; lia);
      apply N.eqb_neq; lia.
  - apply bool_decide_eq_true in Hc.
    repeat (apply elem_of_cons in Hc as [->|Hc]); [by vm_compute..|].
    by apply elem_of_nil in Hc.
Qed.

Lemma hexdigit_safe d : (d < 16)%N -> Py.quote_safe (Py.hexdigit d) = true.
Proof.
  intros Hd. unfold Py.quote_safe, Py.isdigit, Py.hexdigit.
  destruct (N.ltb_spec d 10).
  - assert ((48 <=? 48 + d)%N && (48 + d <=? 57)%N = true) as ->; [|by rewrite !orb_true_r].
    apply andb_true_iff. split; apply N.leb_le; lia.
  - assert ((65 <=? 55 + d)%N && (55 + d <=? 90)%N = true) as ->; [|done].
    apply andb_true_iff. split; apply N.leb_le; lia.
Qed.

Lemma quote_url_chars b :
  Forall (fun c => (c < 256)%N) b -> forallb url_char (Py.quote b) = true.
Proof.
  unfold Py.quote. induction 1 as [|c b Hc _ IH]; [done|].
  cbn [flat_map]. rewrite forallb_app, IH, andb_true_r.
  destruct (Py.quote_safe c) eqn:Hsafe; cbn [forallb].
  - by rewrite (quote_safe_url_char c Hsafe).
  - rewrite !(quote_safe_url_char (Py.hexdigit _)); [done|..].
    + apply hexdigit_safe. by apply N.mod_lt.
    + apply hexdigit_safe. apply N.Div0.div_lt_upper_bound. lia.
Qed.

Lemma join_url_chars l :
  Forall (fun t => forallb url_char t = true) l ->
  forallb url_char (Py.join (u "+") l) = true.
Proof.
  induction 1 as [|t l Ht Hl IH]; [done|]. cbn [Py.join].
  destruct l as [|t' l]; [done|].
  rewrite !forallb_app, Ht, IH. done.
Qed.

(** X12: Without a valid isbn, a query that [_create_query] returns is made
    of letters, digits and the characters [_.-/%&+:=?] only, given that
    the codec encodes to octets: no blank and no character beyond ASCII
    is sent to the site. *)
Theorem query_is_url_safe (title : option ustr) (authors : option (list ustr))
  (identifiers : gmap string ustr) (query : ustr) :
  (forall t b, euc_kr_encode H t = Some b -> Forall (fun c => (c < 256)%N) b) ->
  check_isbn H (identifiers !! "isbn"%string) = None ->
  Aladin._create_query H title authors identifiers = Ret (Some query) ->
  forallb url_char query = true
  /\ Forall (fun c => Py.isspace c = false /\ (c < 128)%N) query.
Proof.
  intros Hoct Hck. rewrite (create_query_tokens H title authors identifiers Hck).
  destruct (mapM (euc_kr_encode H) (query_tokens title authors))
    as [[|e0 encoded]|] eqn:Henc; [done| |done].
  intros [= <-].
  assert (forallb url_char
            (Aladin.SEARCH_URL ++ u "&SearchWord="
             ++ Py.join (u "+") (Py.quote <$> e0 :: encoded)) = true) as Hall.
  { rewrite !forallb_app. apply andb_true_iff. split; [by vm_compute|].
    apply andb_true_iff. split; [by vm_compute|].
    apply join_url_chars, Forall_fmap, Forall_forall. intros b Hb.
    cbn beta. apply quote_url_chars.
    apply mapM_Some in Henc.
    apply list_elem_of_lookup in Hb as [i Hi].
    destruct (Forall2_lookup_r _ _ _ _ _ Henc Hi) as (t & _ & Ht).
    by apply (Hoct t). }
  split; [exact Hall|].
  apply Forall_forall. intros c Hc. apply list_elem_of_In in Hc.
  apply (proj1 (forallb_forall _ _) Hall) in Hc.
  by apply url_char_ascii.
Qed.

End QueryText.

(** ** A lookup by isbn is one run of a worker *)

Section OneWorker.

Import Threads.
Context {float : Type}.
Variable H : Host float.
Variable W : World.

Implicit Types (s : @Sys float) (sh : Shared float).

(** What a worker does to the queue and the cache depends on nothing
    else of the shared objects. *)
Lemma run_independent w sh sh2 :
  queue sh = queue sh2 -> cache sh = cache sh2 ->
  queue (Worker.run H W w sh).2 = queue (Worker.run H W w sh2).2
  /\ cache (Worker.run H W w sh).2 = cache (Worker.run H W w sh2).2.
Proof.
  intros Hq Hc.
  destruct (run_cases H W w sh)
    as [(Hq1 & Hc1 & Hnot1)
       |(root & url_isbn & title & series & series_index & authors
         & Hp & Hi & Ht & Htne & Ha & Hane & Hq1 & Hc1)];
    destruct (run_cases H W w sh2)
      as [(Hq2 & Hc2 & Hnot2)
         |(root' & url_isbn' & title' & series' & series_index' & authors'
           & Hp' & Hi' & Ht' & Htne' & Ha' & Hane' & Hq2 & Hc2)].
  - rewrite Hq1, Hq2, Hc1, Hc2. done.
  - exfalso. apply (Hnot1 root' Hp'). unfold found. eauto 10.
  - exfalso. apply (Hnot2 root Hp). unfold found. eauto 10.
  - rewrite Hp in Hp'. injection Hp' as <-.
    rewrite Hi in Hi'. injection Hi' as <-.
    rewrite Ht in Ht'. injection Ht' as <- <- <-.
    rewrite Ha in Ha'. injection Ha' as <-.
    rewrite Hq1, Hq2, Hc1, Hc2, Hq, Hc. done.
Qed.

Section Invariant.

Variable w : Worker.t.
Variable f : nat.
Variable sh0 : Shared float.

Lemma one_worker_advance t s :
  one_worker H W w f sh0 s -> one_worker H W w f sh0 (advance H W t s).
Proof.
  intros [(Hp & Hq & Hc)|(Hp & Hq & Hc)]; unfold advance; rewrite Hp;
    cbn [settle th_finish th_worker].
  - destruct (f <=? t).
    + right. cbn [pending shared].
      destruct (run_independent w (shared s) sh0 Hq Hc) as [-> ->]. done.
    + by left.
  - by right.
Qed.

Lemma one_worker_emit e s :
  one_worker H W w f sh0 s -> one_worker H W w f sh0 (emit e s).
Proof. done. Qed.

Lemma one_worker_tell e s :
  one_worker H W w f sh0 s -> one_worker H W w f sh0 (tell e s).
Proof. done. Qed.

Lemma one_worker_join w' ms s :
  one_worker H W w f sh0 s -> one_worker H W w f sh0 (join H W w' ms s).
Proof.
  intros Hs. unfold join. cbn [emit pending now].
  destruct (finish_of _ _); [|done].
  by apply (one_worker_advance _ (emit _ s)).
Qed.

Lemma one_worker_join_pass ws : forall a s a' s',
  one_worker H W w f sh0 s ->
  Aladin.join_pass H W ws a s = (a', s') -> one_worker H W w f sh0 s'.
Proof.
  induction ws as [|w' ws IH]; intros a s a' s' Hs; cbn [Aladin.join_pass].
  - by intros [= <- <-].
  - unfold abort_is_set, is_alive.
    pose proof (one_worker_join w' 200 s Hs) as H1.
    destruct (abort_now W _); [by intros [= <- <-]|]. by apply IH.
Qed.

Lemma one_worker_join_loop fuel : forall ws s s',
  one_worker H W w f sh0 s ->
  Aladin.join_loop H W fuel ws s = Some s' -> one_worker H W w f sh0 s'.
Proof.
  induction fuel as [|fuel IH]; intros ws s s' Hs; [done|].
  cbn [Aladin.join_loop]. unfold abort_is_set.
  destruct (abort_now W s); [by intros [= <-]|].
  destruct (Aladin.join_pass H W ws false _) as [a' s1] eqn:Hpass.
  apply one_worker_join_pass in Hpass; [|done].
  destruct a'; cbn [negb]; [by apply IH|by intros [= <-]].
Qed.

End Invariant.

Lemma identify_one_worker (title : option ustr)
  (authors : option (list ustr)) (identifiers : gmap string ustr)
  (timeout t0 : nat) (sh : Shared float) (isbn : ustr) :
  identifiers !! "isbn"%string = Some isbn -> isbn <> [] ->
  abort_at W = None ->
  let w := Worker.init 0 (Aladin.isbn_url isbn) 0 in
  exists s',
    Aladin.identify H W title authors identifiers timeout (boot t0 sh)
    = Some (Ret None, s')
    /\ pending s' = []
    /\ queue (shared s') = queue (Worker.run H W w sh).2
    /\ cache (shared s') = cache (Worker.run H W w sh).2
    /\ requests (trace s') = [(Thread 0, Aladin.isbn_url isbn, 20)].
Proof.
  intros Hisbn Hne Habort w.
  assert (forall s, abort_now W s = false) as Hno
    by (intros s; unfold abort_now; by rewrite Habort).
  unfold Aladin.identify. rewrite Hisbn.
  destruct isbn as [|c isbn]; [done|].
  cbn [Py.truthy_opt Py.truthy default app]. unfold id.
  unfold Aladin.dispatch, abort_is_set. rewrite Hno.
  set (s0 := emit (EAbortIsSet false) (boot t0 sh)).
  destruct (run_workers_spec H W [Aladin.isbn_url (c :: isbn)] s0)
    as (s' & Hrun & _ & _ & _ & Hend & evs & Htr & _ & Hrq & _);
    [by constructor|].
  rewrite Hrun. cbn [mbind option_bind]. exists s'. split; [done|].
  set (f := t0 + latency W (Thread 0) (Aladin.isbn_url (c :: isbn))).
  assert (one_worker H W w f sh s') as Hinv.
  { unfold Aladin.run_workers in Hrun.
    eapply one_worker_join_loop; [|exact Hrun].
    cbn [Aladin.workers_for imap Aladin.start_all fold_left].
    unfold sleep. apply one_worker_advance, one_worker_emit.
    unfold start, request_of.
    cbn [emit tell now shared pending trace s0 boot enroll Worker.ident
         Worker.init Worker.url Worker.timeout].
    apply one_worker_advance. by left. }
  assert (requests (trace s') = [(Thread 0, Aladin.isbn_url (c :: isbn), 20)])
    as Hreq.
  { rewrite Htr. cbn [s0 emit boot trace app requests omap list_omap].
    fold (requests evs). by rewrite Hrq. }
  destruct Hend as [Hab|Hdead]; [by rewrite Hno in Hab|].
  destruct Hinv as [(Hp & _)|(Hp & Hq & Hc)]; [|done].
  exfalso. specialize (Hdead w). unfold alive_now in Hdead.
  rewrite Hp in Hdead. cbn in Hdead.
  assert (w ∈ Aladin.workers_for [Aladin.isbn_url (c :: isbn)]) as Hw
    by (cbn; left).
  specialize (Hdead Hw). discriminate Hdead.
Qed.

(** X13: A call with an isbn, when [abort] is never set, does to the queue
    and to the cache what one run of the worker for the URL of that
    isbn does to them, whatever the title and the authors: it sends the
    one request of that worker and returns [None] with no thread left
    running. *)
Theorem isbn_lookup_runs_worker_once (title : option ustr)
  (authors : option (list ustr)) (identifiers : gmap string ustr)
  (timeout t0 : nat) (sh : Shared float) (isbn : ustr) :
  identifiers !! "isbn"%string = Some isbn -> isbn <> [] ->
  abort_at W = None ->
  let w := Worker.init 0 (Aladin.isbn_url isbn) 0 in
  exists s',
    Aladin.identify H W title authors identifiers timeout (boot t0 sh)
    = Some (Ret None, s')
    /\ pending s' = []
    /\ queue (shared s') = queue (Worker.run H W w sh).2
    /\ cache (shared s') = cache (Worker.run H W w sh).2
    /\ requests (trace s') = [(Thread 0, Aladin.isbn_url isbn, 20)].
Proof. apply identify_one_worker. Qed.


End OneWorker.

(** ** The first cell of the page *)

Section FirstCell.

Lemma elems_walk_head c n :
  exists l, omap XPath.elem_of_item (XPath.walk c n) = (c, n) :: l.
Proof. destruct n as [t a tx kids tl]. cbn [XPath.walk]. by eexists. Qed.

Lemma split_at_app {A} (l1 l2 pre post : list A) x :
  l1 ++ l2 = pre ++ x :: post ->
  (exists post1, l1 = pre ++ x :: post1)
  \/ (exists pre2, pre = l1 ++ pre2 /\ l2 = pre2 ++ x :: post).
Proof.
  revert l1. induction pre as [|p0 pre IH]; intros l1 Heq.
  - destruct l1 as [|y l1].
    + right. by exists [].
    + injection Heq as -> _. left. by exists l1.
  - destruct l1 as [|y l1].
    + right. by exists (p0 :: pre).
    + injection Heq as -> Heq.
      apply IH in Heq as [[post1 ->]|(pre2 & -> & ->)].
      * left. by exists post1.
      * right. by exists pre2.
Qed.

(** The siblings before an element come before it in the document. *)
Lemma walk_kids_before (f : XPath.ctx -> node -> list XPath.item) up kids :
  Forall (fun k => forall c0 pre c x post,
            omap XPath.elem_of_item (f c0 k) = pre ++ (c, x) :: post ->
            (pre = [] /\ c = c0) \/ forall b, b ∈ XPath.before c -> b ∈ pre.*2)
         kids ->
  (forall c0 k, exists l, omap XPath.elem_of_item (f c0 k) = (c0, k) :: l) ->
  forall prev pre c x post,
    omap XPath.elem_of_item (XPath.walk_kids f up prev kids)
    = pre ++ (c, x) :: post ->
    forall b, b ∈ XPath.before c -> b ∈ prev \/ b ∈ pre.*2.
Proof.
  intros Hkids Hhead.
  induction Hkids as [|k kids Hk _ IH]; intros prev pre c x post.
  { cbn. by destruct pre. }
  cbn [XPath.walk_kids].
  rewrite !omap_app, omap_text_item, app_nil_l.
  intros Heq b Hb.
  apply split_at_app in Heq as [[post1 Heq]|(pre2 & -> & Heq)].
  - apply Hk in Heq as [[-> ->]|Hin]; [by left|right; by apply Hin].
  - specialize (IH _ _ _ _ _ Heq b Hb).
    rename IH into Heq'.
    rewrite fmap_app.
    destruct Heq' as [Hin|Hin]; [|right; apply elem_of_app; by right].
    apply elem_of_app in Hin as [Hin|Hin]; [by left|].
    apply list_elem_of_singleton in Hin as ->. right.
    destruct (Hhead {| XPath.anc := up; XPath.before := prev |} k) as [l ->].
    apply elem_of_app. left. rewrite fmap_cons. left.
Qed.

Lemma walk_before n : forall c0 pre c x post,
  omap XPath.elem_of_item (XPath.walk c0 n) = pre ++ (c, x) :: post ->
  (pre = [] /\ c = c0) \/ forall b, b ∈ XPath.before c -> b ∈ pre.*2.
Proof.
  induction n as [t a tx kids tl IH] using node_tree_ind.
  intros c0 pre c x post. cbn [XPath.walk].
  change (omap XPath.elem_of_item (XPath.IElem c0 (Node t a tx kids tl) :: ?l))
    with ((c0, Node t a tx kids tl) :: omap XPath.elem_of_item l).
  rewrite omap_app, omap_text_item, app_nil_l.
  destruct pre as [|p0 pre]; [intros [= <- _]; by left|].
  intros [= <- Heq]. right. intros b Hb.
  eapply walk_kids_before in Heq as [Hin|Hin]; [..|exact Hb].
  - by apply elem_of_nil in Hin.
  - rewrite fmap_cons. by right.
  - exact IH.
  - apply elems_walk_head.
Qed.

Lemma head_filter_first {A} (P Q : A -> bool) (l : list A) :
  (forall pre x post,
     l = pre ++ x :: post -> P x = true ->
     Forall (fun y => P y = false) pre -> Q x = true) ->
  head (filter (fun x => P x && Q x = true) l)
  = head (filter (fun x => P x = true) l).
Proof.
  induction l as [|x l IH]; intros Hfirst; [done|].
  rewrite !filter_cons. destruct (P x) eqn:HP.
  - rewrite (Hfirst [] x l eq_refl HP (Forall_nil_2 _)). cbn [andb].
    by rewrite !decide_True.
  - cbn [andb]. rewrite !decide_False by done. apply IH.
    intros pre y post -> Hy Hpre.
    apply (Hfirst (x :: pre) y post eq_refl Hy). by constructor.
Qed.

(** X15: The cell that the extractors of title, authors, publisher and date
    start from is the first [td] of class [pwrap_bgtit] of the page in
    document order: of [//td[@class="pwrap_bgtit"][1]] the element [0]
    is taken, and the first cell of the page is the first such cell of
    its parent. *)
Theorem bgtit_node_is_first_cell (root : node) :
  Worker.bgtit_node root
  = first (filter (fun n => XPath.is_tag "td" n
                            && XPath.attr_is "class" "pwrap_bgtit" n = true)
                  (XPath.document_order root)).
Proof.
  rewrite <- select_document_order.
  unfold Worker.bgtit_node, XPath.select_first_child, XPath.select.
  set (q := fun n => XPath.is_tag "td" n
                     && XPath.attr_is "class" "pwrap_bgtit" n).
  set (l := XPath.elements root).
  assert (head (filter (fun cn : XPath.ctx * node =>
                          q cn.2 && negb (existsb q (XPath.before cn.1)) = true) l)
          = head (filter (fun cn : XPath.ctx * node => q cn.2 = true) l)) as Hh.
  { apply (head_filter_first (fun cn : XPath.ctx * node => q cn.2)
             (fun cn => negb (existsb q (XPath.before cn.1)))).
    intros pre [c x] post Hl _ Hpre. cbn [fst].
    apply negb_true_iff. apply not_true_is_false. intros Hex.
    apply existsb_exists in Hex as (b & Hb & Hqb).
    apply list_elem_of_In in Hb.
    apply walk_before in Hl as [[-> ->]|Hin].
    - by apply elem_of_nil in Hb.
    - apply Hin in Hb. apply list_elem_of_fmap in Hb as ([c' b'] & -> & Hb).
      pose proof (proj1 (Forall_forall _ _) Hpre _ Hb) as Hnot.
    cbn beta in Hnot. congruence. }
  assert (forall l1 l2 : list (XPath.ctx * node),
            head l1 = head l2 -> first (l1.*2) = first (l2.*2)) as Hfirst.
  { intros [|a l1] [|b l2]; try done. by intros [= ->]. }
  apply Hfirst. exact Hh.
Qed.

End FirstCell.

(** ** Sample runs of the further properties *)

Section FurtherRuns.

Import Threads.

Lemma extract_isbn_sound_witness :
  Worker.extract_isbn Sample.product_url = Ret (u "8983920688")
  /\ exists pre post,
       Sample.product_url = pre ++ u "ISBN=" ++ u "8983920688" ++ post.
Proof.
  assert (Worker.extract_isbn Sample.product_url = Ret (u "8983920688")) as Hx
    by reflexivity.
  split; [exact Hx|].
  destruct (extract_isbn_sound Sample.product_url (u "8983920688") Hx)
    as (_ & _ & pre & post & Hurl & _).
  exists pre, post. exact Hurl.
Defined.

Lemma convert_date_text_sound_witness :
  Worker._convert_date_text (u " | 1999-11-19")
  = Ret {| dt_year := 1999; dt_month := 11; dt_day := 19 |}
  /\ exists pre y m d post,
       u " | 1999-11-19" = pre ++ y ++ u "-" ++ m ++ u "-" ++ d ++ post
       /\ length y = 4 /\ length m = 2 /\ length d = 2.
Proof.
  assert (Worker._convert_date_text (u " | 1999-11-19")
          = Ret {| dt_year := 1999; dt_month := 11; dt_day := 19 |}) as Hx
    by (vm_compute; reflexivity).
  split; [exact Hx|].
  destruct (convert_date_text_sound _ _ Hx)
    as (pre & y & m & d & post & Htext & Hy & Hm & Hd & _).
  exists pre, y, m, d, post. repeat split; assumption.
Defined.


Lemma identify_search_outcomes_witness :
  exists r s' evs,
    Aladin.identify (Sample.host Sample.og_isbn13) (Sample.world None)
      (Some (u "Harry Potter")) None ∅ 30 (boot 0 Sample.nothing)
    = Some (r, s')
    /\ trace s'
       = EPrint "Querying "
           (VStr (u "http://www.aladin.co.kr/search/wsearchresult.aspx?SearchTarget=Book&SearchWord=Harry+Potter"))
         :: ERequest Caller
              (u "http://www.aladin.co.kr/search/wsearchresult.aspx?SearchTarget=Book&SearchWord=Harry+Potter")
              30
         :: evs
    /\ Forall (fun q => exists i url, q = (Thread i, url, 20)) (requests evs).
Proof.
  destruct (identify_search_outcomes (Sample.host Sample.og_isbn13)
              (Sample.world None) (Some (u "Harry Potter")) None ∅ 30 0
              Sample.nothing
              (u "http://www.aladin.co.kr/search/wsearchresult.aspx?SearchTarget=Book&SearchWord=Harry+Potter"))
    as (r & s' & evs & Hid & Htr & Hreq & _);
    [vm_compute; reflexivity|vm_compute; reflexivity|].
  exists r, s', evs. split; [exact Hid|]. split; [exact Htr|exact Hreq].
Defined.

Lemma abort_before_call_witness :
  exists r s',
    Aladin.identify (Sample.host Sample.og_isbn13) (Sample.world (Some 0))
      (Some (u "Harry Potter")) None ∅ 30 (boot 0 Sample.nothing)
    = Some (r, s')
    /\ starts (trace s') = []
    /\ queue (shared s') = []
    /\ requests (trace s')
       = [(Caller,
           u "http://www.aladin.co.kr/search/wsearchresult.aspx?SearchTarget=Book&SearchWord=Harry+Potter",
           30)].
Proof.
  destruct (abort_before_call (Sample.host Sample.og_isbn13)
              (Sample.world (Some 0)) (Some (u "Harry Potter")) None ∅ 30 0
              Sample.nothing 0)
    as (r & s' & Hid & Hst & Hq & _ & Hreq); [reflexivity|lia|].
  exists r, s'. split; [exact Hid|]. split; [exact Hst|].
  split; [exact Hq|]. exact Hreq.
Defined.

Lemma sample_codec_octets og_url t b :
  euc_kr_encode (Sample.host og_url) t = Some b ->
  Forall (fun c => (c < 256)%N) b.
Proof.
  cbn. destruct (forallb _ t) eqn:Hall; [|done]. intros [= <-].
  apply Forall_forall. intros c Hc. apply list_elem_of_In in Hc.
  apply (proj1 (forallb_forall _ _) Hall) in Hc.
  apply N.ltb_lt in Hc. lia.
Qed.

Lemma query_is_url_safe_witness :
  Aladin._create_query (Sample.host Sample.og_isbn13)
    (Some (u "Tom & Jerry")) (Some [u "J K"]) ∅
  = Ret (Some (u "http://www.aladin.co.kr/search/wsearchresult.aspx?SearchTarget=Book&SearchWord=Tom+%26+Jerry+J+K"))
  /\ forallb url_char
       (u "http://www.aladin.co.kr/search/wsearchresult.aspx?SearchTarget=Book&SearchWord=Tom+%26+Jerry+J+K")
     = true.
Proof.
  assert (Aladin._create_query (Sample.host Sample.og_isbn13)
            (Some (u "Tom & Jerry")) (Some [u "J K"]) ∅
          = Ret (Some (u "http://www.aladin.co.kr/search/wsearchresult.aspx?SearchTarget=Book&SearchWord=Tom+%26+Jerry+J+K")))
    as Hq by (vm_compute; reflexivity).
  assert (check_isbn (Sample.host Sample.og_isbn13)
            ((∅ : gmap string ustr) !! "isbn"%string) = None) as Hck
    by (vm_compute; reflexivity).
  split; [exact Hq|].
  apply (query_is_url_safe (Sample.host Sample.og_isbn13)
           (Some (u "Tom & Jerry")) (Some [u "J K"]) ∅ _
           (sample_codec_octets Sample.og_isbn13) Hck Hq).
Defined.

Lemma isbn_lookup_runs_worker_once_witness :
  exists s',
    Aladin.identify (Sample.host Sample.og_isbn13) (Sample.world None)
      (Some (u "Harry Potter")) None Sample.identifiers 30
      (boot 0 Sample.nothing)
    = Some (Ret None, s')
    /\ pending s' = []
    /\ queue (shared s') = Sample.records Sample.og_isbn13.
Proof.
  destruct (isbn_lookup_runs_worker_once (Sample.host Sample.og_isbn13)
              (Sample.world None) (Some (u "Harry Potter")) None
              Sample.identifiers 30 0 Sample.nothing (u "8983920688"))
    as (s' & Hid & Hp & Hq & _);
    [vm_compute; reflexivity|discriminate|reflexivity|].
  exists s'. split; [exact Hid|]. split; [exact Hp|]. exact Hq.
Defined.



End FurtherRuns.
